(** * Terra::CharUtil: UTF-8 validation and UTF-8 / UTF-16 conversion

    A shallow embedding of the three operations of the character utilities
    library,

      - [IsUTF8Valid]          (is_valid_utf8.cpp),
      - [ConvertUTF8ToUTF16]   (utf8_to_utf16.cpp),
      - [ConvertUTF16ToUTF8]   (utf16_to_utf8.cpp),

    with the constants of unicode_constants.h and the length ceiling
    [Max_UTF16_String] of character_utilities.h.  These are the sources of
    2024-2025, in which each operation has a file of its own; the older
    character_utilities.cpp holds earlier versions of the three (no test for
    0xC0, 0xC1 and 0xF5.. in the validator, no byte order mark detection) and
    is not modelled.  Line numbers are those of the files as they are found:
    utf8_to_utf16.cpp begins unnamed/part_002, character_utilities.h begins
    unnamed/part_003, and utf16_to_utf8.cpp is the part of
    test/utf16_to_utf8/CMakeLists.txt from line 489 on.

    Octets are integers in [0, 256); 16-bit and 32-bit values are integers
    whose wrap-around is written with [wrap16] and [wrap32]; values of type
    [std::size_t] wrap modulo [2 ^ size_bits], where [size_bits] is
    [sizeof(std::size_t) * CHAR_BIT] of the platform.  A span is the list of
    its octets; an iterator into a span is an offset from its beginning. *)

From Stdlib Require Import ZArith List Bool Lia QArith Qround.
Import ListNotations.
Local Open Scope Z_scope.

(** ** Fixed-width integers *)

Definition wrap8 (z : Z) : Z := z mod 2 ^ 8.
Definition wrap16 (z : Z) : Z := z mod 2 ^ 16.
Definition wrap32 (z : Z) : Z := z mod 2 ^ 32.

Definition is_octet (b : Z) : Prop := 0 <= b < 256.

Section SizeType.

(** [sizeof(std::size_t) * CHAR_BIT] *)
Variable size_bits : Z.

(** [std::numeric_limits<std::size_t>::max()] *)
Definition SIZE_MAX : Z := 2 ^ size_bits - 1.

Definition wrap_size (z : Z) : Z := z mod 2 ^ size_bits.

(** character_utilities.h, lines 62-67. *)
Definition Max_UTF16_String : Z :=
  Z.lor
    (wrap_size
       (Z.shiftl
          (wrap_size (Z.shiftl (Z.shiftr SIZE_MAX (Z.shiftr size_bits 1)) 1) / 3)
          (Z.shiftr size_bits 1)))
    (wrap_size (Z.shiftl (Z.shiftr SIZE_MAX (Z.shiftr size_bits 1)) 1) / 3).

End SizeType.

(** ** unicode_constants.h *)

Module Unicode.

Definition Maximum_Character_Value : Z := 0x10ffff.
Definition Maximum_BMP_Value : Z := 0xffff.
Definition Surrogate_High_Min : Z := 0xd800.
Definition Surrogate_High_Max : Z := 0xdbff.
Definition Surrogate_Low_Min : Z := 0xdc00.
Definition Surrogate_Low_Max : Z := 0xdfff.
Definition Lead_Offset : Z := wrap32 (0xd800 - Z.shiftr 0x10000 10).
Definition Surrogate_Offset : Z := 0xfca02400.

End Unicode.

(** character_utilities.h, line 47. *)
Definition UTF_BOM : Z := 0xFEFF.

(** ** Spans and iterators *)

(** [buffer[i] = v] for an offset inside the span.  An offset outside the
    span is undefined behaviour in the source; here the store is dropped.
    Behind their capacity checks the converters never get there:
    [ConvertUTF8ToUTF16_written_spec], [ConvertUTF16ToUTF8_written_spec]. *)
Fixpoint store (buffer : list Z) (i : nat) (v : Z) : list Z :=
  match buffer, i with
  | [], _ => []
  | _ :: t, O => v :: t
  | h :: t, S j => h :: store t j v
  end.

(** ** utf8_to_utf16.cpp *)

(** [InsertUTF16LE(character, std::span<std::uint8_t, 2>{p, 2})]: the
    two-octet span starts at offset [p] of [out]. *)
Definition InsertUTF16LE (character : Z) (out : list Z) (p : nat) : list Z :=
  let out := store out p (wrap8 (Z.land character 0xff)) in
  store out (p + 1) (wrap8 (Z.land (Z.shiftr character 8) 0xff)).

Definition InsertUTF16BE (character : Z) (out : list Z) (p : nat) : list Z :=
  let out := store out p (wrap8 (Z.land (Z.shiftr character 8) 0xff)) in
  store out (p + 1) (wrap8 (Z.land character 0xff)).

(** The locals of the two scanning loops. *)
Record Scan : Type := mkScan {
  expected_utf8_remaining : Z;
  wide_character : Z
}.

(** An output iterator ([p] in utf8_to_utf16.cpp, [r] in utf16_to_utf8.cpp)
    as the offset [it] into the output span [out]. *)
Record Cursor : Type := mkCursor {
  it : nat;
  out : list Z
}.

(** What one pass through a loop body does: go on with the next iteration
    or leave the function with [{false, 0}]; the locals are given as they
    were when the iteration began. *)
Inductive Flow (S : Type) : Type :=
| Continue (s : S)
| ReturnFalse (s : S).
Arguments Continue {S} s.
Arguments ReturnFalse {S} s.

(** The result of a conversion: the returned pair and the output span as the
    call leaves it. *)
Record Conversion : Type := mkConversion {
  success : bool;
  octets : Z;
  buffer : list Z
}.

Definition in_surrogate_range (c : Z) : bool :=
  (Unicode.Surrogate_High_Min <=? c) && (c <=? Unicode.Surrogate_Low_Max).

Definition in_low_surrogate_range (c : Z) : bool :=
  (Unicode.Surrogate_Low_Min <=? c) && (c <=? Unicode.Surrogate_Low_Max).

(** Lines 140-262: the body of [for (std::uint8_t octet : in)]. *)
Definition ConvertUTF8ToUTF16_body (little_endian : bool) (octet : Z)
    (st : Scan * Cursor) : Flow (Scan * Cursor) :=
  let '(sc, cu) := st in
  if 0 <? expected_utf8_remaining sc then
    if negb (Z.land octet 0xc0 =? 0x80) then ReturnFalse st
    else
      let wide := Z.lor (wrap32 (Z.shiftl (wide_character sc) 6))
                        (Z.land octet 0x3f) in
      (* guarded by [expected_utf8_remaining > 0]: the decrement is exact *)
      let remaining := expected_utf8_remaining sc - 1 in
      if remaining =? 0 then
        if Unicode.Maximum_Character_Value <? wide then
          ReturnFalse st
        else if in_surrogate_range wide then
          ReturnFalse st
        else if Unicode.Maximum_BMP_Value <? wide then
          let high_surrogate :=
            wrap16 (wrap32 (Unicode.Lead_Offset + Z.shiftr wide 10)) in
          let low_surrogate :=
            wrap16 (wrap32 (Unicode.Surrogate_Low_Min + Z.land wide 0x3ff)) in
          let out' :=
            if little_endian
            then InsertUTF16LE low_surrogate
                   (InsertUTF16LE high_surrogate (out cu) (it cu)) (it cu + 2)
            else InsertUTF16BE low_surrogate
                   (InsertUTF16BE high_surrogate (out cu) (it cu)) (it cu + 2) in
          Continue (mkScan remaining wide, mkCursor (it cu + 4) out')
        else
          let out' :=
            if little_endian
            then InsertUTF16LE (wrap16 wide) (out cu) (it cu)
            else InsertUTF16BE (wrap16 wide) (out cu) (it cu) in
          Continue (mkScan remaining wide, mkCursor (it cu + 2) out')
      else Continue (mkScan remaining wide, cu)
  else if octet <=? 0x7f then
    let out' :=
      if little_endian
      then InsertUTF16LE octet (out cu) (it cu)
      else InsertUTF16BE octet (out cu) (it cu) in
    Continue (sc, mkCursor (it cu + 2) out')
  else if Z.land octet 0xe0 =? 0xc0 then
    Continue (mkScan 1 (Z.land octet 0x3f), cu)
  else if Z.land octet 0xf0 =? 0xe0 then
    Continue (mkScan 2 (Z.land octet 0x0f), cu)
  else if Z.land octet 0xf8 =? 0xf0 then
    Continue (mkScan 3 (Z.land octet 0x07), cu)
  else ReturnFalse st.

Fixpoint ConvertUTF8ToUTF16_loop (little_endian : bool) (input : list Z)
    (st : Scan * Cursor) : Flow (Scan * Cursor) :=
  match input with
  | [] => Continue st
  | octet :: rest =>
      match ConvertUTF8ToUTF16_body little_endian octet st with
      | Continue st' => ConvertUTF8ToUTF16_loop little_endian rest st'
      | ReturnFalse st' => ReturnFalse st'
      end
  end.

Section UTF8ToUTF16.

Variable size_bits : Z.

(** Lines 120-269. *)
Definition ConvertUTF8ToUTF16 (input : list Z) (output : list Z)
    (little_endian : bool) : Conversion :=
  if (length input =? 0)%nat then mkConversion true 0 output
  else if Z.of_nat (length output)
          <? wrap_size size_bits (Z.of_nat (length input) * 2)
  then mkConversion false 0 output
  else
    match ConvertUTF8ToUTF16_loop little_endian input
            (mkScan 0 0, mkCursor 0 output) with
    | ReturnFalse (_, cu) => mkConversion false 0 (out cu)
    | Continue (sc, cu) =>
        if 0 <? expected_utf8_remaining sc
        then mkConversion false 0 (out cu)
        else mkConversion true (Z.of_nat (it cu)) (out cu)
    end.

End UTF8ToUTF16.

(** ** is_valid_utf8.cpp *)

(** Lines 59-124: the body of [for (std::uint8_t octet : octets)]. *)
Definition IsUTF8Valid_body (octet : Z) (sc : Scan) : Flow Scan :=
  if (octet =? 0xc0) || (octet =? 0xc1) then ReturnFalse sc
  else if 0xF5 <=? octet then ReturnFalse sc
  else if 0 <? expected_utf8_remaining sc then
    if negb (Z.land octet 0xc0 =? 0x80) then ReturnFalse sc
    else
      let wide := Z.lor (wrap32 (Z.shiftl (wide_character sc) 6))
                        (Z.land octet 0x3f) in
      let remaining := expected_utf8_remaining sc - 1 in
      if remaining =? 0 then
        if Unicode.Maximum_Character_Value <? wide then
          ReturnFalse sc
        else if in_surrogate_range wide then
          ReturnFalse sc
        else Continue (mkScan remaining wide)
      else Continue (mkScan remaining wide)
  else if octet <=? 0x7f then Continue sc
  else if Z.land octet 0xe0 =? 0xc0 then
    Continue (mkScan 1 (Z.land octet 0x3f))
  else if Z.land octet 0xf0 =? 0xe0 then
    Continue (mkScan 2 (Z.land octet 0x0f))
  else if Z.land octet 0xf8 =? 0xf0 then
    Continue (mkScan 3 (Z.land octet 0x07))
  else ReturnFalse sc.

Fixpoint IsUTF8Valid_loop (octets : list Z) (sc : Scan) : Flow Scan :=
  match octets with
  | [] => Continue sc
  | octet :: rest =>
      match IsUTF8Valid_body octet sc with
      | Continue sc' => IsUTF8Valid_loop rest sc'
      | ReturnFalse sc' => ReturnFalse sc'
      end
  end.

(** Lines 48-129. *)
Definition IsUTF8Valid (octets : list Z) : bool :=
  if (length octets =? 0)%nat then true
  else
    match IsUTF8Valid_loop octets (mkScan 0 0) with
    | ReturnFalse _ => false
    | Continue sc => expected_utf8_remaining sc =? 0
    end.

(** ** utf16_to_utf8.cpp *)

(** [ExtractUTF16LE(std::span<const uint8_t, 2>(p, 2))], given the two
    octets [buffer0 = p[0]] and [buffer1 = p[1]] of the span. *)
Definition ExtractUTF16LE (buffer0 buffer1 : Z) : Z :=
  wrap16 (Z.lor (Z.shiftl (wrap16 buffer1) 8) (wrap16 buffer0)).

Definition ExtractUTF16BE (buffer0 buffer1 : Z) : Z :=
  wrap16 (Z.lor (Z.shiftl (wrap16 buffer0) 8) (wrap16 buffer1)).

Definition Extract (little_endian : bool) (buffer0 buffer1 : Z) : Z :=
  if little_endian then ExtractUTF16LE buffer0 buffer1
  else ExtractUTF16BE buffer0 buffer1.

(** [*r++ = v] *)
Definition put (v : Z) (cu : Cursor) : Cursor :=
  mkCursor (it cu + 1) (store (out cu) (it cu) (wrap8 v)).

(** Lines 714-715: the value of a surrogate pair, in [std::uint32_t]
    arithmetic. *)
Definition surrogate_pair_value (character low_surrogate : Z) : Z :=
  wrap32 (wrap32 (wrap32 (Z.shiftl character 10) + low_surrogate)
          + Unicode.Surrogate_Offset).

(** Lines 718-756: the UTF-8 octets of [character]. *)
Definition ConvertUTF16ToUTF8_encode (character : Z) (cu : Cursor)
    : Flow Cursor :=
  if character <=? 0x7f then
    Continue (put (Z.land character 0x7f) cu)
  else if character <=? 0x7ff then
    let cu := put (Z.lor 0xc0 (Z.land (Z.shiftr character 6) 0x1f)) cu in
    let cu := put (Z.lor 0x80 (Z.land character 0x3f)) cu in
    Continue cu
  else if character <=? 0xffff then
    let cu := put (Z.lor 0xe0 (Z.land (Z.shiftr character 12) 0x0f)) cu in
    let cu := put (Z.lor 0x80 (Z.land (Z.shiftr character 6) 0x3f)) cu in
    let cu := put (Z.lor 0x80 (Z.land character 0x3f)) cu in
    Continue cu
  else if character <=? 0x10ffff then
    let cu := put (Z.lor 0xf0 (Z.land (Z.shiftr character 18) 0x07)) cu in
    let cu := put (Z.lor 0x80 (Z.land (Z.shiftr character 12) 0x3f)) cu in
    let cu := put (Z.lor 0x80 (Z.land (Z.shiftr character 6) 0x3f)) cu in
    let cu := put (Z.lor 0x80 (Z.land character 0x3f)) cu in
    Continue cu
  else ReturnFalse cu.

(** The [return {false, 0}] statements of [ConvertUTF16ToUTF8], by line. *)
Inductive Failure : Type :=
| Odd_Length              (* line 622 *)
| Too_Long                (* line 625 *)
| Buffer_Too_Small        (* line 628 *)
| Lone_Low_Surrogate      (* line 680 *)
| Missing_Low_Surrogate   (* line 685 *)
| Bad_Low_Surrogate       (* line 706 *)
| Beyond_Maximum          (* line 756 *)
| Read_Past_End.          (* no such statement: a read of [p[1]] at [q]  *)

Inductive Outcome : Type :=
| Finished (cu : Cursor)
| Failed (why : Failure) (cu : Cursor).

(** Lines 651-757: [while (p != q)], with [input] the octets from [p] to
    [q].  A single octet left over cannot occur behind the parity check of
    line 622; the source would read past the end there. *)
Fixpoint ConvertUTF16ToUTF8_loop (little_endian : bool) (input : list Z)
    (cu : Cursor) : Outcome :=
  match input with
  | [] => Finished cu
  | [_] => Failed Read_Past_End cu
  | p0 :: p1 :: rest =>
      let character := Extract little_endian p0 p1 in
      if in_surrogate_range character then
        if in_low_surrogate_range character then Failed Lone_Low_Surrogate cu
        else
          match rest with
          | [] => Failed Missing_Low_Surrogate cu
          | [_] => Failed Read_Past_End cu
          | p2 :: p3 :: rest' =>
              let low_surrogate := Extract little_endian p2 p3 in
              if (low_surrogate <? Unicode.Surrogate_Low_Min)
                 || (Unicode.Surrogate_Low_Max <? low_surrogate)
              then Failed Bad_Low_Surrogate cu
              else
                let character :=
                  surrogate_pair_value character low_surrogate in
                match ConvertUTF16ToUTF8_encode character cu with
                | Continue cu' =>
                    ConvertUTF16ToUTF8_loop little_endian rest' cu'
                | ReturnFalse cu' => Failed Beyond_Maximum cu'
                end
          end
      else
        match ConvertUTF16ToUTF8_encode character cu with
        | Continue cu' => ConvertUTF16ToUTF8_loop little_endian rest cu'
        | ReturnFalse cu' => Failed Beyond_Maximum cu'
        end
  end.

(** Lines 635-648: a byte order mark in front of at least one more code
    unit decides the byte order. *)
Definition detect_byte_order (input : list Z) (little_endian : bool) : bool :=
  if 4 <=? Z.of_nat (length input) then
    match input with
    | p0 :: p1 :: _ =>
        if (p0 =? 0xFE) && (p1 =? 0xFF) then false
        else if (p0 =? 0xFF) && (p1 =? 0xFE) then true
        else little_endian
    | _ => little_endian
    end
  else little_endian.

Section UTF16ToUTF8.

Variable size_bits : Z.

(** Lines 613-760, with the [return] statement taken recorded. *)
Definition ConvertUTF16ToUTF8_outcome (input : list Z) (output : list Z)
    (little_endian : bool) : Outcome :=
  let size := Z.of_nat (length input) in
  if size =? 0 then Finished (mkCursor 0 output)
  else if negb (Z.land size 1 =? 0) then
    Failed Odd_Length (mkCursor 0 output)
  else if Max_UTF16_String size_bits <? size then
    Failed Too_Long (mkCursor 0 output)
  else if Z.of_nat (length output)
          <? wrap_size size_bits (size + Z.shiftr size 1)
  then Failed Buffer_Too_Small (mkCursor 0 output)
  else
    ConvertUTF16ToUTF8_loop (detect_byte_order input little_endian)
      input (mkCursor 0 output).

Definition ConvertUTF16ToUTF8 (input : list Z) (output : list Z)
    (little_endian : bool) : Conversion :=
  match ConvertUTF16ToUTF8_outcome input output little_endian with
  | Finished cu => mkConversion true (Z.of_nat (it cu)) (out cu)
  | Failed _ cu => mkConversion false 0 (out cu)
  end.

End UTF16ToUTF8.

(** * The octets a conversion writes

    Both converters write through an iterator that only moves forward, so
    what a call leaves in the output span is the sequence of octets it wrote,
    laid over the beginning of the span.  The definitions of this part give
    that sequence for each loop: they follow the loops statement by
    statement, with the list of octets written in place of the stores.
    [ConvertUTF8ToUTF16_loop_written] and [ConvertUTF16ToUTF8_loop_written]
    relate them to the loops above. *)

(** [e] written from offset [i] on. *)
Fixpoint blit (buffer : list Z) (i : nat) (e : list Z) : list Z :=
  match e with
  | [] => buffer
  | v :: e' => blit (store buffer i v) (S i) e'
  end.

Definition advance (cu : Cursor) (e : list Z) : Cursor :=
  mkCursor (it cu + length e) (blit (out cu) (it cu) e).

(** The two octets of [InsertUTF16LE] and [InsertUTF16BE]. *)
Definition code_unit_octets (little_endian : bool) (character : Z) : list Z :=
  if little_endian
  then [wrap8 (Z.land character 0xff);
        wrap8 (Z.land (Z.shiftr character 8) 0xff)]
  else [wrap8 (Z.land (Z.shiftr character 8) 0xff);
        wrap8 (Z.land character 0xff)].

(** utf8_to_utf16.cpp, lines 168-216. *)
Definition utf16_octets (little_endian : bool) (wide : Z) : list Z :=
  if Unicode.Maximum_BMP_Value <? wide then
    code_unit_octets little_endian
      (wrap16 (wrap32 (Unicode.Lead_Offset + Z.shiftr wide 10)))
    ++ code_unit_octets little_endian
      (wrap16 (wrap32 (Unicode.Surrogate_Low_Min + Z.land wide 0x3ff)))
  else code_unit_octets little_endian (wrap16 wide).

(** utf8_to_utf16.cpp, lines 140-262. *)
Definition ConvertUTF8ToUTF16_written (little_endian : bool) (octet : Z)
    (sc : Scan) : Flow Scan * list Z :=
  if 0 <? expected_utf8_remaining sc then
    if negb (Z.land octet 0xc0 =? 0x80) then (ReturnFalse sc, [])
    else
      let wide := Z.lor (wrap32 (Z.shiftl (wide_character sc) 6))
                        (Z.land octet 0x3f) in
      let remaining := expected_utf8_remaining sc - 1 in
      if remaining =? 0 then
        if Unicode.Maximum_Character_Value <? wide then (ReturnFalse sc, [])
        else if in_surrogate_range wide then (ReturnFalse sc, [])
        else (Continue (mkScan remaining wide), utf16_octets little_endian wide)
      else (Continue (mkScan remaining wide), [])
  else if octet <=? 0x7f then
    (Continue sc, code_unit_octets little_endian octet)
  else if Z.land octet 0xe0 =? 0xc0 then
    (Continue (mkScan 1 (Z.land octet 0x3f)), [])
  else if Z.land octet 0xf0 =? 0xe0 then
    (Continue (mkScan 2 (Z.land octet 0x0f)), [])
  else if Z.land octet 0xf8 =? 0xf0 then
    (Continue (mkScan 3 (Z.land octet 0x07)), [])
  else (ReturnFalse sc, []).

Fixpoint ConvertUTF8ToUTF16_stream (little_endian : bool) (input : list Z)
    (sc : Scan) : Flow Scan * list Z :=
  match input with
  | [] => (Continue sc, [])
  | octet :: rest =>
      match ConvertUTF8ToUTF16_written little_endian octet sc with
      | (Continue sc', e) =>
          let '(r, e') := ConvertUTF8ToUTF16_stream little_endian rest sc' in
          (r, e ++ e')
      | (ReturnFalse sc', e) => (ReturnFalse sc', e)
      end
  end.

(** utf16_to_utf8.cpp, lines 718-756. *)
Definition utf8_octets (character : Z) : option (list Z) :=
  if character <=? 0x7f then
    Some [wrap8 (Z.land character 0x7f)]
  else if character <=? 0x7ff then
    Some [wrap8 (Z.lor 0xc0 (Z.land (Z.shiftr character 6) 0x1f));
          wrap8 (Z.lor 0x80 (Z.land character 0x3f))]
  else if character <=? 0xffff then
    Some [wrap8 (Z.lor 0xe0 (Z.land (Z.shiftr character 12) 0x0f));
          wrap8 (Z.lor 0x80 (Z.land (Z.shiftr character 6) 0x3f));
          wrap8 (Z.lor 0x80 (Z.land character 0x3f))]
  else if character <=? 0x10ffff then
    Some [wrap8 (Z.lor 0xf0 (Z.land (Z.shiftr character 18) 0x07));
          wrap8 (Z.lor 0x80 (Z.land (Z.shiftr character 12) 0x3f));
          wrap8 (Z.lor 0x80 (Z.land (Z.shiftr character 6) 0x3f));
          wrap8 (Z.lor 0x80 (Z.land character 0x3f))]
  else None.

(** utf16_to_utf8.cpp, lines 651-757. *)
Fixpoint ConvertUTF16ToUTF8_stream (little_endian : bool) (input : list Z)
    : option Failure * list Z :=
  match input with
  | [] => (None, [])
  | [_] => (Some Read_Past_End, [])
  | p0 :: p1 :: rest =>
      let character := Extract little_endian p0 p1 in
      if in_surrogate_range character then
        if in_low_surrogate_range character
        then (Some Lone_Low_Surrogate, [])
        else
          match rest with
          | [] => (Some Missing_Low_Surrogate, [])
          | [_] => (Some Read_Past_End, [])
          | p2 :: p3 :: rest' =>
              let low_surrogate := Extract little_endian p2 p3 in
              if (low_surrogate <? Unicode.Surrogate_Low_Min)
                 || (Unicode.Surrogate_Low_Max <? low_surrogate)
              then (Some Bad_Low_Surrogate, [])
              else
                match utf8_octets
                        (surrogate_pair_value character low_surrogate) with
                | Some e =>
                    let '(r, e') :=
                      ConvertUTF16ToUTF8_stream little_endian rest' in
                    (r, e ++ e')
                | None => (Some Beyond_Maximum, [])
                end
          end
      else
        match utf8_octets character with
        | Some e =>
            let '(r, e') := ConvertUTF16ToUTF8_stream little_endian rest in
            (r, e ++ e')
        | None => (Some Beyond_Maximum, [])
        end
  end.

(** * Code units and well-formedness *)

(** The 16-bit code units of a UTF-16 octet sequence, as the loop of
    [ConvertUTF16ToUTF8] extracts them (a last octet without a partner
    belongs to no code unit). *)
Fixpoint code_units (little_endian : bool) (input : list Z) : list Z :=
  match input with
  | p0 :: p1 :: rest =>
      Extract little_endian p0 p1 :: code_units little_endian rest
  | _ => []
  end.

Definition in_high_surrogate_range (c : Z) : bool :=
  (Unicode.Surrogate_High_Min <=? c) && (c <=? Unicode.Surrogate_High_Max).

(** A code unit in the low-surrogate range that no high surrogate
    immediately precedes. *)
Definition lone_low_surrogate (units : list Z) : Prop :=
  exists (i : nat) (u : Z),
    nth_error units i = Some u /\ in_low_surrogate_range u = true /\
    (i = 0%nat \/
     exists v, nth_error units (i - 1) = Some v /\
               in_high_surrogate_range v = false).

(** A code unit in the high-surrogate range that no low surrogate
    immediately follows: the input ends, or the next unit is out of range. *)
Definition unpaired_high_surrogate (units : list Z) : Prop :=
  exists (i : nat) (u : Z),
    nth_error units i = Some u /\ in_high_surrogate_range u = true /\
    (nth_error units (S i) = None \/
     exists v, nth_error units (S i) = Some v /\
               in_low_surrogate_range v = false).

(** Every surrogate code unit is half of a pair: high, then low. *)
Fixpoint well_paired (units : list Z) : bool :=
  match units with
  | [] => true
  | u :: rest =>
      if in_high_surrogate_range u then
        match rest with
        | [] => false
        | l :: rest' => in_low_surrogate_range l && well_paired rest'
        end
      else negb (in_low_surrogate_range u) && well_paired rest
  end.

(** RFC 3629, section 4: in a three-octet sequence the lead E0 is followed
    by A0..BF, in a four-octet sequence the lead F0 by 90..BF; anything
    lower is an encoding longer than the shortest one. *)
Fixpoint shortest_form (octets : list Z) : bool :=
  match octets with
  | [] => true
  | b :: rest =>
      match rest with
      | c :: _ =>
          negb ((b =? 0xE0) && (c <? 0xA0)) && negb ((b =? 0xF0) && (c <? 0x90))
      | [] => true
      end && shortest_form rest
  end.

(** The UTF-8 octets of U+FFFE, the byte-swapped form of the byte order
    mark, in front of at least one more octet. *)
Definition starts_with_swapped_bom (octets : list Z) : bool :=
  match octets with
  | b0 :: b1 :: b2 :: _ :: _ => (b0 =? 0xEF) && (b1 =? 0xBF) && (b2 =? 0xBE)
  | _ => false
  end.

(** * Scans that cannot end well *)

(** A sequence is open, and whatever follows, the code point it assembles
    is beyond 0x10FFFF. *)
Definition doomed (sc : Scan) : Prop :=
  (expected_utf8_remaining sc = 3 /\ 5 <= wide_character sc < 8)
  \/ (expected_utf8_remaining sc = 2 /\ 320 <= wide_character sc < 512)
  \/ (expected_utf8_remaining sc = 1 /\ 20480 <= wide_character sc < 32768).

(** The scan of [ConvertUTF8ToUTF16] has ended in [{false, 0}], in the loop
    or at the test behind it. *)
Definition rejected (r : Flow Scan) : Prop :=
  match r with
  | ReturnFalse _ => True
  | Continue sc => 0 < expected_utf8_remaining sc
  end.

(** * character_utilities.cpp

    The source of 2024 holds the three operations in one file.  Its
    [ConvertUTF8ToUTF16] (lines 189-338) is the text of utf8_to_utf16.cpp
    with a pointer in place of the iterator, and is [ConvertUTF8ToUTF16]
    above.  Its [IsUTF8Valid] has no test in front of the scan, and its
    [ConvertUTF16ToUTF8] reads every input in the byte order it is given. *)

Module Legacy.

(** Lines 551-612: the body of [for (std::uint8_t octet : octets)]. *)
Definition IsUTF8Valid_body (octet : Z) (sc : Scan) : Flow Scan :=
  if 0 <? expected_utf8_remaining sc then
    if negb (Z.land octet 0xc0 =? 0x80) then ReturnFalse sc
    else
      let wide := Z.lor (wrap32 (Z.shiftl (wide_character sc) 6))
                        (Z.land octet 0x3f) in
      let remaining := expected_utf8_remaining sc - 1 in
      if remaining =? 0 then
        if Unicode.Maximum_Character_Value <? wide then ReturnFalse sc
        else if in_surrogate_range wide then ReturnFalse sc
        else Continue (mkScan remaining wide)
      else Continue (mkScan remaining wide)
  else if octet <=? 0x7f then Continue sc
  else if Z.land octet 0xe0 =? 0xc0 then
    Continue (mkScan 1 (Z.land octet 0x3f))
  else if Z.land octet 0xf0 =? 0xe0 then
    Continue (mkScan 2 (Z.land octet 0x0f))
  else if Z.land octet 0xf8 =? 0xf0 then
    Continue (mkScan 3 (Z.land octet 0x07))
  else ReturnFalse sc.

Fixpoint IsUTF8Valid_loop (octets : list Z) (sc : Scan) : Flow Scan :=
  match octets with
  | [] => Continue sc
  | octet :: rest =>
      match IsUTF8Valid_body octet sc with
      | Continue sc' => IsUTF8Valid_loop rest sc'
      | ReturnFalse sc' => ReturnFalse sc'
      end
  end.

(** Lines 540-617. *)
Definition IsUTF8Valid (octets : list Z) : bool :=
  if (length octets =? 0)%nat then true
  else
    match IsUTF8Valid_loop octets (mkScan 0 0) with
    | ReturnFalse _ => false
    | Continue sc => expected_utf8_remaining sc =? 0
    end.

(** Lines 380-515.  The loop of lines 406-512 is the loop of
    utf16_to_utf8.cpp, [while (p < q)] and [if (p >= q)] standing for
    [while (p != q)] and [if (p == q)]; behind the parity check the two
    agree, and [ConvertUTF16ToUTF8_loop] is both. *)
Definition ConvertUTF16ToUTF8_outcome (size_bits : Z) (input : list Z)
    (output : list Z) (little_endian : bool) : Outcome :=
  let pw_length := Z.of_nat (length input) in
  if pw_length =? 0 then Finished (mkCursor 0 output)
  else if negb (Z.land pw_length 1 =? 0) then
    Failed Odd_Length (mkCursor 0 output)
  else if Max_UTF16_String size_bits <? pw_length then
    Failed Too_Long (mkCursor 0 output)
  else if Z.of_nat (length output)
          <? wrap_size size_bits (pw_length + Z.shiftr pw_length 1)
  then Failed Buffer_Too_Small (mkCursor 0 output)
  else ConvertUTF16ToUTF8_loop little_endian input (mkCursor 0 output).

Definition ConvertUTF16ToUTF8 (size_bits : Z) (input : list Z)
    (output : list Z) (little_endian : bool) : Conversion :=
  match ConvertUTF16ToUTF8_outcome size_bits input output little_endian with
  | Finished cu => mkConversion true (Z.of_nat (it cu)) (out cu)
  | Failed _ cu => mkConversion false 0 (out cu)
  end.

End Legacy.

(** * Notions for the further properties *)

(** The two octets of every code unit exchanged (a last octet without a
    partner stays). *)
Fixpoint swap_pairs (l : list Z) : list Z :=
  match l with
  | a :: b :: rest => b :: a :: swap_pairs rest
  | _ => l
  end.

(** Two scans that go on alike: as many octets are expected, and the code
    point assembled so far is the same while a sequence is open (between
    sequences [wide_character] holds what is left of the last one and is not
    read). *)
Definition same_scan (sc sc' : Scan) : Prop :=
  expected_utf8_remaining sc = expected_utf8_remaining sc'
  /\ (0 < expected_utf8_remaining sc ->
      wide_character sc = wide_character sc').

Definition same_flow (r r' : Flow Scan) : Prop :=
  match r, r' with
  | Continue sc, Continue sc' => same_scan sc sc'
  | ReturnFalse _, ReturnFalse _ => True
  | _, _ => False
  end.

(** Neither 0xC0 nor 0xC1. *)
Definition not_C0_C1 (b : Z) : bool := negb ((b =? 0xc0) || (b =? 0xc1)).

(** An octet of the ASCII range. *)
Definition is_ascii (b : Z) : Prop := 0 <= b <= 0x7f.

(** A Unicode scalar value: a code point that is no surrogate. *)
Definition is_scalar (c : Z) : Prop :=
  0 <= c <= 0x10ffff /\ in_surrogate_range c = false.

(** RFC 3629, section 3: the UTF-8 octets of a code point, the bits of the
    code point laid out in one to four octets. *)
Definition RFC3629_octets (c : Z) : list Z :=
  if c <=? 0x7f then [c]
  else if c <=? 0x7ff then [0xC0 + c / 64; 0x80 + c mod 64]
  else if c <=? 0xffff then
    [0xE0 + c / 4096; 0x80 + (c / 64) mod 64; 0x80 + c mod 64]
  else
    [0xF0 + c / 262144; 0x80 + (c / 4096) mod 64;
     0x80 + (c / 64) mod 64; 0x80 + c mod 64].

(** RFC 2781, section 2.1: the UTF-16 code units of a code point, the code
    point itself or a surrogate pair for the 20 bits above 0x10000. *)
Definition RFC2781_code_units (c : Z) : list Z :=
  if c <=? 0xffff then [c]
  else [0xD800 + (c - 0x10000) / 1024; 0xDC00 + (c - 0x10000) mod 1024].

(** * Properties *)

(** ** Cases of the test suite

    The embedding run on inputs of test_utf8_validity.cpp,
    test_utf8_to_utf16.cpp and test_utf16_to_utf8.cpp. *)

Example test_validity_Valid1 :
  IsUTF8Valid [0xf0; 0x9f; 0x9a; 0xb5] = true.
Proof. reflexivity. Qed.

Example test_validity_Invalid1 :
  IsUTF8Valid [0xf0; 0xdf; 0x9a; 0xa3] = false.
Proof. reflexivity. Qed.

Example test_validity_Invalid2 :
  IsUTF8Valid [0xf0; 0x9f; 0x9a] = false.
Proof. reflexivity. Qed.

Example test_validity_Invalid3 :
  IsUTF8Valid [0xf8; 0x9f; 0x9a; 0xa3] = false.
Proof. reflexivity. Qed.

Example test_utf8_to_utf16_ASCII_1_LE :
  ConvertUTF8ToUTF16 64 [0x48; 0x65; 0x6c; 0x6c; 0x6f] (repeat 0 10) true
  = mkConversion true 10
      [0x48; 0x00; 0x65; 0x00; 0x6c; 0x00; 0x6c; 0x00; 0x6f; 0x00].
Proof. reflexivity. Qed.

Example test_utf8_to_utf16_ASCII_1_BE :
  ConvertUTF8ToUTF16 64 [0x48; 0x65; 0x6c; 0x6c; 0x6f] (repeat 0 10) false
  = mkConversion true 10
      [0x00; 0x48; 0x00; 0x65; 0x00; 0x6c; 0x00; 0x6c; 0x00; 0x6f].
Proof. reflexivity. Qed.

Example test_utf8_to_utf16_VariousSurrogates :
  ConvertUTF8ToUTF16 64
    [0xf0; 0x90; 0x90; 0xb7; 0xf0; 0xa4; 0xad; 0xa2] (repeat 0 16) true
  = mkConversion true 8
      [0x01; 0xD8; 0x37; 0xDC; 0x52; 0xD8; 0x62; 0xDF;
       0; 0; 0; 0; 0; 0; 0; 0].
Proof. reflexivity. Qed.

Example test_utf8_to_utf16_BOM2 :
  IsUTF8Valid [0xFF; 0xFE; 0x48; 0x65; 0x6c; 0x6c; 0x6f] = false.
Proof. reflexivity. Qed.

Example test_utf16_to_utf8_Empty :
  ConvertUTF16ToUTF8 64 [] [] true = mkConversion true 0 [].
Proof. reflexivity. Qed.

Example test_utf16_to_utf8_surrogate_pair :
  ConvertUTF16ToUTF8 64 [0x3d; 0xd8; 0x00; 0xde] (repeat 0 6) true
  = mkConversion true 4 [0xf0; 0x9f; 0x98; 0x80; 0; 0].
Proof. reflexivity. Qed.

Example test_utf16_to_utf8_lone_low_surrogate :
  ConvertUTF16ToUTF8_outcome 64 [0x00; 0xdc] (repeat 0 3) true
  = Failed Lone_Low_Surrogate (mkCursor 0 [0; 0; 0]).
Proof. reflexivity. Qed.

(** ** Bit operations as arithmetic *)

Lemma lor_add (k a b : Z) :
  0 <= k -> a mod 2 ^ k = 0 -> 0 <= b < 2 ^ k -> Z.lor a b = a + b.
Proof.
  intros Hk Ha Hb.
  assert (Hland : Z.land a b = 0);
    [|rewrite <- Z.lxor_lor by exact Hland;
      symmetry; apply Z.add_nocarry_lxor; exact Hland].
  apply Z.bits_inj'. intros n Hn.
  rewrite Z.land_spec, Z.bits_0.
  destruct (Z.lt_ge_cases n k) as [Hlt | Hge].
  - assert (Z.testbit a n = false) as ->; [|reflexivity].
    rewrite <- (Z.mod_pow2_bits_low a k n) by lia. rewrite Ha. apply Z.bits_0.
  - assert (Z.testbit b n = false) as ->; [|apply andb_false_r].
    rewrite <- (Z.mod_small b (2 ^ k)) by lia.
    apply Z.mod_pow2_bits_high. lia.
Qed.

Lemma land_low (k x : Z) : 0 <= k -> Z.land x (2 ^ k - 1) = x mod 2 ^ k.
Proof.
  intros Hk. rewrite <- Z.land_ones by assumption.
  rewrite Z.ones_equiv. reflexivity.
Qed.

Lemma land_07 x : Z.land x 0x07 = x mod 8.
Proof. apply (land_low 3). lia. Qed.
Lemma land_0f x : Z.land x 0x0f = x mod 16.
Proof. apply (land_low 4). lia. Qed.
Lemma land_1f x : Z.land x 0x1f = x mod 32.
Proof. apply (land_low 5). lia. Qed.
Lemma land_3f x : Z.land x 0x3f = x mod 64.
Proof. apply (land_low 6). lia. Qed.
Lemma land_7f x : Z.land x 0x7f = x mod 128.
Proof. apply (land_low 7). lia. Qed.
Lemma land_ff x : Z.land x 0xff = x mod 256.
Proof. apply (land_low 8). lia. Qed.
Lemma land_3ff x : Z.land x 0x3ff = x mod 1024.
Proof. apply (land_low 10). lia. Qed.

Lemma shiftl_6 x : Z.shiftl x 6 = x * 64.
Proof. apply (Z.shiftl_mul_pow2 x 6). lia. Qed.
Lemma shiftl_8 x : Z.shiftl x 8 = x * 256.
Proof. apply (Z.shiftl_mul_pow2 x 8). lia. Qed.
Lemma shiftl_10 x : Z.shiftl x 10 = x * 1024.
Proof. apply (Z.shiftl_mul_pow2 x 10). lia. Qed.

Lemma shiftr_6 x : Z.shiftr x 6 = x / 64.
Proof. apply (Z.shiftr_div_pow2 x 6). lia. Qed.
Lemma shiftr_8 x : Z.shiftr x 8 = x / 256.
Proof. apply (Z.shiftr_div_pow2 x 8). lia. Qed.
Lemma shiftr_10 x : Z.shiftr x 10 = x / 1024.
Proof. apply (Z.shiftr_div_pow2 x 10). lia. Qed.
Lemma shiftr_12 x : Z.shiftr x 12 = x / 4096.
Proof. apply (Z.shiftr_div_pow2 x 12). lia. Qed.
Lemma shiftr_18 x : Z.shiftr x 18 = x / 262144.
Proof. apply (Z.shiftr_div_pow2 x 18). lia. Qed.

Create Rewrite HintDb bits.
#[export] Hint Rewrite land_07 land_0f land_1f land_3f land_7f land_ff land_3ff
  shiftl_6 shiftl_8 shiftl_10
  shiftr_6 shiftr_8 shiftr_10 shiftr_12 shiftr_18 : bits.

(** [x | y] for [x] a multiple of [2 ^ k] and [y] below [2 ^ k]. *)
Lemma lor_c0 y : 0 <= y < 32 -> Z.lor 0xc0 y = 0xc0 + y.
Proof. intros. apply (lor_add 5); [lia | reflexivity | lia]. Qed.
Lemma lor_e0 y : 0 <= y < 16 -> Z.lor 0xe0 y = 0xe0 + y.
Proof. intros. apply (lor_add 4); [lia | reflexivity | lia]. Qed.
Lemma lor_f0 y : 0 <= y < 8 -> Z.lor 0xf0 y = 0xf0 + y.
Proof. intros. apply (lor_add 3); [lia | reflexivity | lia]. Qed.
Lemma lor_80 y : 0 <= y < 64 -> Z.lor 0x80 y = 0x80 + y.
Proof. intros. apply (lor_add 6); [lia | reflexivity | lia]. Qed.

Lemma lor_mul64 x y : 0 <= y < 64 -> Z.lor (x * 64) y = x * 64 + y.
Proof.
  intros. apply (lor_add 6); [lia | | lia].
  change (2 ^ 6) with 64. apply Z_mod_mult.
Qed.

Lemma lor_mul256 x y : 0 <= y < 256 -> Z.lor (x * 256) y = x * 256 + y.
Proof.
  intros. apply (lor_add 8); [lia | | lia].
  change (2 ^ 8) with 256. apply Z_mod_mult.
Qed.

(** A property of all 256 octets, by enumeration. *)
Lemma octet_forall (P : Z -> bool) :
  forallb P (map Z.of_nat (seq 0 256)) = true ->
  forall b, is_octet b -> P b = true.
Proof.
  intros Hall b [Hlo Hhi].
  rewrite forallb_forall in Hall. apply Hall.
  rewrite in_map_iff. exists (Z.to_nat b). split; [lia|].
  apply in_seq. lia.
Qed.

(** The lead and continuation masks select the high bits of an octet. *)
Lemma land_c0 b : is_octet b -> Z.land b 0xc0 = 64 * (b / 64).
Proof.
  intros H. apply Z.eqb_eq.
  apply (octet_forall (fun b => Z.land b 0xc0 =? 64 * (b / 64))); [|exact H].
  vm_compute. reflexivity.
Qed.

Lemma land_e0 b : is_octet b -> Z.land b 0xe0 = 32 * (b / 32).
Proof.
  intros H. apply Z.eqb_eq.
  apply (octet_forall (fun b => Z.land b 0xe0 =? 32 * (b / 32))); [|exact H].
  vm_compute. reflexivity.
Qed.

Lemma land_f0 b : is_octet b -> Z.land b 0xf0 = 16 * (b / 16).
Proof.
  intros H. apply Z.eqb_eq.
  apply (octet_forall (fun b => Z.land b 0xf0 =? 16 * (b / 16))); [|exact H].
  vm_compute. reflexivity.
Qed.

Lemma land_f8 b : is_octet b -> Z.land b 0xf8 = 8 * (b / 8).
Proof.
  intros H. apply Z.eqb_eq.
  apply (octet_forall (fun b => Z.land b 0xf8 =? 8 * (b / 8))); [|exact H].
  vm_compute. reflexivity.
Qed.

Ltac unwrap := unfold wrap8, wrap16, wrap32 in *;
  change (2 ^ 8) with 256 in *; change (2 ^ 16) with 65536 in *;
  change (2 ^ 32) with 4294967296 in *.

Ltac euclid := Z.to_euclidean_division_equations; lia.

(** ** The surrogate pair arithmetic *)

Lemma surrogate_pair_value_eq (u low : Z) :
  0xD800 <= u <= 0xDBFF -> 0xDC00 <= low <= 0xDFFF ->
  surrogate_pair_value u low = 0x10000 + (u - 0xD800) * 1024 + (low - 0xDC00).
Proof.
  intros Hu Hl. unfold surrogate_pair_value, Unicode.Surrogate_Offset.
  rewrite shiftl_10. unwrap.
  rewrite (Z.mod_small (u * 1024)) by lia.
  rewrite (Z.mod_small (u * 1024 + low)) by lia.
  symmetry. apply (Z.mod_unique _ _ 1); lia.
Qed.

(** C6: for a high surrogate [u] and a low surrogate [low], the value the
    source computes as [(u << 10) + low + 0xFCA02400] in 32-bit modular
    arithmetic is [0x10000 + ((u - 0xD800) << 10) + (low - 0xDC00)], and it
    lies between 0x10000 and 0x10FFFF. *)
Theorem surrogate_offset_arithmetic (u low : Z) :
  Unicode.Surrogate_High_Min <= u <= Unicode.Surrogate_High_Max ->
  Unicode.Surrogate_Low_Min <= low <= Unicode.Surrogate_Low_Max ->
  surrogate_pair_value u low
    = 0x10000 + Z.shiftl (u - 0xD800) 10 + (low - 0xDC00)
  /\ 0x10000 <= surrogate_pair_value u low <= Unicode.Maximum_Character_Value.
Proof.
  unfold Unicode.Surrogate_High_Min, Unicode.Surrogate_High_Max,
    Unicode.Surrogate_Low_Min, Unicode.Surrogate_Low_Max,
    Unicode.Maximum_Character_Value.
  intros Hu Hl. rewrite surrogate_pair_value_eq by assumption.
  rewrite shiftl_10. lia.
Qed.

Lemma surrogate_offset_arithmetic_witness :
  surrogate_pair_value 0xD83D 0xDE00
    = 0x10000 + Z.shiftl (0xD83D - 0xD800) 10 + (0xDE00 - 0xDC00)
  /\ 0x10000 <= surrogate_pair_value 0xD83D 0xDE00
     <= Unicode.Maximum_Character_Value.
Proof.
  apply (surrogate_offset_arithmetic 0xD83D 0xDE00); vm_compute; split; discriminate.
Defined.

(** ** The length ceiling *)

Lemma pow4_mod3 (m : Z) : 0 <= m -> 4 ^ m mod 3 = 1.
Proof.
  revert m. apply natlike_ind; [reflexivity|].
  intros m Hm IH. rewrite Z.pow_succ_r by assumption.
  rewrite Z.mul_mod, IH by lia. reflexivity.
Qed.

(** For a size type of [4 * m] bits the expression of the header is
    exactly two thirds of [SIZE_MAX], rounded down. *)
Lemma Max_UTF16_String_two_thirds (size_bits : Z) :
  0 < size_bits -> size_bits mod 4 = 0 ->
  Max_UTF16_String size_bits = 2 * SIZE_MAX size_bits / 3.
Proof.
  intros Hpos H4.
  unfold Max_UTF16_String, SIZE_MAX, wrap_size.
  rewrite (Z.shiftr_div_pow2 size_bits 1) by lia. change (2 ^ 1) with 2.
  set (k := size_bits / 2).
  assert (Hk : size_bits = k + k) by (subst k; euclid).
  assert (Hm : k = 2 * (size_bits / 4)) by (subst k; euclid).
  assert (Hk0 : 2 <= k) by (subst k; euclid).
  set (P := 2 ^ k).
  assert (HPP : 2 ^ size_bits = P * P)
    by (subst P; rewrite Hk at 1; apply Z.pow_add_r; lia).
  assert (HP3 : P mod 3 = 1).
  { subst P. rewrite Hm, Z.pow_mul_r by lia. apply pow4_mod3. lia. }
  assert (HP4 : 4 <= P).
  { subst P. change 4 with (2 ^ 2). apply Z.pow_le_mono_r; lia. }
  rewrite HPP.
  rewrite (Z.shiftr_div_pow2 _ k), (Z.shiftl_mul_pow2 _ 1) by lia.
  fold P. change (2 ^ 1) with 2.
  assert (Hq : (P * P - 1) / P = P - 1)
    by (symmetry; apply (Z.div_unique _ _ _ (P - 1)); lia).
  rewrite Hq.
  rewrite (Z.mod_small ((P - 1) * 2)) by nia.
  set (A := (P - 1) * 2 / 3).
  assert (HA : 3 * A = 2 * P - 2) by (subst A; euclid).
  rewrite (Z.shiftl_mul_pow2 A k) by lia. fold P.
  rewrite (Z.mod_small (A * P)) by nia.
  assert (Hlor : Z.lor (A * P) A = A * P + A).
  { apply (lor_add k); fold P; [lia | apply Z_mod_mult | lia]. }
  rewrite Hlor.
  apply (Z.div_unique _ _ _ 0); nia.
Qed.

Lemma floor_of_two_thirds (z : Z) :
  Qfloor (inject_Z z / (3 # 2)) = 2 * z / 3.
Proof.
  unfold Qfloor, Qdiv, Qmult, Qinv, inject_Z. cbn [Qnum Qden Pos.mul].
  f_equal. apply Z.mul_comm.
Qed.

(** ** Empty input *)

(** C10: for empty input both converters return success with a byte count
    of 0 for every output span, one of capacity zero included; the output
    span is left as it is. *)
Theorem empty_input_succeeds (size_bits : Z) (output : list Z)
    (little_endian : bool) :
  ConvertUTF8ToUTF16 size_bits [] output little_endian
    = mkConversion true 0 output
  /\ ConvertUTF16ToUTF8 size_bits [] output little_endian
    = mkConversion true 0 output
  /\ ConvertUTF8ToUTF16 size_bits [] [] little_endian
    = mkConversion true 0 []
  /\ ConvertUTF16ToUTF8 size_bits [] [] little_endian
    = mkConversion true 0 [].
Proof. repeat split. Qed.

(** ** Stores and the octets written *)

Lemma store_length (b : list Z) (i : nat) (v : Z) :
  length (store b i v) = length b.
Proof.
  revert i. induction b as [|h t IH]; intros [|j]; simpl; auto.
Qed.

Lemma blit_length (e b : list Z) (i : nat) :
  length (blit b i e) = length b.
Proof.
  revert b i. induction e as [|v e IH]; intros b i; simpl; [reflexivity|].
  rewrite IH. apply store_length.
Qed.

Lemma blit_app (e1 e2 b : list Z) (i : nat) :
  blit b i (e1 ++ e2) = blit (blit b i e1) (i + length e1) e2.
Proof.
  revert b i. induction e1 as [|v e1 IH]; intros b i; simpl.
  - rewrite Nat.add_0_r. reflexivity.
  - rewrite IH. f_equal. lia.
Qed.

Lemma store_frame (b : list Z) (i n : nat) (v : Z) :
  (n <= i)%nat -> firstn n (store b i v) = firstn n b.
Proof.
  revert i n. induction b as [|h t IH]; intros [|j] [|n] Hn; simpl;
    try reflexivity; try lia.
  f_equal. apply IH. lia.
Qed.

Lemma store_firstn (b : list Z) (i : nat) (v : Z) :
  (i < length b)%nat -> firstn (S i) (store b i v) = firstn i b ++ [v].
Proof.
  revert i. induction b as [|h t IH]; intros [|j] Hi; simpl in *;
    try lia; try reflexivity.
  f_equal. apply IH. lia.
Qed.

Lemma blit_frame (e b : list Z) (i n : nat) :
  (n <= i)%nat -> firstn n (blit b i e) = firstn n b.
Proof.
  revert b i. induction e as [|v e IH]; intros b i Hn; simpl; [reflexivity|].
  rewrite IH by lia. apply store_frame. exact Hn.
Qed.

Lemma blit_firstn (e b : list Z) (i : nat) :
  (i + length e <= length b)%nat ->
  firstn (i + length e) (blit b i e) = firstn i b ++ e.
Proof.
  revert b i. induction e as [|v e IH]; intros b i Hle; simpl in *.
  - rewrite Nat.add_0_r, app_nil_r. reflexivity.
  - replace (i + S (length e))%nat with (S i + length e)%nat by lia.
    rewrite IH by (rewrite store_length; lia).
    rewrite store_firstn by lia. rewrite <- app_assoc. reflexivity.
Qed.

(** What is written first stays: later stores lie beyond it. *)
Lemma blit_app_firstn (e1 e2 b : list Z) :
  (length e1 <= length b)%nat ->
  firstn (length e1) (blit b 0 (e1 ++ e2)) = e1.
Proof.
  intros Hle. rewrite blit_app, blit_frame by lia.
  apply (blit_firstn e1 b 0). exact Hle.
Qed.

Lemma blit_all (e b : list Z) :
  (length e <= length b)%nat -> firstn (length e) (blit b 0 e) = e.
Proof.
  intros Hle. apply (blit_firstn e b 0). exact Hle.
Qed.

Lemma advance_nil (cu : Cursor) : advance cu [] = cu.
Proof. destruct cu as [i o]. unfold advance. simpl. f_equal. lia. Qed.

Lemma advance_app (cu : Cursor) (e1 e2 : list Z) :
  advance (advance cu e1) e2 = advance cu (e1 ++ e2).
Proof.
  unfold advance. simpl. rewrite blit_app, length_app. f_equal. lia.
Qed.

Lemma Insert_written (little_endian : bool) (c : Z) (o : list Z) (i : nat) :
  (if little_endian then InsertUTF16LE c o i else InsertUTF16BE c o i)
  = blit o i (code_unit_octets little_endian c).
Proof.
  destruct little_endian; unfold InsertUTF16LE, InsertUTF16BE; simpl;
    rewrite Nat.add_1_r; reflexivity.
Qed.

Lemma Insert_pair_written (little_endian : bool) (c d : Z) (o : list Z)
    (i : nat) :
  (if little_endian
   then InsertUTF16LE d (InsertUTF16LE c o i) (i + 2)
   else InsertUTF16BE d (InsertUTF16BE c o i) (i + 2))
  = blit o i (code_unit_octets little_endian c
              ++ code_unit_octets little_endian d).
Proof.
  destruct little_endian; unfold InsertUTF16LE, InsertUTF16BE; simpl;
    rewrite !Nat.add_1_r; replace (i + 2)%nat with (S (S i)) by lia;
    reflexivity.
Qed.

Lemma ConvertUTF8ToUTF16_body_written (little_endian : bool) (octet : Z)
    (sc : Scan) (cu : Cursor) :
  ConvertUTF8ToUTF16_body little_endian octet (sc, cu)
  = match ConvertUTF8ToUTF16_written little_endian octet sc with
    | (Continue sc', e) => Continue (sc', advance cu e)
    | (ReturnFalse sc', e) => ReturnFalse (sc', advance cu e)
    end.
Proof.
  unfold ConvertUTF8ToUTF16_body, ConvertUTF8ToUTF16_written, utf16_octets.
  repeat match goal with
         | |- context [if ?c then _ else _] =>
             lazymatch c with
             | little_endian => fail
             | _ => destruct c
             end
         end;
    rewrite ?advance_nil; try reflexivity.
  - rewrite Insert_pair_written. unfold advance. rewrite length_app.
    destruct little_endian; reflexivity.
  - rewrite Insert_written. unfold advance.
    destruct little_endian; reflexivity.
  - rewrite Insert_written. unfold advance.
    destruct little_endian; reflexivity.
Qed.

Lemma ConvertUTF8ToUTF16_loop_written (little_endian : bool)
    (input : list Z) :
  forall (sc : Scan) (cu : Cursor),
    ConvertUTF8ToUTF16_loop little_endian input (sc, cu)
    = match ConvertUTF8ToUTF16_stream little_endian input sc with
      | (Continue sc', e) => Continue (sc', advance cu e)
      | (ReturnFalse sc', e) => ReturnFalse (sc', advance cu e)
      end.
Proof.
  induction input as [|octet rest IH]; intros sc cu;
    cbn [ConvertUTF8ToUTF16_loop ConvertUTF8ToUTF16_stream].
  - rewrite advance_nil. reflexivity.
  - rewrite ConvertUTF8ToUTF16_body_written.
    destruct (ConvertUTF8ToUTF16_written little_endian octet sc)
      as [[sc' | sc'] e]; [|reflexivity].
    rewrite IH.
    destruct (ConvertUTF8ToUTF16_stream little_endian rest sc')
      as [[sc'' | sc''] e']; rewrite advance_app; reflexivity.
Qed.

Lemma put_written (v : Z) (cu : Cursor) : put v cu = advance cu [wrap8 v].
Proof. reflexivity. Qed.

Lemma ConvertUTF16ToUTF8_encode_written (character : Z) (cu : Cursor) :
  ConvertUTF16ToUTF8_encode character cu
  = match utf8_octets character with
    | Some e => Continue (advance cu e)
    | None => ReturnFalse cu
    end.
Proof.
  unfold ConvertUTF16ToUTF8_encode, utf8_octets.
  repeat match goal with
         | |- context [if ?c then _ else _] => destruct c
         end;
    rewrite ?put_written, ?advance_app; reflexivity.
Qed.

Lemma ConvertUTF16ToUTF8_loop_written (little_endian : bool) :
  forall (n : nat) (input : list Z) (cu : Cursor),
    (length input <= n)%nat ->
    ConvertUTF16ToUTF8_loop little_endian input cu
    = match ConvertUTF16ToUTF8_stream little_endian input with
      | (None, e) => Finished (advance cu e)
      | (Some why, e) => Failed why (advance cu e)
      end.
Proof.
  induction n as [|n IH]; intros input cu Hlen;
    destruct input as [|p0 [|p1 rest]]; simpl in Hlen; try lia;
    cbn [ConvertUTF16ToUTF8_loop ConvertUTF16ToUTF8_stream];
    rewrite ?advance_nil; try reflexivity.
  destruct (in_surrogate_range (Extract little_endian p0 p1)).
  - destruct (in_low_surrogate_range (Extract little_endian p0 p1));
      [rewrite advance_nil; reflexivity|].
    destruct rest as [|p2 [|p3 rest']];
      rewrite ?advance_nil; try reflexivity.
    destruct ((Extract little_endian p2 p3 <? Unicode.Surrogate_Low_Min)
              || (Unicode.Surrogate_Low_Max <? Extract little_endian p2 p3));
      [rewrite advance_nil; reflexivity|].
    rewrite ConvertUTF16ToUTF8_encode_written.
    destruct (utf8_octets _) as [e|]; [|rewrite advance_nil; reflexivity].
    rewrite IH by (simpl in Hlen; lia).
    destruct (ConvertUTF16ToUTF8_stream little_endian rest') as [[why|] e'];
      rewrite advance_app; reflexivity.
  - rewrite ConvertUTF16ToUTF8_encode_written.
    destruct (utf8_octets _) as [e|]; [|rewrite advance_nil; reflexivity].
    rewrite IH by lia.
    destruct (ConvertUTF16ToUTF8_stream little_endian rest) as [[why|] e'];
      rewrite advance_app; reflexivity.
Qed.

(** ** Ranges *)

Ltac ranges :=
  unfold in_surrogate_range, in_low_surrogate_range, in_high_surrogate_range,
    Unicode.Maximum_Character_Value, Unicode.Maximum_BMP_Value,
    Unicode.Surrogate_High_Min, Unicode.Surrogate_High_Max,
    Unicode.Surrogate_Low_Min, Unicode.Surrogate_Low_Max in *;
  repeat rewrite ?andb_true_iff, ?andb_false_iff, ?orb_true_iff,
    ?orb_false_iff, ?negb_true_iff, ?negb_false_iff,
    ?Z.leb_le, ?Z.leb_gt, ?Z.ltb_lt, ?Z.ltb_ge, ?Z.eqb_eq, ?Z.eqb_neq in *.

Lemma wrap8_range (z : Z) : 0 <= wrap8 z <= 0xff.
Proof. unfold wrap8. pose proof (Z.mod_pos_bound z (2 ^ 8) eq_refl). lia. Qed.

Lemma wrap16_range (z : Z) : 0 <= wrap16 z <= 0xffff.
Proof.
  unfold wrap16. pose proof (Z.mod_pos_bound z (2 ^ 16) eq_refl). lia.
Qed.

Lemma Extract_range (little_endian : bool) (p0 p1 : Z) :
  0 <= Extract little_endian p0 p1 <= 0xffff.
Proof.
  unfold Extract, ExtractUTF16LE, ExtractUTF16BE.
  destruct little_endian; apply wrap16_range.
Qed.

Lemma utf8_octets_defined (c : Z) :
  c <= 0x10ffff -> utf8_octets c <> None.
Proof.
  intros Hc. unfold utf8_octets.
  repeat match goal with
         | |- context [if ?c then _ else _] => destruct c eqn:?
         end; try discriminate.
  ranges. lia.
Qed.

(** ** The defensive branch *)

Lemma ConvertUTF16ToUTF8_stream_within_maximum (little_endian : bool) :
  forall (n : nat) (input : list Z),
    (length input <= n)%nat ->
    fst (ConvertUTF16ToUTF8_stream little_endian input)
    <> Some Beyond_Maximum.
Proof.
  induction n as [|n IH]; intros input Hlen;
    destruct input as [|p0 [|p1 rest]]; simpl in Hlen; try lia;
    cbn [ConvertUTF16ToUTF8_stream]; try discriminate.
  pose proof (Extract_range little_endian p0 p1) as Hc.
  destruct (in_surrogate_range (Extract little_endian p0 p1)) eqn:Hs.
  - destruct (in_low_surrogate_range (Extract little_endian p0 p1)) eqn:Hl;
      [discriminate|].
    destruct rest as [|p2 [|p3 rest']]; try discriminate.
    destruct ((Extract little_endian p2 p3 <? Unicode.Surrogate_Low_Min)
              || (Unicode.Surrogate_Low_Max <? Extract little_endian p2 p3))
      eqn:Hlow; [discriminate|].
    destruct (utf8_octets _) as [e|] eqn:He.
    + specialize (IH rest'). simpl in Hlen.
      destruct (ConvertUTF16ToUTF8_stream little_endian rest') as [r e'].
      apply IH. lia.
    + exfalso. revert He. apply utf8_octets_defined.
      rewrite surrogate_pair_value_eq; ranges; lia.
  - destruct (utf8_octets _) as [e|] eqn:He.
    + specialize (IH rest).
      destruct (ConvertUTF16ToUTF8_stream little_endian rest) as [r e'].
      apply IH. lia.
    + exfalso. revert He. apply utf8_octets_defined. lia.
Qed.

(** C9: the last [return {false, 0}] of [ConvertUTF16ToUTF8], behind the
    four encoding cases, is never taken: whatever the input, the output span
    and the byte order, a code point that reaches the encoding step is at
    most 0x10FFFF. *)
Theorem defensive_branch_unreachable (size_bits : Z) (input output : list Z)
    (little_endian : bool) (cu : Cursor) :
  ConvertUTF16ToUTF8_outcome size_bits input output little_endian
  <> Failed Beyond_Maximum cu.
Proof.
  unfold ConvertUTF16ToUTF8_outcome.
  repeat match goal with
         | |- context [if ?c then _ else _] => destruct c
         end; try discriminate.
  rewrite (ConvertUTF16ToUTF8_loop_written _ (length input)) by lia.
  pose proof (ConvertUTF16ToUTF8_stream_within_maximum
                (detect_byte_order input little_endian)
                (length input) input (le_n _)) as H.
  destruct (ConvertUTF16ToUTF8_stream _ input) as [[why|] e];
    [|discriminate].
  simpl in H. intros Heq. apply H. congruence.
Qed.

(** ** Surrogate pairing *)

Lemma high_not_low (u : Z) :
  in_high_surrogate_range u = true -> in_low_surrogate_range u = false.
Proof. ranges. lia. Qed.

Lemma surrogate_cases (u : Z) :
  in_surrogate_range u
  = in_high_surrogate_range u || in_low_surrogate_range u.
Proof.
  destruct (in_surrogate_range u) eqn:Hs;
    destruct (in_high_surrogate_range u) eqn:Hh;
    destruct (in_low_surrogate_range u) eqn:Hl;
    try reflexivity; exfalso; ranges; lia.
Qed.

Lemma ConvertUTF16ToUTF8_stream_well_paired (little_endian : bool) :
  forall (n : nat) (input : list Z),
    (length input <= n)%nat ->
    fst (ConvertUTF16ToUTF8_stream little_endian input) = None ->
    well_paired (code_units little_endian input) = true.
Proof.
  induction n as [|n IH]; intros input Hlen;
    destruct input as [|p0 [|p1 rest]]; simpl in Hlen; try lia;
    cbn [ConvertUTF16ToUTF8_stream code_units well_paired];
    try discriminate; try reflexivity.
  rewrite surrogate_cases.
  destruct (in_high_surrogate_range (Extract little_endian p0 p1)) eqn:Hh;
    [rewrite (high_not_low _ Hh)|];
    cbn [orb].
  - destruct rest as [|p2 [|p3 rest']]; try discriminate.
    cbn [code_units].
    destruct (Extract little_endian p2 p3 <? Unicode.Surrogate_Low_Min)
      eqn:H1; [discriminate|].
    destruct (Unicode.Surrogate_Low_Max <? Extract little_endian p2 p3)
      eqn:H2; [discriminate|]. cbn [orb].
    destruct (utf8_octets _) as [e|]; [|discriminate].
    specialize (IH rest').
    destruct (ConvertUTF16ToUTF8_stream little_endian rest') as [r e'].
    cbn [fst] in *. intros Hr. rewrite IH by (simpl in Hlen; lia || exact Hr).
    rewrite andb_true_r. ranges. lia.
  - destruct (in_low_surrogate_range (Extract little_endian p0 p1));
      [discriminate|].
    destruct (utf8_octets _) as [e|]; [|discriminate].
    specialize (IH rest).
    destruct (ConvertUTF16ToUTF8_stream little_endian rest) as [r e'].
    cbn [fst negb andb] in *. intros Hr. apply IH; [lia | exact Hr].
Qed.

Lemma well_paired_low_follows_high :
  forall (n : nat) (units : list Z),
    (length units <= n)%nat ->
    well_paired units = true ->
    forall (i : nat) (u : Z),
      nth_error units i = Some u -> in_low_surrogate_range u = true ->
      exists (j : nat) (v : Z),
        i = S j /\ nth_error units j = Some v /\
        in_high_surrogate_range v = true.
Proof.
  induction n as [|n IH]; intros units Hlen Hwp i u Hi Hu;
    destruct units as [|u0 rest]; simpl in Hlen; try lia;
    try (destruct i; discriminate).
  cbn [well_paired] in Hwp.
  destruct (in_high_surrogate_range u0) eqn:Hh.
  - destruct rest as [|l rest']; [discriminate|].
    apply andb_true_iff in Hwp. destruct Hwp as [Hl Hwp].
    destruct i as [|[|i]]; simpl in Hi.
    + injection Hi as <-. rewrite (high_not_low _ Hh) in Hu. discriminate.
    + exists 0%nat, u0. auto.
    + destruct (IH rest' ltac:(simpl in Hlen; lia) Hwp i u Hi Hu)
        as (j & v & -> & Hj & Hv).
      exists (S (S j)), v. auto.
  - apply andb_true_iff in Hwp. destruct Hwp as [Hl Hwp].
    destruct i as [|i]; simpl in Hi.
    + injection Hi as <-. rewrite Hu in Hl. discriminate.
    + destruct (IH rest ltac:(lia) Hwp i u Hi Hu) as (j & v & -> & Hj & Hv).
      exists (S j), v. auto.
Qed.

Lemma well_paired_high_precedes_low :
  forall (n : nat) (units : list Z),
    (length units <= n)%nat ->
    well_paired units = true ->
    forall (i : nat) (u : Z),
      nth_error units i = Some u -> in_high_surrogate_range u = true ->
      exists v : Z,
        nth_error units (S i) = Some v /\ in_low_surrogate_range v = true.
Proof.
  induction n as [|n IH]; intros units Hlen Hwp i u Hi Hu;
    destruct units as [|u0 rest]; simpl in Hlen; try lia;
    try (destruct i; discriminate).
  cbn [well_paired] in Hwp.
  destruct (in_high_surrogate_range u0) eqn:Hh.
  - destruct rest as [|l rest']; [discriminate|].
    apply andb_true_iff in Hwp. destruct Hwp as [Hl Hwp].
    destruct i as [|[|i]]; simpl in Hi.
    + exists l. auto.
    + injection Hi as <-. rewrite (high_not_low _ Hu) in Hl. discriminate.
    + apply (IH rest' ltac:(simpl in Hlen; lia) Hwp i u Hi Hu).
  - apply andb_true_iff in Hwp. destruct Hwp as [Hl Hwp].
    destruct i as [|i]; simpl in Hi.
    + injection Hi as <-. rewrite Hu in Hh. discriminate.
    + apply (IH rest ltac:(lia) Hwp i u Hi Hu).
Qed.

Lemma well_paired_sound (units : list Z) :
  well_paired units = true ->
  ~ lone_low_surrogate units /\ ~ unpaired_high_surrogate units.
Proof.
  intros Hwp. split.
  - intros (i & u & Hi & Hu & Hprev).
    destruct (well_paired_low_follows_high _ units (le_n _) Hwp i u Hi Hu)
      as (j & v & -> & Hj & Hv).
    destruct Hprev as [H0 | (w & Hw & Hwh)]; [discriminate|].
    simpl in Hw. rewrite Nat.sub_0_r in Hw. congruence.
  - intros (i & u & Hi & Hu & Hnext).
    destruct (well_paired_high_precedes_low _ units (le_n _) Hwp i u Hi Hu)
      as (v & Hv & Hvl).
    destruct Hnext as [Hn | (w & Hw & Hwl)]; congruence.
Qed.

(** ** What a successful conversion from UTF-16 has done *)

Lemma length_zero_nil (l : list Z) : Z.of_nat (length l) = 0 -> l = [].
Proof. destruct l; simpl; [reflexivity | lia]. Qed.

Lemma ConvertUTF16ToUTF8_failure_count (size_bits : Z)
    (input output : list Z) (little_endian : bool) :
  success (ConvertUTF16ToUTF8 size_bits input output little_endian) = false ->
  octets (ConvertUTF16ToUTF8 size_bits input output little_endian) = 0.
Proof.
  unfold ConvertUTF16ToUTF8.
  destruct (ConvertUTF16ToUTF8_outcome _ _ _ _); simpl;
    [discriminate | reflexivity].
Qed.

Lemma ConvertUTF16ToUTF8_success_stream (size_bits : Z)
    (input output : list Z) (little_endian : bool) :
  success (ConvertUTF16ToUTF8 size_bits input output little_endian) = true ->
  exists e : list Z,
    ConvertUTF16ToUTF8_stream (detect_byte_order input little_endian) input
    = (None, e)
    /\ ConvertUTF16ToUTF8 size_bits input output little_endian
       = mkConversion true (Z.of_nat (length e)) (blit output 0 e).
Proof.
  unfold ConvertUTF16ToUTF8, ConvertUTF16ToUTF8_outcome.
  destruct (Z.of_nat (length input) =? 0) eqn:H0.
  - apply Z.eqb_eq, length_zero_nil in H0. subst input.
    intros _. exists []. split; reflexivity.
  - repeat match goal with
           | |- context [if ?c then _ else _] => destruct c
           end; try discriminate.
    rewrite (ConvertUTF16ToUTF8_loop_written _ (length input)) by lia.
    destruct (ConvertUTF16ToUTF8_stream _ input) as [[why|] e];
      [discriminate|].
    intros _. exists e. split; reflexivity.
Qed.

(** C5: [ConvertUTF16ToUTF8] fails on malformed surrogates.  For an input of
    even length, decoded in the byte order the conversion uses: if some code
    unit lies in 0xDC00..0xDFFF and is not immediately preceded by a code
    unit in 0xD800..0xDBFF, or some code unit lies in 0xD800..0xDBFF and is
    not immediately followed by one in 0xDC00..0xDFFF (the input ends there,
    or the next unit is out of range), then the conversion returns failure
    (with a byte count of 0). *)
Theorem malformed_surrogates_rejected (size_bits : Z)
    (input output : list Z) (little_endian : bool) :
  Nat.even (length input) = true ->
  lone_low_surrogate
    (code_units (detect_byte_order input little_endian) input)
  \/ unpaired_high_surrogate
    (code_units (detect_byte_order input little_endian) input) ->
  success (ConvertUTF16ToUTF8 size_bits input output little_endian) = false
  /\ octets (ConvertUTF16ToUTF8 size_bits input output little_endian) = 0.
Proof.
  intros _ Hbad.
  assert (Hf : success (ConvertUTF16ToUTF8 size_bits input output
                          little_endian) = false).
  { destruct (success _) eqn:Hs; [exfalso | reflexivity].
    apply ConvertUTF16ToUTF8_success_stream in Hs.
    destruct Hs as (e & He & _).
    pose proof (ConvertUTF16ToUTF8_stream_well_paired
                  (detect_byte_order input little_endian)
                  (length input) input (le_n _)) as Hwp.
    rewrite He in Hwp. specialize (Hwp eq_refl).
    apply well_paired_sound in Hwp. tauto. }
  split; [exact Hf | apply ConvertUTF16ToUTF8_failure_count; exact Hf].
Qed.

Lemma malformed_surrogates_rejected_witness :
  success (ConvertUTF16ToUTF8 64 [0x00; 0xDC] [0; 0; 0] true) = false
  /\ octets (ConvertUTF16ToUTF8 64 [0x00; 0xDC] [0; 0; 0] true) = 0.
Proof.
  apply (malformed_surrogates_rejected 64 [0x00; 0xDC] [0; 0; 0] true).
  - reflexivity.
  - left. exists 0%nat, 0xDC00. repeat split. left. reflexivity.
Defined.

(** ** The length ceiling and the capacity check *)

Lemma SIZE_MAX_nonneg (size_bits : Z) : 0 < size_bits -> 0 < SIZE_MAX size_bits.
Proof.
  intros H. unfold SIZE_MAX.
  assert (2 ^ 1 <= 2 ^ size_bits) by (apply Z.pow_le_mono_r; lia).
  change (2 ^ 1) with 2 in *. lia.
Qed.

Lemma wrap_size_small (size_bits z : Z) :
  0 <= z <= SIZE_MAX size_bits -> wrap_size size_bits z = z.
Proof.
  unfold wrap_size, SIZE_MAX. intros H. apply Z.mod_small. lia.
Qed.

(** Below the ceiling, one and a half times the length fits the size
    type. *)
Lemma below_ceiling_no_overflow (size_bits size : Z) :
  0 < size_bits -> size_bits mod 4 = 0 ->
  0 <= size <= Max_UTF16_String size_bits ->
  wrap_size size_bits (size + Z.shiftr size 1) = size + size / 2.
Proof.
  intros Hpos H4 Hsize.
  rewrite Max_UTF16_String_two_thirds in Hsize by assumption.
  pose proof (SIZE_MAX_nonneg size_bits Hpos).
  rewrite (Z.shiftr_div_pow2 size 1) by lia. change (2 ^ 1) with 2.
  apply wrap_size_small. euclid.
Qed.

(** A span of one and a half times an even length exists only below the
    ceiling. *)
Lemma capacity_implies_below_ceiling (size_bits size : Z) :
  0 < size_bits -> size_bits mod 4 = 0 ->
  0 <= size -> size mod 2 = 0 -> size + size / 2 <= SIZE_MAX size_bits ->
  size <= Max_UTF16_String size_bits.
Proof.
  intros Hpos H4 H0 Heven Hcap.
  rewrite Max_UTF16_String_two_thirds by assumption. euclid.
Qed.

(** C7: for a size type of [size_bits] bits, [size_bits] a positive multiple
    of four (as it is wherever [CHAR_BIT] is 8), the ceiling
    [Max_UTF16_String] that the header computes by shifting and masking is
    [floor(SIZE_MAX / 1.5)]; and [ConvertUTF16ToUTF8] returns failure for
    every input longer than the ceiling. *)
Theorem length_ceiling (size_bits : Z) (input output : list Z)
    (little_endian : bool) :
  0 < size_bits -> size_bits mod 4 = 0 ->
  Max_UTF16_String size_bits
    = Qfloor (inject_Z (SIZE_MAX size_bits) / (3 # 2))
  /\ (Max_UTF16_String size_bits < Z.of_nat (length input) ->
      success (ConvertUTF16ToUTF8 size_bits input output little_endian)
      = false).
Proof.
  intros Hpos H4. split.
  - rewrite floor_of_two_thirds. apply Max_UTF16_String_two_thirds; assumption.
  - intros Hlong.
    pose proof (SIZE_MAX_nonneg size_bits Hpos).
    rewrite Max_UTF16_String_two_thirds in Hlong by assumption.
    unfold ConvertUTF16ToUTF8, ConvertUTF16ToUTF8_outcome.
    destruct (Z.of_nat (length input) =? 0) eqn:H0;
      [apply Z.eqb_eq in H0; exfalso; euclid|].
    destruct (negb (Z.land (Z.of_nat (length input)) 1 =? 0));
      [reflexivity|].
    rewrite Max_UTF16_String_two_thirds by assumption.
    destruct (2 * SIZE_MAX size_bits / 3 <? Z.of_nat (length input)) eqn:Hm;
      [reflexivity|].
    apply Z.ltb_ge in Hm. lia.
Qed.

Lemma length_ceiling_witness :
  Max_UTF16_String 16 = Qfloor (inject_Z (SIZE_MAX 16) / (3 # 2))
  /\ success (ConvertUTF16ToUTF8 16 (repeat 0 (Z.to_nat 43692)) [] true) = false.
Proof.
  destruct (length_ceiling 16 (repeat 0 (Z.to_nat 43692)) [] true) as [Hmax Hfail];
    [reflexivity | reflexivity |].
  split; [exact Hmax | apply Hfail; vm_compute; reflexivity].
Defined.

(** ** Writes stay inside the output span *)

Lemma utf8_octets_length (c : Z) (e : list Z) :
  utf8_octets c = Some e ->
  (length e <= 4)%nat /\ (c <= 0xffff -> (length e <= 3)%nat).
Proof.
  unfold utf8_octets.
  repeat match goal with
         | |- context [if ?c then _ else _] => destruct c eqn:?
         end; intros He; try discriminate; injection He as <-; simpl;
    split; lia.
Qed.

Lemma ConvertUTF16ToUTF8_stream_length (little_endian : bool) :
  forall (n : nat) (input : list Z),
    (length input <= n)%nat ->
    (2 * length (snd (ConvertUTF16ToUTF8_stream little_endian input))
     <= 3 * length input)%nat.
Proof.
  induction n as [|n IH]; intros input Hlen;
    destruct input as [|p0 [|p1 rest]]; simpl in Hlen; try lia;
    cbn [ConvertUTF16ToUTF8_stream]; try (simpl; lia).
  pose proof (Extract_range little_endian p0 p1) as Hc.
  destruct (in_surrogate_range (Extract little_endian p0 p1)).
  - destruct (in_low_surrogate_range (Extract little_endian p0 p1));
      [simpl; lia|].
    destruct rest as [|p2 [|p3 rest']]; try (simpl; lia).
    destruct ((Extract little_endian p2 p3 <? Unicode.Surrogate_Low_Min)
              || (Unicode.Surrogate_Low_Max <? Extract little_endian p2 p3));
      [simpl; lia|].
    destruct (utf8_octets _) as [e|] eqn:He; [|simpl; lia].
    apply utf8_octets_length in He.
    specialize (IH rest' ltac:(simpl in Hlen; lia)).
    destruct (ConvertUTF16ToUTF8_stream little_endian rest') as [r e'].
    simpl in *. rewrite length_app. lia.
  - destruct (utf8_octets _) as [e|] eqn:He; [|simpl; lia].
    apply utf8_octets_length in He.
    specialize (IH rest ltac:(lia)).
    destruct (ConvertUTF16ToUTF8_stream little_endian rest) as [r e'].
    simpl in *. rewrite length_app. lia.
Qed.

Lemma even_land (n : nat) :
  Nat.even n = true <-> Z.land (Z.of_nat n) 1 = 0.
Proof.
  rewrite (land_low 1) by lia. change (2 ^ 1) with 2.
  rewrite Nat.even_spec. split.
  - intros [k ->]. rewrite Nat2Z.inj_mul. rewrite Z.mul_comm.
    apply Z_mod_mult.
  - intros H. exists (Z.to_nat (Z.of_nat n / 2)). euclid.
Qed.

(** On a platform whose size type has [4 * m] bits, a successful
    conversion has passed the four checks, its writes fit the output span,
    and the span begins with the octets written. *)
Lemma ConvertUTF16ToUTF8_success_written (size_bits : Z)
    (input output : list Z) (little_endian : bool) :
  0 < size_bits -> size_bits mod 4 = 0 ->
  success (ConvertUTF16ToUTF8 size_bits input output little_endian) = true ->
  exists e : list Z,
    ConvertUTF16ToUTF8_stream (detect_byte_order input little_endian) input
    = (None, e)
    /\ ConvertUTF16ToUTF8 size_bits input output little_endian
       = mkConversion true (Z.of_nat (length e)) (blit output 0 e)
    /\ (length e <= length output)%nat
    /\ firstn (length e) (blit output 0 e) = e.
Proof.
  intros Hpos H4 Hs.
  destruct (ConvertUTF16ToUTF8_success_stream _ _ _ _ Hs) as (e & He & Hr).
  assert (Hfit : (length e <= length output)%nat).
  { revert Hs. unfold ConvertUTF16ToUTF8, ConvertUTF16ToUTF8_outcome.
    destruct (Z.of_nat (length input) =? 0) eqn:H0.
    - apply Z.eqb_eq, length_zero_nil in H0. subst input.
      simpl in He. injection He as <-. simpl. lia.
    - destruct (negb (Z.land (Z.of_nat (length input)) 1 =? 0)) eqn:Hodd;
        [discriminate|].
      destruct (Max_UTF16_String size_bits <? Z.of_nat (length input))
        eqn:Hmax; [discriminate|].
      destruct (Z.of_nat (length output) <? _) eqn:Hcap; [discriminate|].
      intros _. apply Z.ltb_ge in Hmax, Hcap.
      rewrite below_ceiling_no_overflow in Hcap by (assumption || lia).
      pose proof (ConvertUTF16ToUTF8_stream_length
                    (detect_byte_order input little_endian)
                    (length input) input (le_n _)) as Hlen.
      rewrite He in Hlen. simpl in Hlen.
      apply negb_false_iff, Z.eqb_eq in Hodd.
      rewrite (land_low 1) in Hodd by lia. change (2 ^ 1) with 2 in Hodd.
      euclid. }
  exists e. repeat split; try assumption.
  apply blit_all. exact Hfit.
Qed.

Lemma ConvertUTF16ToUTF8_stream_step (little_endian : bool) (p0 p1 : Z)
    (rest e : list Z) :
  in_surrogate_range (Extract little_endian p0 p1) = false ->
  utf8_octets (Extract little_endian p0 p1) = Some e ->
  ConvertUTF16ToUTF8_stream little_endian (p0 :: p1 :: rest)
  = (fst (ConvertUTF16ToUTF8_stream little_endian rest),
     e ++ snd (ConvertUTF16ToUTF8_stream little_endian rest)).
Proof.
  intros Hs He. cbn [ConvertUTF16ToUTF8_stream]. rewrite Hs, He.
  destruct (ConvertUTF16ToUTF8_stream little_endian rest). reflexivity.
Qed.

Lemma ConvertUTF16ToUTF8_stream_pair (little_endian : bool)
    (p0 p1 p2 p3 : Z) (rest e : list Z) :
  in_high_surrogate_range (Extract little_endian p0 p1) = true ->
  in_low_surrogate_range (Extract little_endian p2 p3) = true ->
  utf8_octets (surrogate_pair_value (Extract little_endian p0 p1)
                                    (Extract little_endian p2 p3)) = Some e ->
  ConvertUTF16ToUTF8_stream little_endian (p0 :: p1 :: p2 :: p3 :: rest)
  = (fst (ConvertUTF16ToUTF8_stream little_endian rest),
     e ++ snd (ConvertUTF16ToUTF8_stream little_endian rest)).
Proof.
  intros Hh Hl He. cbn [ConvertUTF16ToUTF8_stream].
  rewrite surrogate_cases, Hh, (high_not_low _ Hh). cbn [orb].
  assert (Hlow : (Extract little_endian p2 p3 <? Unicode.Surrogate_Low_Min)
                 || (Unicode.Surrogate_Low_Max <? Extract little_endian p2 p3)
                 = false) by (ranges; lia).
  rewrite Hlow, He.
  destruct (ConvertUTF16ToUTF8_stream little_endian rest). reflexivity.
Qed.

(** ** The byte order mark *)

Lemma firstn_2_inv (input : list Z) (a b : Z) :
  firstn 2 input = [a; b] -> exists rest, input = a :: b :: rest.
Proof.
  destruct input as [|x [|y rest]]; simpl; intros H; try discriminate.
  injection H as -> ->. exists rest. reflexivity.
Qed.

Lemma detect_byte_order_big (rest : list Z) (little_endian : bool) :
  4 <= Z.of_nat (length (0xFE :: 0xFF :: rest)) ->
  detect_byte_order (0xFE :: 0xFF :: rest) little_endian = false.
Proof.
  intros H. unfold detect_byte_order.
  apply Z.leb_le in H. rewrite H. reflexivity.
Qed.

Lemma detect_byte_order_little (rest : list Z) (little_endian : bool) :
  4 <= Z.of_nat (length (0xFF :: 0xFE :: rest)) ->
  detect_byte_order (0xFF :: 0xFE :: rest) little_endian = true.
Proof.
  intros H. unfold detect_byte_order.
  apply Z.leb_le in H. rewrite H. reflexivity.
Qed.

Lemma detect_byte_order_none (input : list Z) (little_endian : bool) :
  ~ (4 <= Z.of_nat (length input)
     /\ (firstn 2 input = [0xFE; 0xFF] \/ firstn 2 input = [0xFF; 0xFE])) ->
  detect_byte_order input little_endian = little_endian.
Proof.
  intros Hno. unfold detect_byte_order.
  destruct (4 <=? Z.of_nat (length input)) eqn:H4; [|reflexivity].
  apply Z.leb_le in H4.
  destruct input as [|p0 [|p1 rest]]; try reflexivity.
  destruct ((p0 =? 0xFE) && (p1 =? 0xFF)) eqn:Hbe.
  - exfalso. apply Hno. split; [exact H4|]. left.
    apply andb_true_iff in Hbe. destruct Hbe as [H0 H1].
    apply Z.eqb_eq in H0, H1. subst. reflexivity.
  - destruct ((p0 =? 0xFF) && (p1 =? 0xFE)) eqn:Hle; [|reflexivity].
    exfalso. apply Hno. split; [exact H4|]. right.
    apply andb_true_iff in Hle. destruct Hle as [H0 H1].
    apply Z.eqb_eq in H0, H1. subst. reflexivity.
Qed.

(** A stream that begins with U+FEFF, read in the order its first two
    octets announce, is written out beginning with EF BB BF. *)
Lemma mark_written_first (order : bool) (p0 p1 : Z) (rest e : list Z) :
  Extract order p0 p1 = UTF_BOM ->
  ConvertUTF16ToUTF8_stream order (p0 :: p1 :: rest) = (None, e) ->
  exists e', e = [0xEF; 0xBB; 0xBF] ++ e'.
Proof.
  intros Hu He.
  rewrite (ConvertUTF16ToUTF8_stream_step order p0 p1 rest
             [0xEF; 0xBB; 0xBF]) in He by (rewrite Hu; reflexivity).
  injection He as _ <-. eexists. reflexivity.
Qed.

(** C4: [ConvertUTF16ToUTF8] decodes the whole input in one byte order,
    [detect_byte_order input little_endian].  For an input of at least four
    octets that begins with FE FF this order is big-endian whatever
    [little_endian] is; for one that begins with FF FE it is little-endian;
    in every other case it is [little_endian].  The mark is not removed: a
    successful conversion of an input with a mark leaves EF BB BF as the
    first three octets of the output. *)
Theorem byte_order_mark_decides (size_bits : Z) (input output : list Z)
    (little_endian : bool) :
  0 < size_bits -> size_bits mod 4 = 0 ->
  let r := ConvertUTF16ToUTF8 size_bits input output little_endian in
  let order := detect_byte_order input little_endian in
  (success r = true ->
   exists e : list Z,
     ConvertUTF16ToUTF8_stream order input = (None, e)
     /\ octets r = Z.of_nat (length e)
     /\ firstn (length e) (buffer r) = e)
  /\ (4 <= Z.of_nat (length input) -> firstn 2 input = [0xFE; 0xFF] ->
      order = false
      /\ (success r = true -> firstn 3 (buffer r) = [0xEF; 0xBB; 0xBF]))
  /\ (4 <= Z.of_nat (length input) -> firstn 2 input = [0xFF; 0xFE] ->
      order = true
      /\ (success r = true -> firstn 3 (buffer r) = [0xEF; 0xBB; 0xBF]))
  /\ (~ (4 <= Z.of_nat (length input)
         /\ (firstn 2 input = [0xFE; 0xFF] \/ firstn 2 input = [0xFF; 0xFE]))
      -> order = little_endian).
Proof.
  intros Hpos H4 r order.
  assert (Hgen : success r = true ->
                 exists e : list Z,
                   ConvertUTF16ToUTF8_stream order input = (None, e)
                   /\ octets r = Z.of_nat (length e)
                   /\ firstn (length e) (buffer r) = e
                   /\ (length e <= length output)%nat
                   /\ buffer r = blit output 0 e).
  { intros Hs.
    destruct (ConvertUTF16ToUTF8_success_written _ _ _ _ Hpos H4 Hs)
      as (e & He & Hr & Hfit & Hfirst).
    exists e. subst r. rewrite Hr. simpl. auto. }
  assert (Hmark : forall p0 p1 rest,
             input = p0 :: p1 :: rest -> Extract order p0 p1 = UTF_BOM ->
             success r = true -> firstn 3 (buffer r) = [0xEF; 0xBB; 0xBF]).
  { intros p0 p1 rest Hin Hu Hs.
    destruct (Hgen Hs) as (e & He & _ & _ & Hfit & Hbuf).
    rewrite Hin in He.
    destruct (mark_written_first _ _ _ _ _ Hu He) as (e' & ->).
    rewrite Hbuf. rewrite length_app in Hfit. simpl in Hfit.
    apply (blit_app_firstn [0xEF; 0xBB; 0xBF] e' output). simpl. lia. }
  split; [|split; [|split]].
  - intros Hs. destruct (Hgen Hs) as (e & He & Ho & Hf & _).
    exists e. auto.
  - intros Hlen Hfirst. destruct (firstn_2_inv _ _ _ Hfirst) as (rest & Hin).
    assert (Ho : order = false)
      by (subst order; rewrite Hin in *; apply detect_byte_order_big; exact Hlen).
    split; [exact Ho|].
    apply (Hmark _ _ _ Hin). rewrite Ho. reflexivity.
  - intros Hlen Hfirst. destruct (firstn_2_inv _ _ _ Hfirst) as (rest & Hin).
    assert (Ho : order = true)
      by (subst order; rewrite Hin in *; apply detect_byte_order_little;
          exact Hlen).
    split; [exact Ho|].
    apply (Hmark _ _ _ Hin). rewrite Ho. reflexivity.
  - apply detect_byte_order_none.
Qed.

Lemma byte_order_mark_decides_witness :
  (detect_byte_order [0xFE; 0xFF; 0x00; 0x41] true = false
   /\ firstn 3 (buffer (ConvertUTF16ToUTF8 64 [0xFE; 0xFF; 0x00; 0x41]
                          [0; 0; 0; 0; 0; 0] true))
      = [0xEF; 0xBB; 0xBF])
  /\ (detect_byte_order [0xFF; 0xFE; 0x41; 0x00] false = true
      /\ firstn 3 (buffer (ConvertUTF16ToUTF8 64 [0xFF; 0xFE; 0x41; 0x00]
                             [0; 0; 0; 0; 0; 0] false))
         = [0xEF; 0xBB; 0xBF])
  /\ detect_byte_order [0xFE; 0xFF] true = true.
Proof.
  split; [|split].
  - destruct (byte_order_mark_decides 64 [0xFE; 0xFF; 0x00; 0x41]
                [0; 0; 0; 0; 0; 0] true eq_refl eq_refl)
      as (_ & Hbig & _ & _).
    destruct Hbig as [Ho Hb]; [vm_compute; discriminate | reflexivity |].
    split; [exact Ho | apply Hb; reflexivity].
  - destruct (byte_order_mark_decides 64 [0xFF; 0xFE; 0x41; 0x00]
                [0; 0; 0; 0; 0; 0] false eq_refl eq_refl)
      as (_ & _ & Hlittle & _).
    destruct Hlittle as [Ho Hb]; [vm_compute; discriminate | reflexivity |].
    split; [exact Ho | apply Hb; reflexivity].
  - destruct (byte_order_mark_decides 64 [0xFE; 0xFF] [0; 0; 0] true
                eq_refl eq_refl) as (_ & _ & _ & Hnone).
    apply Hnone. intros [Hlen _]. vm_compute in Hlen. apply Hlen. reflexivity.
Defined.

(** ** The validator and the scan of the converter *)

(** Whatever the validator lets through, the converter lets through, and
    both go on with the same locals. *)
Lemma IsUTF8Valid_body_accepts (little_endian : bool) (octet : Z)
    (sc sc' : Scan) :
  IsUTF8Valid_body octet sc = Continue sc' ->
  fst (ConvertUTF8ToUTF16_written little_endian octet sc) = Continue sc'.
Proof.
  unfold IsUTF8Valid_body, ConvertUTF8ToUTF16_written.
  repeat match goal with
         | |- context [if ?c then _ else _] => destruct c
         end; simpl; intros H; try discriminate; exact H.
Qed.

Lemma IsUTF8Valid_loop_accepts (little_endian : bool) (input : list Z) :
  forall sc sc' : Scan,
    IsUTF8Valid_loop input sc = Continue sc' ->
    fst (ConvertUTF8ToUTF16_stream little_endian input sc) = Continue sc'.
Proof.
  induction input as [|octet rest IH]; intros sc sc';
    cbn [IsUTF8Valid_loop ConvertUTF8ToUTF16_stream].
  - intros H. exact H.
  - destruct (IsUTF8Valid_body octet sc) as [sc1|sc1] eqn:Hb;
      [|discriminate].
    apply (IsUTF8Valid_body_accepts little_endian) in Hb.
    destruct (ConvertUTF8ToUTF16_written little_endian octet sc)
      as [[sc2|sc2] e]; simpl in Hb; [|discriminate].
    injection Hb as ->. intros H. apply IH in H.
    destruct (ConvertUTF8ToUTF16_stream little_endian rest sc1) as [r e'].
    exact H.
Qed.

Lemma ConvertUTF8ToUTF16_written_length (little_endian : bool) (octet : Z)
    (sc : Scan) :
  (length (snd (ConvertUTF8ToUTF16_written little_endian octet sc)) <= 4)%nat
  /\ (expected_utf8_remaining sc <= 0 ->
      (length (snd (ConvertUTF8ToUTF16_written little_endian octet sc))
       <= 2)%nat).
Proof.
  unfold ConvertUTF8ToUTF16_written, utf16_octets, code_unit_octets.
  repeat match goal with
         | |- context [if ?c then _ else _] => destruct c eqn:?
         end; simpl; split; lia.
Qed.

Lemma ConvertUTF8ToUTF16_written_remaining (little_endian : bool) (octet : Z)
    (sc sc' : Scan) (e : list Z) :
  ConvertUTF8ToUTF16_written little_endian octet sc = (Continue sc', e) ->
  0 <= expected_utf8_remaining sc ->
  0 <= expected_utf8_remaining sc'
  /\ (0 < expected_utf8_remaining sc' -> e = []).
Proof.
  unfold ConvertUTF8ToUTF16_written.
  repeat match goal with
         | |- context [if ?c then _ else _] => destruct c eqn:?
         end; intros H; try discriminate; injection H as <- <-; simpl;
    intros; split; (lia || reflexivity || intros; lia).
Qed.

(** The octets written never exceed twice the octets read (two more while a
    sequence is open, which the octets still to come pay for). *)
Lemma ConvertUTF8ToUTF16_stream_length (little_endian : bool)
    (input : list Z) :
  forall sc : Scan,
    0 <= expected_utf8_remaining sc ->
    (length (snd (ConvertUTF8ToUTF16_stream little_endian input sc))
     <= 2 * length input
        + (if (0 <? expected_utf8_remaining sc)%Z then 2 else 0))%nat.
Proof.
  induction input as [|octet rest IH]; intros sc Hsc;
    cbn [ConvertUTF8ToUTF16_stream]; [simpl; lia|].
  pose proof (ConvertUTF8ToUTF16_written_length little_endian octet sc)
    as [H4 H2].
  pose proof (ConvertUTF8ToUTF16_written_remaining little_endian octet sc)
    as Hrem.
  destruct (ConvertUTF8ToUTF16_written little_endian octet sc)
    as [[sc'|sc'] e]; simpl in H4, H2.
  - destruct (Hrem sc' e eq_refl Hsc) as [Hsc' Hopen].
    specialize (IH sc' Hsc').
    destruct (ConvertUTF8ToUTF16_stream little_endian rest sc') as [r e'].
    simpl in *. rewrite length_app.
    destruct (0 <? expected_utf8_remaining sc') eqn:Hn.
    + rewrite Hopen by lia. simpl.
      destruct (0 <? expected_utf8_remaining sc); lia.
    + destruct (0 <? expected_utf8_remaining sc) eqn:Hp; [lia|].
      specialize (H2 ltac:(lia)). lia.
  - simpl. destruct (0 <? expected_utf8_remaining sc) eqn:Hp; [lia|].
    specialize (H2 ltac:(lia)). lia.
Qed.

(** [ConvertUTF8ToUTF16] in terms of the octets written, for an output span
    of sufficient capacity. *)
Lemma ConvertUTF8ToUTF16_written_spec (size_bits : Z)
    (input output : list Z) (little_endian : bool) :
  2 * Z.of_nat (length input) <= Z.of_nat (length output)
    <= SIZE_MAX size_bits ->
  let '(r, e) :=
    ConvertUTF8ToUTF16_stream little_endian input (mkScan 0 0) in
  (length e <= length output)%nat
  /\ firstn (length e) (blit output 0 e) = e
  /\ ConvertUTF8ToUTF16 size_bits input output little_endian
     = match r with
       | Continue sc =>
           if 0 <? expected_utf8_remaining sc
           then mkConversion false 0 (blit output 0 e)
           else mkConversion true (Z.of_nat (length e)) (blit output 0 e)
       | ReturnFalse _ => mkConversion false 0 (blit output 0 e)
       end.
Proof.
  intros Hcap.
  pose proof (ConvertUTF8ToUTF16_stream_length little_endian input
                (mkScan 0 0) ltac:(simpl; lia)) as Hlen.
  unfold ConvertUTF8ToUTF16.
  rewrite ConvertUTF8ToUTF16_loop_written.
  destruct (ConvertUTF8ToUTF16_stream little_endian input (mkScan 0 0))
    as [r e] eqn:Hst.
  simpl in Hlen.
  assert (Hfit : (length e <= length output)%nat) by lia.
  split; [exact Hfit|]. split; [apply blit_all; exact Hfit|].
  destruct (length input =? 0)%nat eqn:H0.
  - apply Nat.eqb_eq in H0. destruct input; [|discriminate].
    simpl in Hst. injection Hst as <- <-. reflexivity.
  - rewrite wrap_size_small by lia.
    destruct (Z.of_nat (length output) <? Z.of_nat (length input) * 2) eqn:Hc;
      [apply Z.ltb_lt in Hc; lia|].
    destruct r as [sc|sc]; reflexivity.
Qed.

Lemma IsUTF8Valid_converts (size_bits : Z) (input output : list Z)
    (little_endian : bool) :
  IsUTF8Valid input = true ->
  2 * Z.of_nat (length input) <= Z.of_nat (length output)
    <= SIZE_MAX size_bits ->
  success (ConvertUTF8ToUTF16 size_bits input output little_endian) = true.
Proof.
  intros Hv Hcap.
  pose proof (ConvertUTF8ToUTF16_written_spec size_bits input output
                little_endian Hcap) as Hspec.
  unfold IsUTF8Valid in Hv.
  destruct (length input =? 0)%nat eqn:H0.
  - apply Nat.eqb_eq in H0. destruct input; [reflexivity | discriminate].
  - destruct (IsUTF8Valid_loop input (mkScan 0 0)) as [sc|sc] eqn:Hl;
      [|discriminate].
    apply (IsUTF8Valid_loop_accepts little_endian) in Hl.
    destruct (ConvertUTF8ToUTF16_stream little_endian input (mkScan 0 0))
      as [r e].
    simpl in Hl. subst r. destruct Hspec as (_ & _ & ->).
    apply Z.eqb_eq in Hv. rewrite Hv. reflexivity.
Qed.

(** ** Well-formed UTF-16 converts *)

Lemma ConvertUTF16ToUTF8_stream_complete (little_endian : bool) :
  forall (n : nat) (input : list Z),
    (length input <= n)%nat ->
    Nat.even (length input) = true ->
    well_paired (code_units little_endian input) = true ->
    fst (ConvertUTF16ToUTF8_stream little_endian input) = None.
Proof.
  induction n as [|n IH]; intros input Hlen Heven;
    destruct input as [|p0 [|p1 rest]]; simpl in Hlen; try lia;
    try discriminate; try reflexivity.
  cbn [code_units well_paired]. cbn [length Nat.even] in Heven.
  pose proof (Extract_range little_endian p0 p1) as Hc.
  destruct (in_high_surrogate_range (Extract little_endian p0 p1)) eqn:Hh.
  - destruct rest as [|p2 [|p3 rest']]; try discriminate.
    cbn [code_units]. intros Hwp.
    apply andb_true_iff in Hwp. destruct Hwp as [Hl Hwp].
    destruct (utf8_octets (surrogate_pair_value
                             (Extract little_endian p0 p1)
                             (Extract little_endian p2 p3)))
      as [e|] eqn:He.
    + rewrite (ConvertUTF16ToUTF8_stream_pair _ _ _ _ _ _ e Hh Hl He).
      cbn [fst]. apply IH; [simpl in Hlen; lia | exact Heven | exact Hwp].
    + exfalso. revert He. apply utf8_octets_defined.
      rewrite surrogate_pair_value_eq; ranges; lia.
  - intros Hwp. apply andb_true_iff in Hwp. destruct Hwp as [Hl Hwp].
    apply negb_true_iff in Hl.
    assert (Hs : in_surrogate_range (Extract little_endian p0 p1) = false)
      by (rewrite surrogate_cases, Hh, Hl; reflexivity).
    destruct (utf8_octets (Extract little_endian p0 p1)) as [e|] eqn:He.
    + rewrite (ConvertUTF16ToUTF8_stream_step _ _ _ _ e Hs He).
      cbn [fst]. apply IH; [lia | exact Heven | exact Hwp].
    + exfalso. revert He. apply utf8_octets_defined. lia.
Qed.

(** ** The capacity checks *)

(** C8: for a non-empty well-formed input, an output span of exactly the
    minimum capacity makes the conversion succeed, and a span one octet
    shorter makes it fail with a byte count of 0.  The minimum is twice the
    input length for [ConvertUTF8ToUTF16], where well-formed means accepted
    by [IsUTF8Valid]; it is the input length plus half the input length for
    [ConvertUTF16ToUTF8], where well-formed means of even length with every
    surrogate paired.  (The spans are spans of the platform: their lengths
    fit its size type.) *)
Theorem minimum_capacity_boundary (size_bits : Z)
    (utf8 out8 short8 utf16 out16 short16 : list Z) (little_endian : bool) :
  0 < size_bits -> size_bits mod 4 = 0 ->
  (utf8 <> [] -> IsUTF8Valid utf8 = true ->
   Z.of_nat (length out8) = 2 * Z.of_nat (length utf8) ->
   Z.of_nat (length out8) <= SIZE_MAX size_bits ->
   Z.of_nat (length short8) = Z.of_nat (length out8) - 1 ->
   success (ConvertUTF8ToUTF16 size_bits utf8 out8 little_endian) = true
   /\ success (ConvertUTF8ToUTF16 size_bits utf8 short8 little_endian) = false
   /\ octets (ConvertUTF8ToUTF16 size_bits utf8 short8 little_endian) = 0)
  /\ (utf16 <> [] -> Nat.even (length utf16) = true ->
      well_paired
        (code_units (detect_byte_order utf16 little_endian) utf16) = true ->
      Z.of_nat (length out16)
        = Z.of_nat (length utf16) + Z.of_nat (length utf16) / 2 ->
      Z.of_nat (length out16) <= SIZE_MAX size_bits ->
      Z.of_nat (length short16) = Z.of_nat (length out16) - 1 ->
      success (ConvertUTF16ToUTF8 size_bits utf16 out16 little_endian) = true
      /\ success (ConvertUTF16ToUTF8 size_bits utf16 short16 little_endian)
         = false
      /\ octets (ConvertUTF16ToUTF8 size_bits utf16 short16 little_endian)
         = 0).
Proof.
  intros Hpos H4. split.
  - intros Hne Hvalid Hcap Hmax Hshort. split.
    + apply IsUTF8Valid_converts; [exact Hvalid | lia].
    + unfold ConvertUTF8ToUTF16.
      destruct utf8 as [|b utf8]; [contradiction|].
      cbn [length Nat.eqb] in *.
      rewrite wrap_size_small by lia.
      assert (Hlt : (Z.of_nat (length short8)
                     <? Z.of_nat (S (length utf8)) * 2) = true)
        by (apply Z.ltb_lt; lia).
      rewrite Hlt. split; reflexivity.
  - intros Hne Heven Hwp Hcap Hmax Hshort.
    assert (Hsize : 0 < Z.of_nat (length utf16))
      by (destruct utf16; [contradiction | simpl; lia]).
    assert (Hmod : Z.of_nat (length utf16) mod 2 = 0).
    { apply even_land in Heven. rewrite (land_low 1) in Heven by lia.
      exact Heven. }
    assert (Hbelow : Z.of_nat (length utf16) <= Max_UTF16_String size_bits)
      by (apply capacity_implies_below_ceiling; (assumption || lia)).
    unfold ConvertUTF16ToUTF8, ConvertUTF16ToUTF8_outcome.
    assert (H0 : (Z.of_nat (length utf16) =? 0) = false)
      by (apply Z.eqb_neq; lia).
    assert (H1 : negb (Z.land (Z.of_nat (length utf16)) 1 =? 0) = false)
      by (apply negb_false_iff, Z.eqb_eq, even_land; exact Heven).
    assert (H2 : (Max_UTF16_String size_bits <? Z.of_nat (length utf16))
                 = false) by (apply Z.ltb_ge; exact Hbelow).
    rewrite H0, H1, H2.
    rewrite below_ceiling_no_overflow by (assumption || lia).
    assert (H3 : (Z.of_nat (length out16)
                  <? Z.of_nat (length utf16) + Z.of_nat (length utf16) / 2)
                 = false) by (apply Z.ltb_ge; lia).
    assert (H3' : (Z.of_nat (length short16)
                   <? Z.of_nat (length utf16) + Z.of_nat (length utf16) / 2)
                  = true) by (apply Z.ltb_lt; lia).
    rewrite H3, H3'. split; [|split; reflexivity].
    rewrite (ConvertUTF16ToUTF8_loop_written _ (length utf16)) by lia.
    pose proof (ConvertUTF16ToUTF8_stream_complete
                  (detect_byte_order utf16 little_endian)
                  (length utf16) utf16 (le_n _) Heven Hwp) as Hdone.
    destruct (ConvertUTF16ToUTF8_stream _ utf16) as [[why|] e];
      [discriminate | reflexivity].
Qed.

Lemma minimum_capacity_boundary_witness :
  (success (ConvertUTF8ToUTF16 64 [0x48; 0xC3; 0xA9] [0; 0; 0; 0; 0; 0] true)
   = true
   /\ success (ConvertUTF8ToUTF16 64 [0x48; 0xC3; 0xA9] [0; 0; 0; 0; 0] true)
      = false
   /\ octets (ConvertUTF8ToUTF16 64 [0x48; 0xC3; 0xA9] [0; 0; 0; 0; 0] true)
      = 0)
  /\ (success (ConvertUTF16ToUTF8 64 [0x3d; 0xd8; 0x00; 0xde]
                 [0; 0; 0; 0; 0; 0] true) = true
      /\ success (ConvertUTF16ToUTF8 64 [0x3d; 0xd8; 0x00; 0xde]
                    [0; 0; 0; 0; 0] true) = false
      /\ octets (ConvertUTF16ToUTF8 64 [0x3d; 0xd8; 0x00; 0xde]
                   [0; 0; 0; 0; 0] true) = 0).
Proof.
  destruct (minimum_capacity_boundary 64
              [0x48; 0xC3; 0xA9] [0; 0; 0; 0; 0; 0] [0; 0; 0; 0; 0]
              [0x3d; 0xd8; 0x00; 0xde] [0; 0; 0; 0; 0; 0] [0; 0; 0; 0; 0]
              true eq_refl eq_refl) as [H8 H16].
  split.
  - apply H8; try reflexivity; [discriminate | vm_compute; discriminate].
  - apply H16; try reflexivity; [discriminate | vm_compute; discriminate].
Defined.

(** ** Octets that no UTF-8 sequence contains *)

Lemma IsUTF8Valid_body_rejects (octet : Z) (sc : Scan) :
  octet = 0xC0 \/ octet = 0xC1 \/ 0xF5 <= octet ->
  IsUTF8Valid_body octet sc = ReturnFalse sc.
Proof.
  intros H. unfold IsUTF8Valid_body.
  destruct ((octet =? 0xc0) || (octet =? 0xc1)) eqn:H1; [reflexivity|].
  destruct (0xF5 <=? octet) eqn:H2; [reflexivity|].
  exfalso. ranges. lia.
Qed.

Lemma IsUTF8Valid_loop_rejects (b : Z) (input : list Z) :
  In b input -> b = 0xC0 \/ b = 0xC1 \/ 0xF5 <= b ->
  forall sc : Scan, exists sc', IsUTF8Valid_loop input sc = ReturnFalse sc'.
Proof.
  intros Hin Hb.
  induction input as [|octet rest IH]; intros sc; [contradiction|].
  cbn [IsUTF8Valid_loop].
  destruct Hin as [-> | Hin].
  - rewrite IsUTF8Valid_body_rejects by exact Hb. eauto.
  - destruct (IsUTF8Valid_body octet sc) as [sc1|sc1]; [|eauto].
    apply IH. exact Hin.
Qed.

Lemma IsUTF8Valid_rejects (b : Z) (input : list Z) :
  In b input -> b = 0xC0 \/ b = 0xC1 \/ 0xF5 <= b ->
  IsUTF8Valid input = false.
Proof.
  intros Hin Hb. unfold IsUTF8Valid.
  destruct input as [|octet rest]; [contradiction|].
  cbn [length Nat.eqb].
  destruct (IsUTF8Valid_loop_rejects b _ Hin Hb (mkScan 0 0)) as [sc' ->].
  reflexivity.
Qed.

Lemma ConvertUTF8ToUTF16_stream_fst (little_endian : bool) (octet : Z)
    (rest : list Z) (sc : Scan) :
  fst (ConvertUTF8ToUTF16_stream little_endian (octet :: rest) sc)
  = match fst (ConvertUTF8ToUTF16_written little_endian octet sc) with
    | Continue sc' => fst (ConvertUTF8ToUTF16_stream little_endian rest sc')
    | ReturnFalse sc' => ReturnFalse sc'
    end.
Proof.
  cbn [ConvertUTF8ToUTF16_stream].
  destruct (ConvertUTF8ToUTF16_written little_endian octet sc)
    as [[sc'|sc'] e]; [|reflexivity].
  cbn [fst].
  destruct (ConvertUTF8ToUTF16_stream little_endian rest sc'). reflexivity.
Qed.

Lemma assemble (wide octet : Z) :
  0 <= wide < 2 ^ 21 ->
  Z.lor (wrap32 (Z.shiftl wide 6)) (Z.land octet 0x3f)
  = wide * 64 + octet mod 64.
Proof.
  intros Hw. rewrite shiftl_6, land_3f. unfold wrap32.
  rewrite Z.mod_small by lia.
  apply lor_mul64. apply Z.mod_pos_bound. lia.
Qed.

Lemma doomed_step (little_endian : bool) (octet : Z) (sc : Scan) :
  doomed sc ->
  match fst (ConvertUTF8ToUTF16_written little_endian octet sc) with
  | Continue sc' => doomed sc'
  | ReturnFalse _ => True
  end.
Proof.
  intros Hd. unfold ConvertUTF8ToUTF16_written.
  assert (Hopen : (0 <? expected_utf8_remaining sc) = true)
    by (apply Z.ltb_lt; unfold doomed in Hd; lia).
  rewrite Hopen.
  destruct (negb (Z.land octet 0xc0 =? 0x80)); [exact I|].
  rewrite assemble by (unfold doomed in Hd; lia).
  pose proof (Z.mod_pos_bound octet 64 eq_refl) as Hm.
  destruct (expected_utf8_remaining sc - 1 =? 0) eqn:Hlast.
  - destruct (Unicode.Maximum_Character_Value <? _) eqn:Hmax; [exact I|].
    exfalso. unfold doomed in Hd. ranges. lia.
  - cbn [fst]. unfold doomed in *. cbn [expected_utf8_remaining wide_character].
    apply Z.eqb_neq in Hlast. lia.
Qed.

Lemma doomed_rejected (little_endian : bool) (input : list Z) :
  forall sc : Scan,
    doomed sc ->
    rejected (fst (ConvertUTF8ToUTF16_stream little_endian input sc)).
Proof.
  induction input as [|octet rest IH]; intros sc Hd.
  - simpl. unfold doomed in Hd. lia.
  - rewrite ConvertUTF8ToUTF16_stream_fst.
    pose proof (doomed_step little_endian octet sc Hd) as Hstep.
    destruct (fst (ConvertUTF8ToUTF16_written little_endian octet sc))
      as [sc'|sc']; [apply IH; exact Hstep | exact I].
Qed.

Lemma beyond_F4_step (little_endian : bool) (octet : Z) (sc : Scan) :
  0xF5 <= octet <= 0xFF ->
  match fst (ConvertUTF8ToUTF16_written little_endian octet sc) with
  | Continue sc' => doomed sc'
  | ReturnFalse _ => True
  end.
Proof.
  intros Hb. assert (Ho : is_octet octet) by (unfold is_octet; lia).
  unfold ConvertUTF8ToUTF16_written.
  rewrite (land_c0 _ Ho), (land_e0 _ Ho), (land_f0 _ Ho), (land_f8 _ Ho).
  rewrite land_07.
  destruct (0 <? expected_utf8_remaining sc).
  - destruct (negb (64 * (octet / 64) =? 0x80)) eqn:Hc; [exact I|].
    exfalso. apply negb_false_iff, Z.eqb_eq in Hc. euclid.
  - destruct (octet <=? 0x7f) eqn:H1; [exfalso; lia|].
    destruct (32 * (octet / 32) =? 0xc0) eqn:H2;
      [exfalso; apply Z.eqb_eq in H2; euclid|].
    destruct (16 * (octet / 16) =? 0xe0) eqn:H3;
      [exfalso; apply Z.eqb_eq in H3; euclid|].
    destruct (8 * (octet / 8) =? 0xf0) eqn:H4; [|exact I].
    apply Z.eqb_eq in H4. cbn [fst]. left.
    cbn [expected_utf8_remaining wide_character]. split; [reflexivity|euclid].
Qed.

Lemma beyond_F4_rejected (little_endian : bool) (b : Z) (input : list Z) :
  In b input -> 0xF5 <= b <= 0xFF ->
  forall sc : Scan,
    rejected (fst (ConvertUTF8ToUTF16_stream little_endian input sc)).
Proof.
  intros Hin Hb.
  induction input as [|octet rest IH]; intros sc; [contradiction|].
  rewrite ConvertUTF8ToUTF16_stream_fst.
  destruct Hin as [-> | Hin].
  - pose proof (beyond_F4_step little_endian b sc Hb) as Hstep.
    destruct (fst (ConvertUTF8ToUTF16_written little_endian b sc))
      as [sc'|sc']; [apply doomed_rejected; exact Hstep | exact I].
  - destruct (fst (ConvertUTF8ToUTF16_written little_endian octet sc))
      as [sc'|sc']; [apply IH; exact Hin | exact I].
Qed.

Lemma ConvertUTF8ToUTF16_failure_count (size_bits : Z)
    (input output : list Z) (little_endian : bool) :
  success (ConvertUTF8ToUTF16 size_bits input output little_endian) = false ->
  octets (ConvertUTF8ToUTF16 size_bits input output little_endian) = 0.
Proof.
  unfold ConvertUTF8ToUTF16.
  repeat match goal with
         | |- context [if ?c then _ else _] => destruct c
         | |- context [match ?c with Continue _ => _ | ReturnFalse _ => _ end]
           => destruct c as [[? ?]|[? ?]]
         end; simpl; intros H; (discriminate || reflexivity).
Qed.

Lemma ConvertUTF8ToUTF16_rejected (size_bits : Z) (input output : list Z)
    (little_endian : bool) :
  input <> [] ->
  rejected (fst (ConvertUTF8ToUTF16_stream little_endian input (mkScan 0 0))) ->
  success (ConvertUTF8ToUTF16 size_bits input output little_endian) = false.
Proof.
  intros Hne Hrej. unfold ConvertUTF8ToUTF16.
  destruct input as [|b input]; [contradiction|]. cbn [length Nat.eqb].
  destruct (Z.of_nat (length output) <? _); [reflexivity|].
  rewrite ConvertUTF8ToUTF16_loop_written.
  destruct (ConvertUTF8ToUTF16_stream little_endian (b :: input) (mkScan 0 0))
    as [[sc|sc] e]; [|reflexivity].
  simpl in Hrej. apply Z.ltb_lt in Hrej. cbn [advance]. rewrite Hrej.
  reflexivity.
Qed.

(** C3, amended: every input that contains the octet 0xC0 or 0xC1 is
    rejected by [IsUTF8Valid]; and every input that contains an octet from
    0xF5 up is rejected by [IsUTF8Valid] and by [ConvertUTF8ToUTF16] (with a
    byte count of 0), whatever the other octets are. *)
Theorem invalid_octets_rejected (size_bits : Z) (b : Z)
    (input output : list Z) (little_endian : bool) :
  In b input ->
  (b = 0xC0 \/ b = 0xC1 -> IsUTF8Valid input = false)
  /\ (0xF5 <= b -> IsUTF8Valid input = false)
  /\ (0xF5 <= b <= 0xFF ->
      success (ConvertUTF8ToUTF16 size_bits input output little_endian)
      = false
      /\ octets (ConvertUTF8ToUTF16 size_bits input output little_endian)
         = 0).
Proof.
  intros Hin. split; [|split].
  - intros Hb. apply (IsUTF8Valid_rejects b); [exact Hin | tauto].
  - intros Hb. apply (IsUTF8Valid_rejects b); [exact Hin | tauto].
  - intros Hb.
    assert (Hf : success (ConvertUTF8ToUTF16 size_bits input output
                            little_endian) = false).
    { apply ConvertUTF8ToUTF16_rejected.
      - intros ->. contradiction.
      - apply (beyond_F4_rejected little_endian b); assumption. }
    split; [exact Hf | apply ConvertUTF8ToUTF16_failure_count; exact Hf].
Qed.

Lemma invalid_octets_rejected_witness :
  IsUTF8Valid [0x41; 0xC0; 0x80] = false
  /\ IsUTF8Valid [0xF5; 0x80; 0x80; 0x80] = false
  /\ success (ConvertUTF8ToUTF16 64 [0xF5; 0x80; 0x80; 0x80]
                [0; 0; 0; 0; 0; 0; 0; 0] true) = false.
Proof.
  split; [|split].
  - destruct (invalid_octets_rejected 64 0xC0 [0x41; 0xC0; 0x80] [] true)
      as (H & _ & _); [right; left; reflexivity|].
    apply H. left. reflexivity.
  - destruct (invalid_octets_rejected 64 0xF5 [0xF5; 0x80; 0x80; 0x80] []
                true) as (_ & H & _); [left; reflexivity|].
    apply H. vm_compute. discriminate.
  - destruct (invalid_octets_rejected 64 0xF5 [0xF5; 0x80; 0x80; 0x80]
                [0; 0; 0; 0; 0; 0; 0; 0] true) as (_ & _ & H);
      [left; reflexivity|].
    apply H. split; vm_compute; discriminate.
Defined.

(** C3 as stated fails for [ConvertUTF16ToUTF8]: the octets C0 00 are the
    little-endian code unit U+00C0, which converts to C3 80. *)
Lemma octet_C0_in_utf16_accepted :
  In 0xC0 [0xC0; 0x00]
  /\ ConvertUTF16ToUTF8 64 [0xC0; 0x00] [0; 0; 0] true
     = mkConversion true 2 [0xC3; 0x80; 0].
Proof. split; [left; reflexivity | reflexivity]. Qed.

(** C1: the validator and the converter disagree on the overlong encoding
    C0 80 of U+0000: [IsUTF8Valid] rejects it at the test for 0xC0 and 0xC1
    that [ConvertUTF8ToUTF16] lacks, and the converter returns success,
    writing the code unit 0x0000. *)
Theorem overlong_C0_80_converted :
  IsUTF8Valid [0xC0; 0x80] = false
  /\ ConvertUTF8ToUTF16 64 [0xC0; 0x80] [9; 9; 9; 9] true
     = mkConversion true 2 [0; 0; 9; 9]
  /\ ConvertUTF8ToUTF16 64 [0xC0; 0x80] [9; 9; 9; 9] false
     = mkConversion true 2 [0; 0; 9; 9].
Proof. repeat split. Qed.

(** ** The two encodings of a code point, in arithmetic *)

Ltac decide_leb :=
  repeat match goal with
         | |- context [?a <=? ?b] => destruct (Z.leb_spec a b); try lia
         | |- context [?a <? ?b] => destruct (Z.ltb_spec a b); try lia
         end.

Ltac octets_eq :=
  repeat (apply (f_equal2 (@cons Z)); [euclid|]); reflexivity.

Lemma utf8_octets_1 (c : Z) :
  0 <= c <= 0x7f -> utf8_octets c = Some [c].
Proof.
  intros Hc. unfold utf8_octets. decide_leb.
  rewrite land_7f. unwrap. apply f_equal. octets_eq.
Qed.

Lemma utf8_octets_2 (c : Z) :
  0x80 <= c <= 0x7ff ->
  utf8_octets c = Some [0xC0 + c / 64; 0x80 + c mod 64].
Proof.
  intros Hc. unfold utf8_octets. decide_leb.
  autorewrite with bits.
  rewrite lor_c0, lor_80 by euclid.
  unwrap. apply f_equal. octets_eq.
Qed.

Lemma utf8_octets_3 (c : Z) :
  0x800 <= c <= 0xffff ->
  utf8_octets c
  = Some [0xE0 + c / 4096; 0x80 + (c / 64) mod 64; 0x80 + c mod 64].
Proof.
  intros Hc. unfold utf8_octets. decide_leb.
  autorewrite with bits.
  rewrite lor_e0, !lor_80 by euclid.
  unwrap. apply f_equal. octets_eq.
Qed.

Lemma utf8_octets_4 (c : Z) :
  0x10000 <= c <= 0x10ffff ->
  utf8_octets c
  = Some [0xF0 + c / 262144; 0x80 + (c / 4096) mod 64;
          0x80 + (c / 64) mod 64; 0x80 + c mod 64].
Proof.
  intros Hc. unfold utf8_octets. decide_leb.
  autorewrite with bits.
  rewrite lor_f0, !lor_80 by euclid.
  unwrap. apply f_equal. octets_eq.
Qed.

Lemma code_unit_octets_eq (little_endian : bool) (u : Z) :
  0 <= u <= 0xffff ->
  code_unit_octets little_endian u
  = if little_endian then [u mod 256; u / 256] else [u / 256; u mod 256].
Proof.
  intros Hu. unfold code_unit_octets. autorewrite with bits. unwrap.
  destruct little_endian; octets_eq.
Qed.

Lemma Extract_eq (little_endian : bool) (p0 p1 : Z) :
  is_octet p0 -> is_octet p1 ->
  Extract little_endian p0 p1
  = if little_endian then p1 * 256 + p0 else p0 * 256 + p1.
Proof.
  unfold is_octet. intros H0 H1.
  unfold Extract, ExtractUTF16LE, ExtractUTF16BE. unwrap.
  rewrite !shiftl_8, (Z.mod_small p0), (Z.mod_small p1) by lia.
  destruct little_endian; rewrite lor_mul256 by lia;
    apply Z.mod_small; lia.
Qed.

Lemma Extract_code_unit (little_endian : bool) (u : Z) (tail : list Z) :
  0 <= u <= 0xffff ->
  exists p0 p1 : Z,
    code_unit_octets little_endian u ++ tail = p0 :: p1 :: tail
    /\ Extract little_endian p0 p1 = u.
Proof.
  intros Hu. rewrite code_unit_octets_eq by exact Hu.
  destruct little_endian.
  - exists (u mod 256), (u / 256). split; [reflexivity|].
    rewrite Extract_eq by (unfold is_octet; euclid). euclid.
  - exists (u / 256), (u mod 256). split; [reflexivity|].
    rewrite Extract_eq by (unfold is_octet; euclid). euclid.
Qed.

Lemma utf16_octets_bmp (little_endian : bool) (c : Z) :
  0 <= c <= 0xffff ->
  utf16_octets little_endian c = code_unit_octets little_endian c.
Proof.
  intros Hc. unfold utf16_octets, Unicode.Maximum_BMP_Value. decide_leb.
  unfold wrap16. rewrite Z.mod_small by lia. reflexivity.
Qed.

Lemma utf16_octets_pair (little_endian : bool) (c : Z) :
  0x10000 <= c <= 0x10ffff ->
  utf16_octets little_endian c
  = code_unit_octets little_endian (0xD7C0 + c / 1024)
    ++ code_unit_octets little_endian (0xDC00 + c mod 1024).
Proof.
  intros Hc. unfold utf16_octets, Unicode.Maximum_BMP_Value. decide_leb.
  change Unicode.Lead_Offset with 0xD7C0.
  unfold Unicode.Surrogate_Low_Min. autorewrite with bits. unwrap.
  apply f_equal2; apply f_equal; euclid.
Qed.

(** What [ConvertUTF8ToUTF16] writes for a code point, [ConvertUTF16ToUTF8]
    reads back as that code point and writes as its UTF-8 octets. *)
Lemma utf16_octets_decoded (little_endian : bool) (c : Z)
    (ch tail : list Z) :
  0 <= c <= 0x10ffff -> in_surrogate_range c = false ->
  utf8_octets c = Some ch ->
  ConvertUTF16ToUTF8_stream little_endian
    (utf16_octets little_endian c ++ tail)
  = (fst (ConvertUTF16ToUTF8_stream little_endian tail),
     ch ++ snd (ConvertUTF16ToUTF8_stream little_endian tail)).
Proof.
  intros Hc Hs Hch.
  destruct (Z.leb_spec c 0xffff) as [Hbmp | Hsup].
  - rewrite utf16_octets_bmp by lia.
    destruct (Extract_code_unit little_endian c tail ltac:(lia))
      as (p0 & p1 & -> & Hu).
    apply ConvertUTF16ToUTF8_stream_step; rewrite Hu; assumption.
  - rewrite utf16_octets_pair by lia. rewrite <- app_assoc.
    destruct (Extract_code_unit little_endian (0xD7C0 + c / 1024)
                (code_unit_octets little_endian (0xDC00 + c mod 1024)
                 ++ tail) ltac:(euclid)) as (p0 & p1 & -> & Hh).
    destruct (Extract_code_unit little_endian (0xDC00 + c mod 1024)
                tail ltac:(euclid)) as (p2 & p3 & -> & Hl).
    apply ConvertUTF16ToUTF8_stream_pair; rewrite ?Hh, ?Hl.
    + ranges. euclid.
    + ranges. euclid.
    + rewrite surrogate_pair_value_eq by euclid.
      replace (0x10000 + (0xD7C0 + c / 1024 - 0xD800) * 1024
               + (0xDC00 + c mod 1024 - 0xDC00)) with c by euclid.
      exact Hch.
Qed.

(** ** One character at a time *)

Lemma ConvertUTF8ToUTF16_stream_cons (little_endian : bool) (octet : Z)
    (rest : list Z) (sc sc' : Scan) (e : list Z) :
  ConvertUTF8ToUTF16_written little_endian octet sc = (Continue sc', e) ->
  ConvertUTF8ToUTF16_stream little_endian (octet :: rest) sc
  = (fst (ConvertUTF8ToUTF16_stream little_endian rest sc'),
     e ++ snd (ConvertUTF8ToUTF16_stream little_endian rest sc')).
Proof.
  intros H. cbn [ConvertUTF8ToUTF16_stream]. rewrite H.
  destruct (ConvertUTF8ToUTF16_stream little_endian rest sc'). reflexivity.
Qed.

(** A lead octet that the validator accepts. *)
Lemma lead_inv (b : Z) (sc sc' : Scan) :
  is_octet b -> expected_utf8_remaining sc = 0 ->
  IsUTF8Valid_body b sc = Continue sc' ->
  (b <= 0x7f /\ sc' = sc)
  \/ (0xC2 <= b <= 0xDF /\ sc' = mkScan 1 (b - 0xC0))
  \/ (0xE0 <= b <= 0xEF /\ sc' = mkScan 2 (b - 0xE0))
  \/ (0xF0 <= b <= 0xF4 /\ sc' = mkScan 3 (b - 0xF0)).
Proof.
  intros Hb Hrem. unfold IsUTF8Valid_body.
  rewrite Hrem, (land_e0 _ Hb), (land_f0 _ Hb), (land_f8 _ Hb).
  rewrite land_3f, land_0f, land_07. cbn [Z.ltb Z.compare].
  unfold is_octet in Hb.
  destruct ((b =? 0xc0) || (b =? 0xc1)) eqn:H1; [discriminate|].
  destruct (0xF5 <=? b) eqn:H2; [discriminate|].
  destruct (b <=? 0x7f) eqn:H3;
    [intros H; injection H as <-; left; split; [lia | reflexivity]|].
  destruct (32 * (b / 32) =? 0xc0) eqn:H4.
  { intros H. injection H as <-. right. left. ranges.
    split; [euclid | f_equal; euclid]. }
  destruct (16 * (b / 16) =? 0xe0) eqn:H5.
  { intros H. injection H as <-. right. right. left. ranges.
    split; [euclid | f_equal; euclid]. }
  destruct (8 * (b / 8) =? 0xf0) eqn:H6; [|discriminate].
  intros H. injection H as <-. right. right. right. ranges.
  split; [euclid | f_equal; euclid].
Qed.

Lemma lead_written (little_endian : bool) (b : Z) (sc sc' : Scan) :
  expected_utf8_remaining sc = 0 ->
  IsUTF8Valid_body b sc = Continue sc' ->
  ConvertUTF8ToUTF16_written little_endian b sc
  = (Continue sc',
     if b <=? 0x7f then code_unit_octets little_endian b else []).
Proof.
  intros Hrem. unfold IsUTF8Valid_body, ConvertUTF8ToUTF16_written.
  rewrite Hrem. cbn [Z.ltb Z.compare].
  repeat match goal with
         | |- context [if ?c then _ else _] => destruct c
         end; intros H; try discriminate; injection H as <-; reflexivity.
Qed.

(** A continuation octet that the validator accepts. *)
Lemma continuation_inv (b : Z) (sc sc' : Scan) :
  is_octet b -> 0 < expected_utf8_remaining sc ->
  0 <= wide_character sc < 2 ^ 21 ->
  IsUTF8Valid_body b sc = Continue sc' ->
  0x80 <= b <= 0xBF
  /\ sc' = mkScan (expected_utf8_remaining sc - 1)
                  (wide_character sc * 64 + (b - 0x80))
  /\ (expected_utf8_remaining sc = 1 ->
      wide_character sc' <= 0x10ffff
      /\ in_surrogate_range (wide_character sc') = false).
Proof.
  intros Hb Hrem Hwide. unfold IsUTF8Valid_body.
  rewrite (land_c0 _ Hb), assemble by exact Hwide.
  apply Z.ltb_lt in Hrem. rewrite Hrem. apply Z.ltb_lt in Hrem.
  unfold is_octet in Hb.
  destruct ((b =? 0xc0) || (b =? 0xc1)) eqn:H1; [discriminate|].
  destruct (0xF5 <=? b) eqn:H2; [discriminate|].
  destruct (negb (64 * (b / 64) =? 0x80)) eqn:H3; [discriminate|].
  apply negb_false_iff, Z.eqb_eq in H3.
  assert (Hrange : 0x80 <= b <= 0xBF) by euclid.
  replace (b mod 64) with (b - 0x80) by euclid.
  destruct (expected_utf8_remaining sc - 1 =? 0) eqn:H4.
  - destruct (Unicode.Maximum_Character_Value <? _) eqn:H5; [discriminate|].
    destruct (in_surrogate_range _) eqn:H6; [discriminate|].
    intros H. injection H as <-. cbn [wide_character].
    split; [exact Hrange|]. split; [reflexivity|]. intros _.
    split; [ranges; lia | exact H6].
  - intros H. injection H as <-. apply Z.eqb_neq in H4.
    split; [exact Hrange|]. split; [reflexivity|]. intros. lia.
Qed.

Lemma continuation_written (little_endian : bool) (b : Z) (sc sc' : Scan) :
  0 < expected_utf8_remaining sc ->
  IsUTF8Valid_body b sc = Continue sc' ->
  ConvertUTF8ToUTF16_written little_endian b sc
  = (Continue sc',
     if expected_utf8_remaining sc' =? 0
     then utf16_octets little_endian (wide_character sc') else []).
Proof.
  intros Hrem. unfold IsUTF8Valid_body, ConvertUTF8ToUTF16_written.
  apply Z.ltb_lt in Hrem. rewrite Hrem.
  destruct ((b =? 0xc0) || (b =? 0xc1)); [discriminate|].
  destruct (0xF5 <=? b); [discriminate|].
  destruct (negb (Z.land b 0xc0 =? 0x80)); [discriminate|].
  destruct (expected_utf8_remaining sc - 1 =? 0) eqn:Hlast.
  - destruct (Unicode.Maximum_Character_Value <? _); [discriminate|].
    destruct (in_surrogate_range _); [discriminate|].
    intros H. injection H as <-. cbn [expected_utf8_remaining wide_character].
    rewrite Hlast. reflexivity.
  - intros H. injection H as <-. cbn [expected_utf8_remaining].
    rewrite Hlast. reflexivity.
Qed.

(** While a sequence is open, valid input goes on with a continuation
    octet. *)
Lemma continuation_step (s : list Z) (sc sc1 : Scan) :
  Forall is_octet s ->
  0 < expected_utf8_remaining sc -> 0 <= wide_character sc < 2 ^ 21 ->
  IsUTF8Valid_loop s sc = Continue sc1 -> expected_utf8_remaining sc1 = 0 ->
  exists (b : Z) (rest : list Z) (sc' : Scan),
    s = b :: rest /\ 0x80 <= b <= 0xBF /\ Forall is_octet rest
    /\ sc' = mkScan (expected_utf8_remaining sc - 1)
                    (wide_character sc * 64 + (b - 0x80))
    /\ (expected_utf8_remaining sc = 1 ->
        wide_character sc' <= 0x10ffff
        /\ in_surrogate_range (wide_character sc') = false)
    /\ IsUTF8Valid_loop rest sc' = Continue sc1
    /\ forall little_endian : bool,
         ConvertUTF8ToUTF16_stream little_endian s sc
         = (fst (ConvertUTF8ToUTF16_stream little_endian rest sc'),
            (if expected_utf8_remaining sc' =? 0
             then utf16_octets little_endian (wide_character sc') else [])
            ++ snd (ConvertUTF8ToUTF16_stream little_endian rest sc')).
Proof.
  intros Hoct Hrem Hwide Hloop Hend.
  destruct s as [|b rest].
  - simpl in Hloop. injection Hloop as <-. lia.
  - inversion Hoct as [|? ? Hb Hrest]; subst.
    cbn [IsUTF8Valid_loop] in Hloop.
    destruct (IsUTF8Valid_body b sc) as [sc'|sc'] eqn:Hbody; [|discriminate].
    destruct (continuation_inv b sc sc' Hb Hrem Hwide Hbody)
      as (Hrange & Hsc' & Hlast).
    exists b, rest, sc'. repeat split; try assumption; try lia;
      try (apply Hlast; assumption).
    intros little_endian. apply ConvertUTF8ToUTF16_stream_cons.
    apply continuation_written; assumption.
Qed.

Lemma shortest_form_tail (b : Z) (rest : list Z) :
  shortest_form (b :: rest) = true -> shortest_form rest = true.
Proof.
  cbn [shortest_form]. intros H. apply andb_true_iff in H. tauto.
Qed.

Lemma shortest_form_head (b c : Z) (rest : list Z) :
  shortest_form (b :: c :: rest) = true ->
  (b = 0xE0 -> 0xA0 <= c) /\ (b = 0xF0 -> 0x90 <= c).
Proof.
  cbn [shortest_form]. intros H.
  apply andb_true_iff in H. destruct H as [H _].
  ranges. lia.
Qed.

Ltac scan_simpl :=
  cbn [expected_utf8_remaining wide_character] in *;
  change (3 - 1) with 2 in *; change (2 - 1) with 1 in *;
  change (1 - 1) with 0 in *;
  change (2 =? 0) with false in *; change (1 =? 0) with false in *;
  change (0 =? 0) with true in *;
  cbn [app] in *.

Ltac continuation Hloop Hoct Hend H :=
  match type of Hloop with
  | IsUTF8Valid_loop ?s ?sc = Continue ?sc1 =>
      assert (H := continuation_step s sc sc1 Hoct
                     ltac:(cbn [expected_utf8_remaining]; lia)
                     ltac:(cbn [wide_character]; lia) Hloop Hend)
  end.

(** Valid input in shortest form begins with the UTF-8 octets [ch] of a
    code point [c]; the scan is between sequences again behind them, and
    the converter has written the UTF-16 octets of [c]. *)
Lemma first_character (s : list Z) (sc sc1 : Scan) :
  s <> [] -> Forall is_octet s -> shortest_form s = true ->
  expected_utf8_remaining sc = 0 ->
  IsUTF8Valid_loop s sc = Continue sc1 -> expected_utf8_remaining sc1 = 0 ->
  exists (c : Z) (ch rest : list Z) (sc' : Scan),
    s = ch ++ rest /\ ch <> [] /\ utf8_octets c = Some ch
    /\ 0 <= c <= 0x10ffff /\ in_surrogate_range c = false
    /\ Forall is_octet rest /\ shortest_form rest = true
    /\ expected_utf8_remaining sc' = 0
    /\ IsUTF8Valid_loop rest sc' = Continue sc1
    /\ forall little_endian : bool,
         ConvertUTF8ToUTF16_stream little_endian s sc
         = (fst (ConvertUTF8ToUTF16_stream little_endian rest sc'),
            utf16_octets little_endian c
            ++ snd (ConvertUTF8ToUTF16_stream little_endian rest sc')).
Proof.
  intros Hne Hoct Hshort Hrem Hloop Hend.
  destruct s as [|b0 s1]; [contradiction|].
  inversion Hoct as [|? ? Hb0 Hoct1]; subst.
  cbn [IsUTF8Valid_loop] in Hloop.
  destruct (IsUTF8Valid_body b0 sc) as [sc2|sc2] eqn:Hlead; [|discriminate].
  pose proof (fun le => ConvertUTF8ToUTF16_stream_cons le b0 s1 sc sc2 _
                          (lead_written le b0 sc sc2 Hrem Hlead)) as Hs0.
  pose proof Hb0 as Hb0'. unfold is_octet in Hb0'.
  destruct (lead_inv b0 sc sc2 Hb0 Hrem Hlead)
    as [[Hr ->] | [[Hr ->] | [[Hr ->] | [Hr ->]]]].
  - (* one octet *)
    exists b0, [b0], s1, sc.
    split; [reflexivity|]. split; [discriminate|].
    split; [apply utf8_octets_1; lia|].
    split; [lia|]. split; [ranges; lia|].
    split; [exact Hoct1|]. split; [exact (shortest_form_tail _ _ Hshort)|].
    split; [exact Hrem|]. split; [exact Hloop|].
    intros le. rewrite Hs0, utf16_octets_bmp by lia.
    destruct (Z.leb_spec b0 0x7f); [reflexivity | lia].
  - (* two octets *)
    continuation Hloop Hoct1 Hend Hstep. destruct Hstep
      as (b1 & rest & sc3 & -> & Hb1 & Hoct2 & -> & Hlast & Hloop2 & Hs1).
    scan_simpl. destruct (Hlast eq_refl) as [Hmax Hsur].
    exists ((b0 - 0xC0) * 64 + (b1 - 0x80)), [b0; b1], rest,
      (mkScan 0 ((b0 - 0xC0) * 64 + (b1 - 0x80))).
    split; [reflexivity|]. split; [discriminate|].
    split; [rewrite utf8_octets_2 by lia; apply f_equal; octets_eq|].
    split; [lia|]. split; [exact Hsur|].
    split; [exact Hoct2|].
    split; [exact (shortest_form_tail _ _ (shortest_form_tail _ _ Hshort))|].
    split; [reflexivity|]. split; [exact Hloop2|].
    intros le. rewrite Hs0, Hs1.
    destruct (Z.leb_spec b0 0x7f); [lia | reflexivity].
  - (* three octets *)
    continuation Hloop Hoct1 Hend Hstep. destruct Hstep
      as (b1 & s2 & sc3 & -> & Hb1 & Hoct2 & -> & _ & Hloop2 & Hs1).
    scan_simpl.
    continuation Hloop2 Hoct2 Hend Hstep. destruct Hstep
      as (b2 & rest & sc4 & -> & Hb2 & Hoct3 & -> & Hlast & Hloop3 & Hs2).
    scan_simpl. destruct (Hlast eq_refl) as [Hmax Hsur].
    destruct (shortest_form_head _ _ _ Hshort) as [HE0 _].
    exists (((b0 - 0xE0) * 64 + (b1 - 0x80)) * 64 + (b2 - 0x80)),
      [b0; b1; b2], rest,
      (mkScan 0 (((b0 - 0xE0) * 64 + (b1 - 0x80)) * 64 + (b2 - 0x80))).
    split; [reflexivity|]. split; [discriminate|].
    split; [rewrite utf8_octets_3 by lia; apply f_equal; octets_eq|].
    split; [lia|]. split; [exact Hsur|].
    split; [exact Hoct3|].
    split; [exact (shortest_form_tail _ _ (shortest_form_tail _ _
                     (shortest_form_tail _ _ Hshort)))|].
    split; [reflexivity|]. split; [exact Hloop3|].
    intros le. rewrite Hs0, Hs1, Hs2.
    destruct (Z.leb_spec b0 0x7f); [lia | reflexivity].
  - (* four octets *)
    continuation Hloop Hoct1 Hend Hstep. destruct Hstep
      as (b1 & s2 & sc3 & -> & Hb1 & Hoct2 & -> & _ & Hloop2 & Hs1).
    scan_simpl.
    continuation Hloop2 Hoct2 Hend Hstep. destruct Hstep
      as (b2 & s3 & sc4 & -> & Hb2 & Hoct3 & -> & _ & Hloop3 & Hs2).
    scan_simpl.
    continuation Hloop3 Hoct3 Hend Hstep. destruct Hstep
      as (b3 & rest & sc5 & -> & Hb3 & Hoct4 & -> & Hlast & Hloop4 & Hs3).
    scan_simpl. destruct (Hlast eq_refl) as [Hmax Hsur].
    destruct (shortest_form_head _ _ _ Hshort) as [_ HF0].
    exists ((((b0 - 0xF0) * 64 + (b1 - 0x80)) * 64 + (b2 - 0x80)) * 64
            + (b3 - 0x80)),
      [b0; b1; b2; b3], rest,
      (mkScan 0 ((((b0 - 0xF0) * 64 + (b1 - 0x80)) * 64 + (b2 - 0x80)) * 64
                 + (b3 - 0x80))).
    split; [reflexivity|]. split; [discriminate|].
    split; [rewrite utf8_octets_4 by lia; apply f_equal; octets_eq|].
    split; [lia|]. split; [exact Hsur|].
    split; [exact Hoct4|].
    split; [exact (shortest_form_tail _ _ (shortest_form_tail _ _
                     (shortest_form_tail _ _
                        (shortest_form_tail _ _ Hshort))))|].
    split; [reflexivity|]. split; [exact Hloop4|].
    intros le. rewrite Hs0, Hs1, Hs2, Hs3.
    destruct (Z.leb_spec b0 0x7f); [lia | reflexivity].
Qed.

(** ** The round trip *)

Lemma utf16_octets_even (little_endian : bool) (c : Z) (tail : list Z) :
  Nat.even (length (utf16_octets little_endian c ++ tail))
  = Nat.even (length tail).
Proof.
  unfold utf16_octets, code_unit_octets.
  destruct (Unicode.Maximum_BMP_Value <? c); destruct little_endian;
    reflexivity.
Qed.

(** On valid input in shortest form the converter ends between sequences,
    and what it has written converts back to the input. *)
Lemma round_trip_stream (little_endian : bool) :
  forall (n : nat) (s : list Z) (sc sc1 : Scan),
    (length s <= n)%nat ->
    Forall is_octet s -> shortest_form s = true ->
    expected_utf8_remaining sc = 0 ->
    IsUTF8Valid_loop s sc = Continue sc1 ->
    expected_utf8_remaining sc1 = 0 ->
    exists e : list Z,
      ConvertUTF8ToUTF16_stream little_endian s sc = (Continue sc1, e)
      /\ ConvertUTF16ToUTF8_stream little_endian e = (None, s)
      /\ Nat.even (length e) = true.
Proof.
  induction n as [|n IH]; intros s sc sc1 Hlen Hoct Hshort Hrem Hloop Hend.
  - destruct s; [|simpl in Hlen; lia].
    simpl in Hloop. injection Hloop as <-.
    exists []. repeat split.
  - destruct s as [|b0 s1].
    { simpl in Hloop. injection Hloop as <-. exists []. repeat split. }
    destruct (first_character (b0 :: s1) sc sc1 ltac:(discriminate)
                Hoct Hshort Hrem Hloop Hend)
      as (c & ch & rest & sc' & Hs & Hch & Hc8 & Hc & Hsur & Hoct' & Hshort'
          & Hrem' & Hloop' & Hstream).
    assert (Hlen' : (length rest <= n)%nat).
    { rewrite Hs, length_app in Hlen.
      destruct ch; [contradiction | simpl in Hlen; lia]. }
    destruct (IH rest sc' sc1 Hlen' Hoct' Hshort' Hrem' Hloop' Hend)
      as (e' & He8 & He16 & Heven).
    exists (utf16_octets little_endian c ++ e').
    rewrite Hstream, He8. cbn [fst snd].
    split; [reflexivity|]. split.
    + rewrite (utf16_octets_decoded little_endian c ch e' Hc Hsur Hc8).
      rewrite He16, Hs. reflexivity.
    + rewrite utf16_octets_even. exact Heven.
Qed.

(** Unless the first code unit is U+FFFE, the byte-swapped mark, the
    converter from UTF-16 keeps the byte order it was given. *)
Lemma detect_byte_order_first_unit (little_endian : bool) (u : Z)
    (tail : list Z) :
  0 <= u <= 0xffff -> u <> 0xFFFE ->
  detect_byte_order (code_unit_octets little_endian u ++ tail) little_endian
  = little_endian.
Proof.
  intros Hu Hne. rewrite code_unit_octets_eq by exact Hu.
  unfold detect_byte_order.
  destruct (4 <=? _); [|reflexivity].
  destruct little_endian; cbn [app].
  - destruct ((u mod 256 =? 0xFE) && (u / 256 =? 0xFF)) eqn:H1.
    + exfalso. ranges. euclid.
    + destruct ((u mod 256 =? 0xFF) && (u / 256 =? 0xFE)); reflexivity.
  - destruct ((u / 256 =? 0xFE) && (u mod 256 =? 0xFF)); [reflexivity|].
    destruct ((u / 256 =? 0xFF) && (u mod 256 =? 0xFE)) eqn:H2;
      [|reflexivity].
    exfalso. ranges. euclid.
Qed.

Lemma round_trip_byte_order (little_endian : bool) (s : list Z)
    (sc sc1 : Scan) :
  Forall is_octet s -> shortest_form s = true ->
  starts_with_swapped_bom s = false ->
  expected_utf8_remaining sc = 0 ->
  IsUTF8Valid_loop s sc = Continue sc1 ->
  expected_utf8_remaining sc1 = 0 ->
  detect_byte_order
    (snd (ConvertUTF8ToUTF16_stream little_endian s sc)) little_endian
  = little_endian.
Proof.
  intros Hoct Hshort Hbom Hrem Hloop Hend.
  destruct s as [|b0 s1]; [reflexivity|].
  destruct (first_character (b0 :: s1) sc sc1 ltac:(discriminate)
              Hoct Hshort Hrem Hloop Hend)
    as (c & ch & rest & sc' & Hs & Hch & Hc8 & Hc & Hsur & _ & _ & _ & _
        & Hstream).
  rewrite Hstream. cbn [snd].
  destruct (Z.eq_dec c 0xFFFE) as [-> | Hne].
  - vm_compute in Hc8. injection Hc8 as <-.
    rewrite Hs in Hbom.
    destruct rest as [|r rest]; [|discriminate].
    destruct little_endian; reflexivity.
  - destruct (Z.leb_spec c 0xffff) as [Hbmp | Hsup].
    + rewrite utf16_octets_bmp by lia.
      apply detect_byte_order_first_unit; [lia | exact Hne].
    + rewrite utf16_octets_pair by lia. rewrite <- app_assoc.
      apply detect_byte_order_first_unit; euclid.
Qed.

(** [ConvertUTF16ToUTF8] in terms of the octets written, for an input of
    even length and an output span of sufficient capacity. *)
Lemma ConvertUTF16ToUTF8_written_spec (size_bits : Z)
    (input output : list Z) (little_endian : bool) :
  0 < size_bits -> size_bits mod 4 = 0 ->
  Nat.even (length input) = true ->
  Z.of_nat (length input) + Z.of_nat (length input) / 2
    <= Z.of_nat (length output) <= SIZE_MAX size_bits ->
  let '(why, e) :=
    ConvertUTF16ToUTF8_stream (detect_byte_order input little_endian) input in
  (length e <= length output)%nat
  /\ firstn (length e) (blit output 0 e) = e
  /\ ConvertUTF16ToUTF8 size_bits input output little_endian
     = match why with
       | None => mkConversion true (Z.of_nat (length e)) (blit output 0 e)
       | Some _ => mkConversion false 0 (blit output 0 e)
       end.
Proof.
  intros Hpos H4 Heven Hcap.
  pose proof (ConvertUTF16ToUTF8_stream_length
                (detect_byte_order input little_endian)
                (length input) input (le_n _)) as Hlen.
  assert (Hmod : Z.of_nat (length input) mod 2 = 0).
  { apply even_land in Heven. rewrite (land_low 1) in Heven by lia.
    exact Heven. }
  unfold ConvertUTF16ToUTF8, ConvertUTF16ToUTF8_outcome.
  rewrite (ConvertUTF16ToUTF8_loop_written _ (length input)) by lia.
  destruct (ConvertUTF16ToUTF8_stream _ input) as [why e] eqn:Hst.
  cbn [snd] in Hlen.
  assert (Hfit : (length e <= length output)%nat) by euclid.
  split; [exact Hfit|]. split; [apply blit_all; exact Hfit|].
  destruct (Z.of_nat (length input) =? 0) eqn:H0.
  - apply Z.eqb_eq, length_zero_nil in H0. subst input.
    simpl in Hst. injection Hst as <- <-. reflexivity.
  - apply even_land in Heven. rewrite Heven. cbn [Z.eqb negb].
    assert (Hbelow : Z.of_nat (length input) <= Max_UTF16_String size_bits)
      by (apply capacity_implies_below_ceiling; (assumption || lia)).
    apply Z.ltb_ge in Hbelow. rewrite Hbelow. apply Z.ltb_ge in Hbelow.
    rewrite below_ceiling_no_overflow by (assumption || lia).
    destruct (Z.of_nat (length output) <? _) eqn:Hc;
      [apply Z.ltb_lt in Hc; lia|].
    destruct why; reflexivity.
Qed.

(** C2, amended: for every sequence of octets that [IsUTF8Valid] accepts,
    that holds no three- or four-octet sequence longer than the shortest
    form, and that does not begin with U+FFFE (EF BF BE) followed by further
    octets, converting it with [ConvertUTF8ToUTF16] and converting the
    octets written back with [ConvertUTF16ToUTF8], in the same byte order
    and with output spans of sufficient capacity, succeeds twice and gives
    exactly the original octets. *)
Theorem utf8_utf16_round_trip (size_bits : Z) (utf8 out16 out8 : list Z)
    (little_endian : bool) :
  0 < size_bits -> size_bits mod 4 = 0 ->
  Forall is_octet utf8 ->
  IsUTF8Valid utf8 = true ->
  shortest_form utf8 = true ->
  starts_with_swapped_bom utf8 = false ->
  2 * Z.of_nat (length utf8) <= Z.of_nat (length out16)
    <= SIZE_MAX size_bits ->
  let r16 := ConvertUTF8ToUTF16 size_bits utf8 out16 little_endian in
  let utf16 := firstn (Z.to_nat (octets r16)) (buffer r16) in
  Z.of_nat (length utf16) + Z.of_nat (length utf16) / 2
    <= Z.of_nat (length out8) <= SIZE_MAX size_bits ->
  let r8 := ConvertUTF16ToUTF8 size_bits utf16 out8 little_endian in
  success r16 = true /\ success r8 = true
  /\ firstn (Z.to_nat (octets r8)) (buffer r8) = utf8.
Proof.
  intros Hpos H4 Hoct Hvalid Hshort Hbom Hcap16.
  assert (Hvalid' : exists sc1,
             IsUTF8Valid_loop utf8 (mkScan 0 0) = Continue sc1
             /\ expected_utf8_remaining sc1 = 0).
  { unfold IsUTF8Valid in Hvalid.
    destruct utf8 as [|b utf8]; [exists (mkScan 0 0); split; reflexivity|].
    cbn [length Nat.eqb] in Hvalid.
    destruct (IsUTF8Valid_loop (b :: utf8) (mkScan 0 0)) as [sc1|sc1];
      [|discriminate].
    exists sc1. split; [reflexivity | apply Z.eqb_eq; exact Hvalid]. }
  destruct Hvalid' as (sc1 & Hloop & Hend).
  destruct (round_trip_stream little_endian (length utf8) utf8 (mkScan 0 0)
              sc1 (le_n _) Hoct Hshort eq_refl Hloop Hend)
    as (e & He8 & He16 & Heven).
  pose proof (round_trip_byte_order little_endian utf8 (mkScan 0 0) sc1
                Hoct Hshort Hbom eq_refl Hloop Hend) as Horder.
  rewrite He8 in Horder. cbn [snd] in Horder.
  pose proof (ConvertUTF8ToUTF16_written_spec size_bits utf8 out16
                little_endian Hcap16) as H16.
  rewrite He8 in H16. destruct H16 as (Hfit16 & Hfirst16 & Hr16).
  rewrite Hend in Hr16. cbn [Z.ltb Z.compare] in Hr16.
  intros r16 utf16. subst r16. subst utf16. rewrite Hr16.
  cbn [octets buffer success]. rewrite Nat2Z.id, Hfirst16.
  intros Hcap8.
  pose proof (ConvertUTF16ToUTF8_written_spec size_bits e out8
                little_endian Hpos H4 Heven Hcap8) as H8.
  rewrite Horder, He16 in H8. destruct H8 as (Hfit8 & Hfirst8 & Hr8).
  rewrite Hr8. cbn [octets buffer success]. rewrite Nat2Z.id.
  repeat split. exact Hfirst8.
Qed.

Lemma utf8_utf16_round_trip_witness :
  let utf8 := [0x48; 0xC3; 0xA9; 0xE2; 0x82; 0xAC; 0xF0; 0x9F; 0x98; 0x80] in
  let r16 := ConvertUTF8ToUTF16 64 utf8 (repeat 0 20) false in
  let utf16 := firstn (Z.to_nat (octets r16)) (buffer r16) in
  let r8 := ConvertUTF16ToUTF8 64 utf16 (repeat 0 15) false in
  success r16 = true /\ success r8 = true
  /\ firstn (Z.to_nat (octets r8)) (buffer r8) = utf8.
Proof.
  apply (utf8_utf16_round_trip 64
           [0x48; 0xC3; 0xA9; 0xE2; 0x82; 0xAC; 0xF0; 0x9F; 0x98; 0x80]
           (repeat 0 20) (repeat 0 15) false);
    try reflexivity.
  - repeat constructor; unfold is_octet; lia.
  - vm_compute. split; discriminate.
  - vm_compute. split; discriminate.
Defined.

(** C2 as stated fails.  EF BF BE 41 is valid UTF-8 for U+FFFE U+0041; its
    little-endian UTF-16 form FE FF 41 00 begins like a big-endian byte
    order mark, is read back big-endian, and comes out as EF BB BF E4 84 80.
    E0 80 80 passes [IsUTF8Valid] although it is an overlong form of U+0000;
    it converts to the code unit 0x0000, which comes back as the single
    octet 00. *)
Lemma round_trip_fails :
  (IsUTF8Valid [0xEF; 0xBF; 0xBE; 0x41] = true
   /\ ConvertUTF8ToUTF16 64 [0xEF; 0xBF; 0xBE; 0x41] (repeat 0 8) true
      = mkConversion true 4 [0xFE; 0xFF; 0x41; 0x00; 0; 0; 0; 0]
   /\ ConvertUTF16ToUTF8 64 [0xFE; 0xFF; 0x41; 0x00] (repeat 0 6) true
      = mkConversion true 6 [0xEF; 0xBB; 0xBF; 0xE4; 0x84; 0x80])
  /\ (IsUTF8Valid [0xE0; 0x80; 0x80] = true
      /\ ConvertUTF8ToUTF16 64 [0xE0; 0x80; 0x80] (repeat 9 6) true
         = mkConversion true 2 [0x00; 0x00; 9; 9; 9; 9]
      /\ ConvertUTF16ToUTF8 64 [0x00; 0x00] (repeat 9 3) true
         = mkConversion true 1 [0x00; 9; 9]).
Proof. repeat split. Qed.

(** * Further properties *)

(** ** What a conversion leaves in the output span *)

Lemma store_skipn (b : list Z) (i n : nat) (v : Z) :
  (i < n)%nat -> skipn n (store b i v) = skipn n b.
Proof.
  revert i n. induction b as [|h t IH]; intros [|j] [|n] Hn; simpl;
    try reflexivity; try lia.
  apply IH. lia.
Qed.

Lemma blit_skipn (e b : list Z) (i n : nat) :
  (i + length e <= n)%nat -> skipn n (blit b i e) = skipn n b.
Proof.
  revert b i. induction e as [|v e IH]; intros b i Hn; simpl in *;
    [reflexivity|].
  rewrite IH by lia. apply store_skipn. lia.
Qed.

Lemma ConvertUTF8ToUTF16_written_even (little_endian : bool) (octet : Z)
    (sc : Scan) :
  Nat.even (length (snd (ConvertUTF8ToUTF16_written little_endian octet sc)))
  = true.
Proof.
  unfold ConvertUTF8ToUTF16_written, utf16_octets, code_unit_octets.
  repeat match goal with
         | |- context [if ?c then _ else _] => destruct c
         end; reflexivity.
Qed.






Lemma utf8_octets_nonempty (c : Z) (e : list Z) :
  utf8_octets c = Some e -> (1 <= length e)%nat.
Proof.
  unfold utf8_octets.
  repeat match goal with
         | |- context [if ?c then _ else _] => destruct c
         end; intros He; try discriminate; injection He as <-; simpl; lia.
Qed.

Lemma utf8_octets_of_pair (c : Z) (e : list Z) :
  0x10000 <= c -> utf8_octets c = Some e -> length e = 4%nat.
Proof.
  intros Hc. unfold utf8_octets. decide_leb;
    intros He; try discriminate; injection He as <-; reflexivity.
Qed.

(** A code unit gives at least one octet, a surrogate pair four. *)
Lemma ConvertUTF16ToUTF8_stream_length_lower (little_endian : bool) :
  forall (n : nat) (input : list Z),
    (length input <= n)%nat ->
    fst (ConvertUTF16ToUTF8_stream little_endian input) = None ->
    (length input
     <= 2 * length (snd (ConvertUTF16ToUTF8_stream little_endian input)))%nat.
Proof.
  induction n as [|n IH]; intros input Hlen;
    destruct input as [|p0 [|p1 rest]]; simpl in Hlen; try lia;
    cbn [ConvertUTF16ToUTF8_stream]; try discriminate; try (simpl; lia).
  destruct (in_surrogate_range (Extract little_endian p0 p1)) eqn:Hs.
  - destruct (in_low_surrogate_range (Extract little_endian p0 p1)) eqn:Hl;
      [discriminate|].
    destruct rest as [|p2 [|p3 rest']]; try discriminate.
    destruct ((Extract little_endian p2 p3 <? Unicode.Surrogate_Low_Min)
              || (Unicode.Surrogate_Low_Max <? Extract little_endian p2 p3))
      eqn:Hlow; [discriminate|].
    destruct (utf8_octets _) as [e|] eqn:He; [|discriminate].
    apply utf8_octets_of_pair in He;
      [|rewrite surrogate_pair_value_eq; ranges; lia].
    specialize (IH rest' ltac:(simpl in Hlen; lia)).
    destruct (ConvertUTF16ToUTF8_stream little_endian rest') as [r e'].
    cbn [fst snd] in *. intros Hr. specialize (IH Hr).
    rewrite length_app. simpl. lia.
  - destruct (utf8_octets _) as [e|] eqn:He; [|discriminate].
    apply utf8_octets_nonempty in He.
    specialize (IH rest ltac:(lia)).
    destruct (ConvertUTF16ToUTF8_stream little_endian rest) as [r e'].
    cbn [fst snd] in *. intros Hr. specialize (IH Hr).
    rewrite length_app. simpl. lia.
Qed.

Lemma ConvertUTF16ToUTF8_buffer_length (size_bits : Z)
    (input output : list Z) (little_endian : bool) :
  length (buffer (ConvertUTF16ToUTF8 size_bits input output little_endian))
  = length output.
Proof.
  unfold ConvertUTF16ToUTF8, ConvertUTF16ToUTF8_outcome.
  repeat match goal with
         | |- context [if ?c then _ else _] => destruct c
         end; try reflexivity.
  rewrite (ConvertUTF16ToUTF8_loop_written _ (length input)) by lia.
  destruct (ConvertUTF16ToUTF8_stream _ input) as [[why|] e];
    cbn [buffer out advance]; apply blit_length.
Qed.

Lemma ConvertUTF16ToUTF8_success_even (size_bits : Z)
    (input output : list Z) (little_endian : bool) :
  success (ConvertUTF16ToUTF8 size_bits input output little_endian) = true ->
  Nat.even (length input) = true.
Proof.
  unfold ConvertUTF16ToUTF8, ConvertUTF16ToUTF8_outcome.
  destruct (Z.of_nat (length input) =? 0) eqn:H0.
  - apply Z.eqb_eq, length_zero_nil in H0. subst. reflexivity.
  - destruct (negb (Z.land (Z.of_nat (length input)) 1 =? 0)) eqn:Hodd;
      [discriminate|].
    intros _. apply even_land. apply negb_false_iff, Z.eqb_eq in Hodd.
    exact Hodd.
Qed.

(** X2: [ConvertUTF16ToUTF8], on a platform whose size type has [4 * m]
    bits.  The output span keeps its length and the byte count is 0 on
    failure.  On success the input length is even, the byte count lies
    between half the input length and one and a half times the input length,
    never exceeds the capacity, and the span beyond the octets counted is as
    it was. *)
Theorem ConvertUTF16ToUTF8_count (size_bits : Z) (input output : list Z)
    (little_endian : bool) :
  0 < size_bits -> size_bits mod 4 = 0 ->
  let r := ConvertUTF16ToUTF8 size_bits input output little_endian in
  length (buffer r) = length output
  /\ (success r = false -> octets r = 0)
  /\ (success r = true ->
      Nat.even (length input) = true
      /\ Z.of_nat (length input) <= 2 * octets r
      /\ octets r <= Z.of_nat (length input) + Z.of_nat (length input) / 2
      /\ octets r <= Z.of_nat (length output)
      /\ skipn (Z.to_nat (octets r)) (buffer r)
         = skipn (Z.to_nat (octets r)) output).
Proof.
  intros Hpos H4 r. subst r.
  split; [apply ConvertUTF16ToUTF8_buffer_length|].
  split; [apply ConvertUTF16ToUTF8_failure_count|].
  intros Hs.
  pose proof (ConvertUTF16ToUTF8_success_even _ _ _ _ Hs) as Heven.
  destruct (ConvertUTF16ToUTF8_success_written _ _ _ _ Hpos H4 Hs)
    as (e & He & Hr & Hfit & _).
  pose proof (ConvertUTF16ToUTF8_stream_length
                (detect_byte_order input little_endian)
                (length input) input (le_n _)) as Hup.
  pose proof (ConvertUTF16ToUTF8_stream_length_lower
                (detect_byte_order input little_endian)
                (length input) input (le_n _)) as Hlow.
  rewrite He in Hup, Hlow. cbn [fst snd] in *. specialize (Hlow eq_refl).
  rewrite Hr. cbn [octets buffer]. rewrite Nat2Z.id.
  split; [exact Heven|]. split; [lia|]. split; [euclid|]. split; [lia|].
  apply blit_skipn. lia.
Qed.

Lemma ConvertUTF16ToUTF8_count_witness :
  let r := ConvertUTF16ToUTF8 64 [0x3d; 0xd8; 0x00; 0xde; 0xac; 0x20]
             (repeat 7 9) true in
  length (buffer r) = 9%nat
  /\ octets r <= 6 + 6 / 2
  /\ skipn (Z.to_nat (octets r)) (buffer r) = [7; 7].
Proof.
  pose proof (ConvertUTF16ToUTF8_count 64
                [0x3d; 0xd8; 0x00; 0xde; 0xac; 0x20] (repeat 7 9) true
                eq_refl eq_refl) as H.
  cbv zeta in H. destruct H as (Hlen & _ & Hok).
  destruct (Hok eq_refl) as (_ & _ & Hup & _ & Hskip).
  cbv zeta. split; [exact Hlen|]. split; [apply Hup | exact Hskip].
Defined.

(** ** The two byte orders *)

Lemma swap_pairs_length (l : list Z) :
  length (swap_pairs l) = length l.
Proof.
  assert (H : forall n l, (length l <= n)%nat ->
                          length (swap_pairs l) = length l).
  { clear l. induction n as [|n IH]; intros l Hl;
      destruct l as [|a [|b rest]]; simpl in *; try reflexivity; try lia.
    rewrite IH by lia. reflexivity. }
  apply (H (length l)). lia.
Qed.

Lemma swap_pairs_app (a b : list Z) :
  Nat.even (length a) = true ->
  swap_pairs (a ++ b) = swap_pairs a ++ swap_pairs b.
Proof.
  assert (H : forall n a, (length a <= n)%nat ->
                          Nat.even (length a) = true ->
                          swap_pairs (a ++ b) = swap_pairs a ++ swap_pairs b).
  { clear a. induction n as [|n IH]; intros a Hl He;
      destruct a as [|x [|y rest]]; simpl in *; try reflexivity;
      try discriminate; try lia.
    rewrite IH by (lia || exact He). reflexivity. }
  apply (H (length a)). lia.
Qed.

Lemma Extract_swap (little_endian : bool) (p0 p1 : Z) :
  Extract (negb little_endian) p1 p0 = Extract little_endian p0 p1.
Proof. destruct little_endian; reflexivity. Qed.

Lemma ConvertUTF16ToUTF8_loop_swap (little_endian : bool) :
  forall (n : nat) (input : list Z) (cu : Cursor),
    (length input <= n)%nat ->
    ConvertUTF16ToUTF8_loop (negb little_endian) (swap_pairs input) cu
    = ConvertUTF16ToUTF8_loop little_endian input cu.
Proof.
  induction n as [|n IH]; intros input cu Hlen;
    destruct input as [|p0 [|p1 rest]]; simpl in Hlen; try lia;
    try reflexivity.
  cbn [swap_pairs ConvertUTF16ToUTF8_loop]. rewrite Extract_swap.
  destruct (in_surrogate_range (Extract little_endian p0 p1)).
  - destruct (in_low_surrogate_range (Extract little_endian p0 p1));
      [reflexivity|].
    destruct rest as [|p2 [|p3 rest']]; try reflexivity.
    cbn [swap_pairs]. rewrite Extract_swap.
    destruct ((Extract little_endian p2 p3 <? Unicode.Surrogate_Low_Min)
              || (Unicode.Surrogate_Low_Max <? Extract little_endian p2 p3));
      [reflexivity|].
    destruct (ConvertUTF16ToUTF8_encode _ cu) as [cu'|cu']; [|reflexivity].
    apply IH. simpl in Hlen. lia.
  - destruct (ConvertUTF16ToUTF8_encode _ cu) as [cu'|cu']; [|reflexivity].
    apply IH. lia.
Qed.

Lemma detect_byte_order_swap (input : list Z) (little_endian : bool) :
  detect_byte_order (swap_pairs input) (negb little_endian)
  = negb (detect_byte_order input little_endian).
Proof.
  unfold detect_byte_order. rewrite swap_pairs_length.
  destruct (4 <=? Z.of_nat (length input)); [|reflexivity].
  destruct input as [|p0 [|p1 rest]]; try reflexivity.
  cbn [swap_pairs].
  destruct (p0 =? 0xFE) eqn:A; destruct (p1 =? 0xFF) eqn:B;
    destruct (p0 =? 0xFF) eqn:C; destruct (p1 =? 0xFE) eqn:D;
    cbn; try reflexivity; exfalso; lia.
Qed.

(** X3: [ConvertUTF16ToUTF8] treats the two byte orders alike: with the
    octets of every code unit of the input exchanged and [little_endian]
    negated, it returns the same pair and leaves the same output span,
    whether it succeeds or fails and whether or not the input begins with a
    byte order mark. *)
Theorem ConvertUTF16ToUTF8_byte_swapped (size_bits : Z)
    (input output : list Z) (little_endian : bool) :
  ConvertUTF16ToUTF8 size_bits (swap_pairs input) output (negb little_endian)
  = ConvertUTF16ToUTF8 size_bits input output little_endian.
Proof.
  unfold ConvertUTF16ToUTF8, ConvertUTF16ToUTF8_outcome.
  rewrite swap_pairs_length, detect_byte_order_swap.
  rewrite (ConvertUTF16ToUTF8_loop_swap _ (length input)) by lia.
  reflexivity.
Qed.

Lemma code_unit_octets_swap (little_endian : bool) (c : Z) :
  code_unit_octets (negb little_endian) c
  = swap_pairs (code_unit_octets little_endian c).
Proof. destruct little_endian; reflexivity. Qed.

Lemma utf16_octets_swap (little_endian : bool) (c : Z) :
  utf16_octets (negb little_endian) c
  = swap_pairs (utf16_octets little_endian c).
Proof.
  unfold utf16_octets.
  destruct (Unicode.Maximum_BMP_Value <? c); destruct little_endian;
    reflexivity.
Qed.

Lemma ConvertUTF8ToUTF16_written_swap (little_endian : bool) (octet : Z)
    (sc : Scan) :
  ConvertUTF8ToUTF16_written (negb little_endian) octet sc
  = (fst (ConvertUTF8ToUTF16_written little_endian octet sc),
     swap_pairs (snd (ConvertUTF8ToUTF16_written little_endian octet sc))).
Proof.
  unfold ConvertUTF8ToUTF16_written.
  repeat match goal with
         | |- context [if ?c then _ else _] => destruct c
         end; cbn [fst snd]; rewrite ?utf16_octets_swap, ?code_unit_octets_swap;
    reflexivity.
Qed.

Lemma ConvertUTF8ToUTF16_stream_swap (little_endian : bool)
    (input : list Z) :
  forall sc : Scan,
    ConvertUTF8ToUTF16_stream (negb little_endian) input sc
    = (fst (ConvertUTF8ToUTF16_stream little_endian input sc),
       swap_pairs (snd (ConvertUTF8ToUTF16_stream little_endian input sc))).
Proof.
  induction input as [|octet rest IH]; intros sc;
    cbn [ConvertUTF8ToUTF16_stream]; [reflexivity|].
  rewrite ConvertUTF8ToUTF16_written_swap.
  pose proof (ConvertUTF8ToUTF16_written_even little_endian octet sc) as He.
  destruct (ConvertUTF8ToUTF16_written little_endian octet sc)
    as [[sc'|sc'] e]; cbn [fst snd] in *; [|reflexivity].
  rewrite IH.
  destruct (ConvertUTF8ToUTF16_stream little_endian rest sc') as [r e'].
  cbn [fst snd]. rewrite swap_pairs_app by exact He. reflexivity.
Qed.

(** X4: [ConvertUTF8ToUTF16] treats the two byte orders alike: for an output
    span of sufficient capacity, the conversion to one byte order succeeds
    exactly when the conversion to the other does, with the same byte count,
    and the octets written are those of the other with the two octets of
    every code unit exchanged. *)
Theorem ConvertUTF8ToUTF16_byte_orders (size_bits : Z)
    (input output : list Z) (little_endian : bool) :
  2 * Z.of_nat (length input) <= Z.of_nat (length output)
    <= SIZE_MAX size_bits ->
  let r := ConvertUTF8ToUTF16 size_bits input output little_endian in
  let r' := ConvertUTF8ToUTF16 size_bits input output (negb little_endian) in
  success r' = success r /\ octets r' = octets r
  /\ firstn (Z.to_nat (octets r')) (buffer r')
     = swap_pairs (firstn (Z.to_nat (octets r)) (buffer r)).
Proof.
  intros Hcap.
  pose proof (ConvertUTF8ToUTF16_written_spec size_bits input output
                little_endian Hcap) as H.
  pose proof (ConvertUTF8ToUTF16_written_spec size_bits input output
                (negb little_endian) Hcap) as H'.
  rewrite ConvertUTF8ToUTF16_stream_swap in H'.
  destruct (ConvertUTF8ToUTF16_stream little_endian input (mkScan 0 0))
    as [fl e].
  cbn [fst snd] in H'.
  destruct H as (Hfit & Hfirst & ->). destruct H' as (Hfit' & Hfirst' & ->).
  cbv zeta.
  destruct fl as [sc|sc];
    [destruct (0 <? expected_utf8_remaining sc)|];
    cbn [success octets buffer]; rewrite ?Nat2Z.id, ?swap_pairs_length;
    repeat split; try reflexivity.
  rewrite <- (swap_pairs_length e) at 1. rewrite Hfirst', Hfirst. reflexivity.
Qed.

Lemma ConvertUTF8ToUTF16_byte_orders_witness :
  let r := ConvertUTF8ToUTF16 64 [0x48; 0xF0; 0x9F; 0x98; 0x80]
             (repeat 0 10) true in
  let r' := ConvertUTF8ToUTF16 64 [0x48; 0xF0; 0x9F; 0x98; 0x80]
              (repeat 0 10) false in
  success r' = success r /\ octets r' = octets r
  /\ firstn (Z.to_nat (octets r')) (buffer r')
     = swap_pairs (firstn (Z.to_nat (octets r)) (buffer r)).
Proof.
  apply (ConvertUTF8ToUTF16_byte_orders 64 [0x48; 0xF0; 0x9F; 0x98; 0x80]
           (repeat 0 10) true).
  vm_compute. split; discriminate.
Defined.

Lemma ConvertUTF8ToUTF16_stream_remaining (little_endian : bool)
    (input : list Z) :
  forall sc : Scan,
    0 <= expected_utf8_remaining sc ->
    match fst (ConvertUTF8ToUTF16_stream little_endian input sc) with
    | Continue sc' => 0 <= expected_utf8_remaining sc'
    | ReturnFalse _ => True
    end.
Proof.
  induction input as [|octet rest IH]; intros sc Hsc; [exact Hsc|].
  rewrite ConvertUTF8ToUTF16_stream_fst.
  pose proof (ConvertUTF8ToUTF16_written_remaining little_endian octet sc)
    as Hrem.
  destruct (ConvertUTF8ToUTF16_written little_endian octet sc)
    as [[sc'|sc'] e]; cbn [fst]; [|exact I].
  apply IH. apply (Hrem sc' e eq_refl Hsc).
Qed.

(** ** The validator of 2024 *)

Lemma Legacy_IsUTF8Valid_body_written (little_endian : bool) (octet : Z)
    (sc : Scan) :
  Legacy.IsUTF8Valid_body octet sc
  = fst (ConvertUTF8ToUTF16_written little_endian octet sc).
Proof.
  unfold Legacy.IsUTF8Valid_body, ConvertUTF8ToUTF16_written.
  repeat match goal with
         | |- context [if ?c then _ else _] => destruct c
         end; reflexivity.
Qed.

Lemma Legacy_IsUTF8Valid_loop_stream (little_endian : bool)
    (input : list Z) :
  forall sc : Scan,
    Legacy.IsUTF8Valid_loop input sc
    = fst (ConvertUTF8ToUTF16_stream little_endian input sc).
Proof.
  induction input as [|octet rest IH]; intros sc; [reflexivity|].
  rewrite ConvertUTF8ToUTF16_stream_fst. cbn [Legacy.IsUTF8Valid_loop].
  rewrite (Legacy_IsUTF8Valid_body_written little_endian).
  destruct (fst (ConvertUTF8ToUTF16_written little_endian octet sc));
    [apply IH | reflexivity].
Qed.

(** X5: the validator of character_utilities.cpp and [ConvertUTF8ToUTF16]
    agree on every input: given an output span of sufficient capacity, the
    conversion succeeds exactly when that validator returns true. *)
Theorem Legacy_validator_is_converter (size_bits : Z)
    (input output : list Z) (little_endian : bool) :
  2 * Z.of_nat (length input) <= Z.of_nat (length output)
    <= SIZE_MAX size_bits ->
  success (ConvertUTF8ToUTF16 size_bits input output little_endian)
  = Legacy.IsUTF8Valid input.
Proof.
  intros Hcap.
  pose proof (ConvertUTF8ToUTF16_written_spec size_bits input output
                little_endian Hcap) as H.
  unfold Legacy.IsUTF8Valid.
  rewrite (Legacy_IsUTF8Valid_loop_stream little_endian).
  destruct (ConvertUTF8ToUTF16_stream little_endian input (mkScan 0 0))
    as [fl e] eqn:Hst.
  destruct H as (_ & _ & ->). cbn [fst].
  destruct (length input =? 0)%nat eqn:H0.
  - apply Nat.eqb_eq in H0. destruct input; [|discriminate].
    simpl in Hst. injection Hst as <- <-. reflexivity.
  - destruct fl as [sc|sc]; [|reflexivity].
    pose proof (ConvertUTF8ToUTF16_stream_remaining little_endian input
                  (mkScan 0 0) ltac:(simpl; lia)) as Hrem.
    rewrite Hst in Hrem. cbn [fst] in Hrem.
    destruct (Z.ltb_spec 0 (expected_utf8_remaining sc));
      destruct (Z.eqb_spec (expected_utf8_remaining sc) 0);
      try reflexivity; lia.
Qed.

Lemma Legacy_validator_is_converter_witness :
  success (ConvertUTF8ToUTF16 64 [0xC0; 0x80] [0; 0; 0; 0] true)
  = Legacy.IsUTF8Valid [0xC0; 0x80].
Proof.
  apply (Legacy_validator_is_converter 64 [0xC0; 0x80] [0; 0; 0; 0] true).
  vm_compute. split; discriminate.
Defined.

Lemma IsUTF8Valid_body_Legacy (octet : Z) (sc : Scan) :
  not_C0_C1 octet = true -> octet < 0xF5 ->
  IsUTF8Valid_body octet sc = Legacy.IsUTF8Valid_body octet sc.
Proof.
  unfold not_C0_C1, IsUTF8Valid_body, Legacy.IsUTF8Valid_body.
  intros H1 H2. apply negb_true_iff in H1. rewrite H1.
  destruct (Z.leb_spec 0xF5 octet); [lia | reflexivity].
Qed.

Lemma IsUTF8Valid_loop_Legacy (input : list Z) :
  Forall (fun b => not_C0_C1 b = true /\ b < 0xF5) input ->
  forall sc : Scan,
    IsUTF8Valid_loop input sc = Legacy.IsUTF8Valid_loop input sc.
Proof.
  induction 1 as [|octet rest [H1 H2] Hrest IH]; intros sc; [reflexivity|].
  cbn [IsUTF8Valid_loop Legacy.IsUTF8Valid_loop].
  rewrite IsUTF8Valid_body_Legacy by assumption.
  destruct (Legacy.IsUTF8Valid_body octet sc); [apply IH | reflexivity].
Qed.

Lemma Legacy_IsUTF8Valid_beyond_F4 (b : Z) (input : list Z) :
  In b input -> 0xF5 <= b <= 0xFF -> Legacy.IsUTF8Valid input = false.
Proof.
  intros Hin Hb. unfold Legacy.IsUTF8Valid.
  destruct input as [|o rest]; [contradiction|]. cbn [length Nat.eqb].
  rewrite (Legacy_IsUTF8Valid_loop_stream true).
  pose proof (beyond_F4_rejected true b (o :: rest) Hin Hb (mkScan 0 0))
    as Hrej.
  destruct (fst (ConvertUTF8ToUTF16_stream true (o :: rest) (mkScan 0 0)))
    as [sc|sc]; [|reflexivity].
  simpl in Hrej. apply Z.eqb_neq. lia.
Qed.

Lemma IsUTF8Valid_Legacy_split (input : list Z) :
  Forall is_octet input ->
  IsUTF8Valid input = Legacy.IsUTF8Valid input && forallb not_C0_C1 input.
Proof.
  intros Hoct.
  destruct (forallb (fun b => not_C0_C1 b && (b <? 0xF5)) input) eqn:Hall.
  - rewrite forallb_forall in Hall.
    assert (Hgood : Forall (fun b => not_C0_C1 b = true /\ b < 0xF5) input).
    { apply Forall_forall. intros b Hb. specialize (Hall b Hb).
      apply andb_true_iff in Hall. destruct Hall as [H1 H2].
      apply Z.ltb_lt in H2. auto. }
    assert (Hno : forallb not_C0_C1 input = true).
    { apply forallb_forall. intros b Hb. specialize (Hall b Hb).
      apply andb_true_iff in Hall. tauto. }
    rewrite Hno, andb_true_r.
    unfold IsUTF8Valid, Legacy.IsUTF8Valid.
    rewrite IsUTF8Valid_loop_Legacy by exact Hgood. reflexivity.
  - assert (Hbad : exists b, In b input
                             /\ (not_C0_C1 b = false \/ 0xF5 <= b)).
    { clear Hoct. induction input as [|o rest IH]; [discriminate|].
      cbn [forallb] in Hall. apply andb_false_iff in Hall.
      destruct Hall as [Ho | Hrest].
      - exists o. split; [left; reflexivity|].
        apply andb_false_iff in Ho. destruct Ho as [Ho | Ho];
          [left; exact Ho | right; apply Z.ltb_ge; exact Ho].
      - destruct (IH Hrest) as (b & Hb & Hc). exists b.
        split; [right; exact Hb | exact Hc]. }
    destruct Hbad as (b & Hin & Hb).
    rewrite Forall_forall in Hoct. pose proof (Hoct b Hin) as Hrange.
    unfold is_octet in Hrange.
    assert (Hnew : IsUTF8Valid input = false).
    { apply (IsUTF8Valid_rejects b); [exact Hin|].
      destruct Hb as [Hb | Hb]; [|tauto].
      unfold not_C0_C1 in Hb. apply negb_false_iff in Hb. ranges. tauto. }
    rewrite Hnew. symmetry. apply andb_false_iff.
    destruct Hb as [Hb | Hb].
    + right. destruct (forallb not_C0_C1 input) eqn:Hf; [|reflexivity].
      rewrite forallb_forall in Hf. rewrite (Hf b Hin) in Hb. discriminate.
    + left. apply (Legacy_IsUTF8Valid_beyond_F4 b); [exact Hin | lia].
Qed.

(** X6: on sequences of octets, [IsUTF8Valid] accepts exactly what the
    validator of character_utilities.cpp accepts and what holds neither 0xC0
    nor 0xC1.  The test for octets from 0xF5 up that it also makes rejects
    nothing that the scan would not reject. *)
Theorem IsUTF8Valid_is_Legacy_without_C0_C1 (input : list Z) :
  Forall is_octet input ->
  IsUTF8Valid input = Legacy.IsUTF8Valid input && forallb not_C0_C1 input.
Proof. exact (IsUTF8Valid_Legacy_split input). Qed.

Lemma IsUTF8Valid_is_Legacy_without_C0_C1_witness :
  IsUTF8Valid [0xC1; 0xBF; 0xF4; 0x8F; 0xBF; 0xBF]
  = Legacy.IsUTF8Valid [0xC1; 0xBF; 0xF4; 0x8F; 0xBF; 0xBF]
    && forallb not_C0_C1 [0xC1; 0xBF; 0xF4; 0x8F; 0xBF; 0xBF].
Proof.
  apply (IsUTF8Valid_is_Legacy_without_C0_C1
           [0xC1; 0xBF; 0xF4; 0x8F; 0xBF; 0xBF]).
  repeat constructor; unfold is_octet; lia.
Defined.

(** ** What [ConvertUTF8ToUTF16] writes is well-formed UTF-16 *)

Lemma code_units_code_unit (little_endian : bool) (u : Z) (tail : list Z) :
  0 <= u <= 0xffff ->
  code_units little_endian (code_unit_octets little_endian u ++ tail)
  = u :: code_units little_endian tail.
Proof.
  intros Hu.
  destruct (Extract_code_unit little_endian u tail Hu) as (p0 & p1 & -> & <-).
  reflexivity.
Qed.

Lemma well_paired_scalar (u : Z) (rest : list Z) :
  in_surrogate_range u = false ->
  well_paired (u :: rest) = well_paired rest.
Proof.
  intros Hs. cbn [well_paired]. rewrite surrogate_cases in Hs.
  apply orb_false_iff in Hs. destruct Hs as [-> ->]. reflexivity.
Qed.

Lemma well_paired_pair (h l : Z) (rest : list Z) :
  in_high_surrogate_range h = true -> in_low_surrogate_range l = true ->
  well_paired (h :: l :: rest) = well_paired rest.
Proof. intros Hh Hl. cbn [well_paired]. rewrite Hh, Hl. reflexivity. Qed.

Lemma utf16_octets_well_paired (little_endian : bool) (c : Z)
    (tail : list Z) :
  0 <= c <= 0x10ffff -> in_surrogate_range c = false ->
  well_paired (code_units little_endian (utf16_octets little_endian c ++ tail))
  = well_paired (code_units little_endian tail).
Proof.
  intros Hc Hs. destruct (Z.leb_spec c 0xffff) as [Hbmp | Hsup].
  - rewrite utf16_octets_bmp, code_units_code_unit by lia.
    apply well_paired_scalar. exact Hs.
  - rewrite utf16_octets_pair by lia. rewrite <- app_assoc.
    rewrite !code_units_code_unit by euclid.
    apply well_paired_pair; ranges; euclid.
Qed.

Lemma assembled_nonneg (wide octet : Z) :
  0 <= Z.lor (wrap32 (Z.shiftl wide 6)) (Z.land octet 0x3f).
Proof.
  apply Z.lor_nonneg. split.
  - unfold wrap32. apply Z.mod_pos_bound. reflexivity.
  - rewrite land_3f. apply Z.mod_pos_bound. reflexivity.
Qed.

Lemma ConvertUTF8ToUTF16_written_well_paired (little_endian : bool)
    (octet : Z) (sc : Scan) (tail : list Z) :
  is_octet octet ->
  well_paired
    (code_units little_endian
       (snd (ConvertUTF8ToUTF16_written little_endian octet sc) ++ tail))
  = well_paired (code_units little_endian tail).
Proof.
  intros Ho. unfold is_octet in Ho. unfold ConvertUTF8ToUTF16_written.
  pose proof (assembled_nonneg (wide_character sc) octet) as Hnn.
  repeat match goal with
         | |- context [if ?c then _ else _] => destruct c eqn:?
         end; cbn [snd app]; try reflexivity.
  - apply utf16_octets_well_paired; [ranges; lia | assumption].
  - rewrite code_units_code_unit by lia.
    apply well_paired_scalar. ranges. lia.
Qed.

Lemma ConvertUTF8ToUTF16_stream_well_paired (little_endian : bool)
    (input : list Z) :
  Forall is_octet input ->
  forall sc : Scan,
    well_paired
      (code_units little_endian
         (snd (ConvertUTF8ToUTF16_stream little_endian input sc))) = true.
Proof.
  induction 1 as [|octet rest Ho Hrest IH]; intros sc; [reflexivity|].
  cbn [ConvertUTF8ToUTF16_stream].
  pose proof (fun tail => ConvertUTF8ToUTF16_written_well_paired
                            little_endian octet sc tail Ho) as Hw.
  destruct (ConvertUTF8ToUTF16_written little_endian octet sc)
    as [[sc'|sc'] e]; cbn [snd] in *.
  - specialize (IH sc').
    destruct (ConvertUTF8ToUTF16_stream little_endian rest sc') as [r e'].
    cbn [snd] in *. rewrite Hw. exact IH.
  - specialize (Hw []). rewrite app_nil_r in Hw. rewrite Hw. reflexivity.
Qed.

(** X7: what [ConvertUTF8ToUTF16] writes is well-formed UTF-16 in the byte
    order asked for: after a successful conversion of a sequence of octets
    into a span of sufficient capacity, every code unit of the output in
    0xD800..0xDBFF is followed by one in 0xDC00..0xDFFF, and no code unit in
    0xDC00..0xDFFF stands without one. *)
Theorem ConvertUTF8ToUTF16_well_formed (size_bits : Z)
    (input output : list Z) (little_endian : bool) :
  Forall is_octet input ->
  2 * Z.of_nat (length input) <= Z.of_nat (length output)
    <= SIZE_MAX size_bits ->
  let r := ConvertUTF8ToUTF16 size_bits input output little_endian in
  let written := firstn (Z.to_nat (octets r)) (buffer r) in
  success r = true ->
  well_paired (code_units little_endian written) = true
  /\ ~ lone_low_surrogate (code_units little_endian written)
  /\ ~ unpaired_high_surrogate (code_units little_endian written).
Proof.
  intros Hoct Hcap.
  pose proof (ConvertUTF8ToUTF16_written_spec size_bits input output
                little_endian Hcap) as H.
  pose proof (ConvertUTF8ToUTF16_stream_well_paired little_endian input Hoct
                (mkScan 0 0)) as Hwp.
  destruct (ConvertUTF8ToUTF16_stream little_endian input (mkScan 0 0))
    as [fl e].
  cbn [snd] in Hwp. destruct H as (Hfit & Hfirst & ->). cbv zeta.
  destruct fl as [sc|sc]; [|discriminate].
  destruct (0 <? expected_utf8_remaining sc); [discriminate|].
  cbn [success octets buffer]. rewrite Nat2Z.id, Hfirst. intros _.
  split; [exact Hwp | apply well_paired_sound; exact Hwp].
Qed.

Lemma ConvertUTF8ToUTF16_well_formed_witness :
  let r := ConvertUTF8ToUTF16 64 [0xF0; 0x90; 0x90; 0xB7; 0x41]
             (repeat 0 10) true in
  let written := firstn (Z.to_nat (octets r)) (buffer r) in
  well_paired (code_units true written) = true
  /\ ~ lone_low_surrogate (code_units true written)
  /\ ~ unpaired_high_surrogate (code_units true written).
Proof.
  apply (ConvertUTF8ToUTF16_well_formed 64 [0xF0; 0x90; 0x90; 0xB7; 0x41]
           (repeat 0 10) true).
  - repeat constructor; unfold is_octet; lia.
  - vm_compute. split; discriminate.
  - reflexivity.
Defined.

(** ** What [ConvertUTF16ToUTF8] writes is valid UTF-8, and converts back *)

Lemma lead2_scanned (b : Z) (sc : Scan) :
  0xC2 <= b <= 0xDF -> expected_utf8_remaining sc = 0 ->
  IsUTF8Valid_body b sc = Continue (mkScan 1 (b - 0xC0)).
Proof.
  intros Hb Hrem. assert (Ho : is_octet b) by (unfold is_octet; lia).
  unfold IsUTF8Valid_body.
  rewrite Hrem, (land_e0 _ Ho), land_3f. cbn [Z.ltb Z.compare].
  destruct ((b =? 0xc0) || (b =? 0xc1)) eqn:H1; [exfalso; ranges; lia|].
  destruct (Z.leb_spec 0xF5 b); [lia|].
  destruct (Z.leb_spec b 0x7f); [lia|].
  destruct (Z.eqb_spec (32 * (b / 32)) 0xc0) as [_ | Hne];
    [|exfalso; apply Hne; euclid].
  do 2 f_equal. euclid.
Qed.

Lemma lead3_scanned (b : Z) (sc : Scan) :
  0xE0 <= b <= 0xEF -> expected_utf8_remaining sc = 0 ->
  IsUTF8Valid_body b sc = Continue (mkScan 2 (b - 0xE0)).
Proof.
  intros Hb Hrem. assert (Ho : is_octet b) by (unfold is_octet; lia).
  unfold IsUTF8Valid_body.
  rewrite Hrem, (land_e0 _ Ho), (land_f0 _ Ho), land_0f.
  cbn [Z.ltb Z.compare].
  destruct ((b =? 0xc0) || (b =? 0xc1)) eqn:H1; [exfalso; ranges; lia|].
  destruct (Z.leb_spec 0xF5 b); [lia|].
  destruct (Z.leb_spec b 0x7f); [lia|].
  destruct (Z.eqb_spec (32 * (b / 32)) 0xc0) as [He | _];
    [exfalso; euclid|].
  destruct (Z.eqb_spec (16 * (b / 16)) 0xe0) as [_ | Hne];
    [|exfalso; apply Hne; euclid].
  do 2 f_equal. euclid.
Qed.

Lemma lead4_scanned (b : Z) (sc : Scan) :
  0xF0 <= b <= 0xF4 -> expected_utf8_remaining sc = 0 ->
  IsUTF8Valid_body b sc = Continue (mkScan 3 (b - 0xF0)).
Proof.
  intros Hb Hrem. assert (Ho : is_octet b) by (unfold is_octet; lia).
  unfold IsUTF8Valid_body.
  rewrite Hrem, (land_e0 _ Ho), (land_f0 _ Ho), (land_f8 _ Ho), land_07.
  cbn [Z.ltb Z.compare].
  destruct ((b =? 0xc0) || (b =? 0xc1)) eqn:H1; [exfalso; ranges; lia|].
  destruct (Z.leb_spec 0xF5 b); [lia|].
  destruct (Z.leb_spec b 0x7f); [lia|].
  destruct (Z.eqb_spec (32 * (b / 32)) 0xc0) as [He | _];
    [exfalso; euclid|].
  destruct (Z.eqb_spec (16 * (b / 16)) 0xe0) as [He | _];
    [exfalso; euclid|].
  destruct (Z.eqb_spec (8 * (b / 8)) 0xf0) as [_ | Hne];
    [|exfalso; apply Hne; euclid].
  do 2 f_equal. euclid.
Qed.

Lemma ascii_scanned (b : Z) (sc : Scan) :
  0 <= b <= 0x7f -> expected_utf8_remaining sc = 0 ->
  IsUTF8Valid_body b sc = Continue sc.
Proof.
  intros Hb Hrem. unfold IsUTF8Valid_body.
  rewrite Hrem. cbn [Z.ltb Z.compare].
  destruct ((b =? 0xc0) || (b =? 0xc1)) eqn:H1; [exfalso; ranges; lia|].
  destruct (Z.leb_spec 0xF5 b); [lia|].
  destruct (Z.leb_spec b 0x7f); [reflexivity | lia].
Qed.

Lemma continuation_scanned (b : Z) (sc : Scan) (remaining wide : Z) :
  0x80 <= b <= 0xBF -> 0 < expected_utf8_remaining sc ->
  0 <= wide_character sc < 2 ^ 21 ->
  remaining = expected_utf8_remaining sc - 1 ->
  wide = wide_character sc * 64 + (b - 0x80) ->
  (remaining = 0 -> wide <= 0x10ffff /\ in_surrogate_range wide = false) ->
  IsUTF8Valid_body b sc = Continue (mkScan remaining wide).
Proof.
  intros Hb Hrem Hw -> Hwide Hlast.
  assert (Ho : is_octet b) by (unfold is_octet; lia).
  unfold IsUTF8Valid_body.
  rewrite (land_c0 _ Ho), assemble by exact Hw.
  replace (b mod 64) with (b - 0x80) by euclid. rewrite <- Hwide.
  destruct ((b =? 0xc0) || (b =? 0xc1)) eqn:H1; [exfalso; ranges; lia|].
  destruct (Z.leb_spec 0xF5 b); [lia|].
  destruct (Z.ltb_spec 0 (expected_utf8_remaining sc)); [|lia].
  destruct (Z.eqb_spec (64 * (b / 64)) 0x80) as [_ | Hne];
    [|exfalso; apply Hne; euclid].
  cbn [negb].
  destruct (Z.eqb_spec (expected_utf8_remaining sc - 1) 0) as [E | _];
    [|reflexivity].
  destruct (Hlast E) as [Hmax Hsur]. rewrite Hsur.
  unfold Unicode.Maximum_Character_Value.
  destruct (Z.ltb_spec 0x10ffff wide); [lia | reflexivity].
Qed.

Lemma shortest_form_after (b : Z) (rest : list Z) :
  b <> 0xE0 -> b <> 0xF0 ->
  shortest_form (b :: rest) = shortest_form rest.
Proof.
  intros HE HF. cbn [shortest_form].
  apply Z.eqb_neq in HE, HF. rewrite HE, HF.
  destruct rest; reflexivity.
Qed.

Lemma shortest_form_lead (b c : Z) (rest : list Z) :
  (b = 0xE0 -> 0xA0 <= c) -> (b = 0xF0 -> 0x90 <= c) ->
  shortest_form (b :: c :: rest) = shortest_form (c :: rest).
Proof.
  intros HE HF.
  change (shortest_form (b :: c :: rest))
    with (negb ((b =? 0xE0) && (c <? 0xA0))
          && negb ((b =? 0xF0) && (c <? 0x90))
          && shortest_form (c :: rest)).
  assert (H1 : (b =? 0xE0) && (c <? 0xA0) = false) by (ranges; lia).
  assert (H2 : (b =? 0xF0) && (c <? 0x90) = false) by (ranges; lia).
  rewrite H1, H2. reflexivity.
Qed.

Lemma Some_inj (A : Type) (x y : A) : Some x = Some y -> x = y.
Proof. congruence. Qed.

Ltac written_step le H :=
  match type of H with
  | IsUTF8Valid_body ?b ?sc = Continue ?sc' =>
      rewrite (ConvertUTF8ToUTF16_stream_cons le b _ sc sc' _
                 (continuation_written le b sc sc'
                    ltac:(cbn [expected_utf8_remaining]; lia) H))
  end.

Ltac open_step :=
  apply continuation_scanned;
  cbn [expected_utf8_remaining wide_character];
  [euclid | lia | euclid | reflexivity | euclid | intros; lia].

Ltac last_step Hc Hs :=
  apply continuation_scanned;
  cbn [expected_utf8_remaining wide_character];
  [euclid | lia | euclid | reflexivity | euclid
  | intros _; split; [apply Hc | exact Hs]].

Lemma IsUTF8Valid_loop_cons (octet : Z) (rest : list Z) (sc sc' : Scan) :
  IsUTF8Valid_body octet sc = Continue sc' ->
  IsUTF8Valid_loop (octet :: rest) sc = IsUTF8Valid_loop rest sc'.
Proof. intros H. cbn [IsUTF8Valid_loop]. rewrite H. reflexivity. Qed.

(** The UTF-8 octets of a code point are scanned as one character: the scan
    comes out between sequences, and the converter has written the UTF-16
    octets of the code point. *)
Lemma encoded_scanned (c : Z) (ch rest : list Z) (sc : Scan) :
  0 <= c <= 0x10ffff -> in_surrogate_range c = false ->
  utf8_octets c = Some ch -> expected_utf8_remaining sc = 0 ->
  exists sc' : Scan,
    expected_utf8_remaining sc' = 0
    /\ IsUTF8Valid_loop (ch ++ rest) sc = IsUTF8Valid_loop rest sc'
    /\ shortest_form (ch ++ rest) = shortest_form rest
    /\ forall little_endian : bool,
         ConvertUTF8ToUTF16_stream little_endian (ch ++ rest) sc
         = (fst (ConvertUTF8ToUTF16_stream little_endian rest sc'),
            utf16_octets little_endian c
            ++ snd (ConvertUTF8ToUTF16_stream little_endian rest sc')).
Proof.
  intros Hc Hs Hch Hrem.
  destruct (Z.leb_spec c 0x7f) as [H1 | H1];
    [|destruct (Z.leb_spec c 0x7ff) as [H2 | H2];
      [|destruct (Z.leb_spec c 0xffff) as [H3 | H3]]].
  - (* one octet *)
    rewrite utf8_octets_1 in Hch by lia. apply Some_inj in Hch. subst ch.
    pose proof (ascii_scanned c sc ltac:(lia) Hrem) as H0.
    exists sc. split; [exact Hrem|].
    rewrite <- !app_comm_cons, app_nil_l.
    split; [apply IsUTF8Valid_loop_cons, H0|].
    split; [apply shortest_form_after; lia|].
    intros le.
    rewrite (ConvertUTF8ToUTF16_stream_cons le c rest sc sc _
               (lead_written le c sc sc Hrem H0)).
    rewrite utf16_octets_bmp by lia.
    destruct (Z.leb_spec c 0x7f); [reflexivity | lia].
  - (* two octets *)
    rewrite utf8_octets_2 in Hch by lia. apply Some_inj in Hch. subst ch.
    assert (H0 : IsUTF8Valid_body (0xC0 + c / 64) sc
                 = Continue (mkScan 1 (c / 64))).
    { rewrite lead2_scanned by (euclid || exact Hrem).
      do 2 f_equal. lia. }
    assert (Hb1 : IsUTF8Valid_body (0x80 + c mod 64) (mkScan 1 (c / 64))
                  = Continue (mkScan 0 c)) by last_step Hc Hs.
    exists (mkScan 0 c). split; [reflexivity|].
    rewrite <- !app_comm_cons, app_nil_l.
    split.
    { rewrite (IsUTF8Valid_loop_cons _ _ _ _ H0).
      apply IsUTF8Valid_loop_cons, Hb1. }
    split.
    { rewrite shortest_form_lead by (intros; euclid).
      rewrite shortest_form_after by euclid. reflexivity. }
    intros le.
    rewrite (ConvertUTF8ToUTF16_stream_cons le _ _ sc _ _
               (lead_written le _ sc _ Hrem H0)).
    written_step le Hb1.
    destruct (Z.leb_spec (0xC0 + c / 64) 0x7f); [euclid | reflexivity].
  - (* three octets *)
    rewrite utf8_octets_3 in Hch by lia. apply Some_inj in Hch. subst ch.
    assert (H0 : IsUTF8Valid_body (0xE0 + c / 4096) sc
                 = Continue (mkScan 2 (c / 4096))).
    { rewrite lead3_scanned by (euclid || exact Hrem).
      do 2 f_equal. lia. }
    assert (Hb1 : IsUTF8Valid_body (0x80 + (c / 64) mod 64)
                    (mkScan 2 (c / 4096))
                  = Continue (mkScan 1 (c / 64))) by open_step.
    assert (Hb2 : IsUTF8Valid_body (0x80 + c mod 64) (mkScan 1 (c / 64))
                  = Continue (mkScan 0 c)) by last_step Hc Hs.
    exists (mkScan 0 c). split; [reflexivity|].
    rewrite <- !app_comm_cons, app_nil_l.
    split.
    { rewrite (IsUTF8Valid_loop_cons _ _ _ _ H0).
      rewrite (IsUTF8Valid_loop_cons _ _ _ _ Hb1).
      apply IsUTF8Valid_loop_cons, Hb2. }
    split.
    { rewrite shortest_form_lead by (intros; euclid).
      rewrite !shortest_form_after by euclid. reflexivity. }
    intros le.
    rewrite (ConvertUTF8ToUTF16_stream_cons le _ _ sc _ _
               (lead_written le _ sc _ Hrem H0)).
    written_step le Hb1.
    written_step le Hb2.
    destruct (Z.leb_spec (0xE0 + c / 4096) 0x7f); [euclid | reflexivity].
  - (* four octets *)
    rewrite utf8_octets_4 in Hch by lia. apply Some_inj in Hch. subst ch.
    assert (H0 : IsUTF8Valid_body (0xF0 + c / 262144) sc
                 = Continue (mkScan 3 (c / 262144))).
    { rewrite lead4_scanned by (euclid || exact Hrem).
      do 2 f_equal. lia. }
    assert (Hb1 : IsUTF8Valid_body (0x80 + (c / 4096) mod 64)
                    (mkScan 3 (c / 262144))
                  = Continue (mkScan 2 (c / 4096))) by open_step.
    assert (Hb2 : IsUTF8Valid_body (0x80 + (c / 64) mod 64)
                    (mkScan 2 (c / 4096))
                  = Continue (mkScan 1 (c / 64))) by open_step.
    assert (Hb3 : IsUTF8Valid_body (0x80 + c mod 64) (mkScan 1 (c / 64))
                  = Continue (mkScan 0 c)) by last_step Hc Hs.
    exists (mkScan 0 c). split; [reflexivity|].
    rewrite <- !app_comm_cons, app_nil_l.
    split.
    { rewrite (IsUTF8Valid_loop_cons _ _ _ _ H0).
      rewrite (IsUTF8Valid_loop_cons _ _ _ _ Hb1).
      rewrite (IsUTF8Valid_loop_cons _ _ _ _ Hb2).
      apply IsUTF8Valid_loop_cons, Hb3. }
    split.
    { rewrite shortest_form_lead by (intros; euclid).
      rewrite !shortest_form_after by euclid. reflexivity. }
    intros le.
    rewrite (ConvertUTF8ToUTF16_stream_cons le _ _ sc _ _
               (lead_written le _ sc _ Hrem H0)).
    written_step le Hb1.
    written_step le Hb2.
    written_step le Hb3.
    destruct (Z.leb_spec (0xF0 + c / 262144) 0x7f); [euclid | reflexivity].
Qed.

Lemma code_unit_octets_Extract (little_endian : bool) (p0 p1 : Z) :
  is_octet p0 -> is_octet p1 ->
  code_unit_octets little_endian (Extract little_endian p0 p1) = [p0; p1].
Proof.
  intros H0 H1.
  rewrite code_unit_octets_eq by apply Extract_range.
  rewrite Extract_eq by assumption.
  unfold is_octet in *. destruct little_endian; octets_eq.
Qed.

Lemma high_surrogate_bounds (u : Z) :
  in_surrogate_range u = true -> in_low_surrogate_range u = false ->
  0xD800 <= u <= 0xDBFF.
Proof. intros H1 H2. ranges. lia. Qed.

Lemma low_surrogate_bounds (u : Z) :
  (u <? Unicode.Surrogate_Low_Min) = false ->
  (Unicode.Surrogate_Low_Max <? u) = false ->
  0xDC00 <= u <= 0xDFFF.
Proof. intros H1 H2. ranges. lia. Qed.

Lemma not_surrogate_above (c : Z) : 0x10000 <= c -> in_surrogate_range c = false.
Proof. intros H. ranges. lia. Qed.

(** What [ConvertUTF16ToUTF8] writes for octets it accepts is accepted by
    the UTF-8 scan, is in shortest form, and is converted back to the same
    UTF-16 octets. *)
Lemma ConvertUTF16ToUTF8_stream_converts_back (little_endian : bool) :
  forall (n : nat) (u e : list Z),
    (length u <= n)%nat -> Forall is_octet u ->
    ConvertUTF16ToUTF8_stream little_endian u = (None, e) ->
    forall sc : Scan,
      expected_utf8_remaining sc = 0 ->
      exists sc' : Scan,
        expected_utf8_remaining sc' = 0
        /\ IsUTF8Valid_loop e sc = Continue sc'
        /\ shortest_form e = true
        /\ ConvertUTF8ToUTF16_stream little_endian e sc = (Continue sc', u).
Proof.
  induction n as [|n IH]; intros u e Hlen Hoct;
    destruct u as [|p0 [|p1 rest]]; simpl in Hlen; try lia;
    cbn [ConvertUTF16ToUTF8_stream]; try discriminate;
    try (intros H sc Hrem; apply pair_equal_spec in H; destruct H as [_ <-];
         exists sc; repeat split; assumption).
  apply Forall_cons_iff in Hoct. destruct Hoct as [Hp0 Hoct].
  apply Forall_cons_iff in Hoct. destruct Hoct as [Hp1 Hrest].
  pose proof (Extract_range little_endian p0 p1) as Hr.
  pose proof (code_unit_octets_Extract little_endian p0 p1 Hp0 Hp1) as Hcu.
  remember (Extract little_endian p0 p1) as ch eqn:Ech.
  destruct (in_surrogate_range ch) eqn:Hs.
  - destruct (in_low_surrogate_range ch) eqn:Hl; [discriminate|].
    destruct rest as [|p2 [|p3 rest']]; try discriminate.
    apply Forall_cons_iff in Hrest. destruct Hrest as [Hp2 Hrest].
    apply Forall_cons_iff in Hrest. destruct Hrest as [Hp3 Hrest2].
    pose proof (code_unit_octets_Extract little_endian p2 p3 Hp2 Hp3) as Hcl.
    remember (Extract little_endian p2 p3) as low eqn:Elow.
    destruct (low <? Unicode.Surrogate_Low_Min) eqn:L1; [discriminate|].
    destruct (Unicode.Surrogate_Low_Max <? low) eqn:L2; [discriminate|].
    cbn [orb].
    pose proof (high_surrogate_bounds _ Hs Hl) as Bh.
    pose proof (low_surrogate_bounds _ L1 L2) as Bl.
    rewrite surrogate_pair_value_eq by assumption.
    remember (0x10000 + (ch - 0xD800) * 1024 + (low - 0xDC00)) as c eqn:Ec.
    destruct (utf8_octets c) as [e1|] eqn:He1; [|discriminate].
    destruct (ConvertUTF16ToUTF8_stream little_endian rest') as [r e'] eqn:Hst.
    intros H sc Hrem. apply pair_equal_spec in H. destruct H as [-> <-].
    destruct (encoded_scanned c e1 e' sc ltac:(lia)
                (not_surrogate_above c ltac:(lia)) He1 Hrem)
      as (sc1 & Hrem1 & Hloop1 & Hsf1 & Hst1).
    destruct (IH rest' e' ltac:(simpl in Hlen; lia) Hrest2 Hst sc1 Hrem1)
      as (sc2 & Hrem2 & Hloop2 & Hsf2 & Hst2).
    exists sc2. split; [exact Hrem2|].
    split; [rewrite Hloop1; exact Hloop2|].
    split; [rewrite Hsf1; exact Hsf2|].
    rewrite Hst1, Hst2. cbn [fst snd]. f_equal.
    rewrite utf16_octets_pair by lia.
    replace (0xD7C0 + c / 1024) with ch by euclid.
    replace (0xDC00 + c mod 1024) with low by euclid.
    rewrite Hcu, Hcl. reflexivity.
  - destruct (utf8_octets ch) as [e1|] eqn:He1; [|discriminate].
    destruct (ConvertUTF16ToUTF8_stream little_endian rest) as [r e'] eqn:Hst.
    intros H sc Hrem. apply pair_equal_spec in H. destruct H as [-> <-].
    destruct (encoded_scanned ch e1 e' sc ltac:(lia) Hs He1 Hrem)
      as (sc1 & Hrem1 & Hloop1 & Hsf1 & Hst1).
    destruct (IH rest e' ltac:(lia) Hrest Hst sc1 Hrem1)
      as (sc2 & Hrem2 & Hloop2 & Hsf2 & Hst2).
    exists sc2. split; [exact Hrem2|].
    split; [rewrite Hloop1; exact Hloop2|].
    split; [rewrite Hsf1; exact Hsf2|].
    rewrite Hst1, Hst2. cbn [fst snd]. f_equal.
    rewrite utf16_octets_bmp by lia. rewrite Hcu. reflexivity.
Qed.

(** X8: whatever [ConvertUTF16ToUTF8] writes when it succeeds is UTF-8 that
    [IsUTF8Valid] accepts, with no three- or four-octet sequence longer than
    the shortest form. *)
Theorem ConvertUTF16ToUTF8_writes_valid_UTF8 (size_bits : Z)
    (input output : list Z) (little_endian : bool) :
  0 < size_bits -> size_bits mod 4 = 0 ->
  Forall is_octet input ->
  let r := ConvertUTF16ToUTF8 size_bits input output little_endian in
  success r = true ->
  let utf8 := firstn (Z.to_nat (octets r)) (buffer r) in
  IsUTF8Valid utf8 = true /\ shortest_form utf8 = true.
Proof.
  intros Hpos H4 Hoct r Hok. subst r.
  destruct (ConvertUTF16ToUTF8_success_written size_bits input output
              little_endian Hpos H4 Hok) as (e & Hst & Hr & Hfit & Hfirst).
  rewrite Hr. cbn [octets buffer]. rewrite Nat2Z.id, Hfirst.
  destruct (ConvertUTF16ToUTF8_stream_converts_back
              (detect_byte_order input little_endian) (length input) input e
              (le_n _) Hoct Hst (mkScan 0 0) eq_refl)
    as (sc' & Hrem & Hloop & Hsf & _).
  split; [|exact Hsf].
  unfold IsUTF8Valid. destruct e as [|b e]; [reflexivity|].
  cbn [length Nat.eqb]. rewrite Hloop. apply Z.eqb_eq. exact Hrem.
Qed.

Lemma ConvertUTF16ToUTF8_writes_valid_UTF8_witness :
  let r := ConvertUTF16ToUTF8 64
             [0xFE; 0xFF; 0x00; 0x48; 0x20; 0xAC; 0xD8; 0x3D; 0xDE; 0x00]
             (repeat 0 15) true in
  let utf8 := firstn (Z.to_nat (octets r)) (buffer r) in
  IsUTF8Valid utf8 = true /\ shortest_form utf8 = true.
Proof.
  apply (ConvertUTF16ToUTF8_writes_valid_UTF8 64
           [0xFE; 0xFF; 0x00; 0x48; 0x20; 0xAC; 0xD8; 0x3D; 0xDE; 0x00]
           (repeat 0 15) true);
    try reflexivity.
  repeat constructor; unfold is_octet; lia.
Defined.

(** X9: the round trip from UTF-16: when [ConvertUTF16ToUTF8] succeeds,
    converting the octets it wrote with [ConvertUTF8ToUTF16], in the byte
    order the first conversion read its input in (the one a leading byte
    order mark names, else the one requested) and into an output span of
    sufficient capacity, succeeds and gives exactly the original octets, a
    leading byte order mark included. *)
Theorem utf16_utf8_round_trip (size_bits : Z) (utf16 out8 out16 : list Z)
    (little_endian : bool) :
  0 < size_bits -> size_bits mod 4 = 0 ->
  Forall is_octet utf16 ->
  let r8 := ConvertUTF16ToUTF8 size_bits utf16 out8 little_endian in
  success r8 = true ->
  let utf8 := firstn (Z.to_nat (octets r8)) (buffer r8) in
  2 * Z.of_nat (length utf8) <= Z.of_nat (length out16)
    <= SIZE_MAX size_bits ->
  let r16 := ConvertUTF8ToUTF16 size_bits utf8 out16
               (detect_byte_order utf16 little_endian) in
  success r16 = true /\ octets r16 = Z.of_nat (length utf16)
  /\ firstn (Z.to_nat (octets r16)) (buffer r16) = utf16.
Proof.
  intros Hpos H4 Hoct r8 Hok. subst r8.
  destruct (ConvertUTF16ToUTF8_success_written size_bits utf16 out8
              little_endian Hpos H4 Hok) as (e & Hst & Hr & Hfit & Hfirst).
  rewrite Hr. cbn [octets buffer]. rewrite Nat2Z.id, Hfirst.
  intros Hcap.
  destruct (ConvertUTF16ToUTF8_stream_converts_back
              (detect_byte_order utf16 little_endian) (length utf16) utf16 e
              (le_n _) Hoct Hst (mkScan 0 0) eq_refl)
    as (sc' & Hrem & _ & _ & Hback).
  pose proof (ConvertUTF8ToUTF16_written_spec size_bits e out16
                (detect_byte_order utf16 little_endian) Hcap) as H16.
  rewrite Hback in H16. destruct H16 as (Hfit16 & Hfirst16 & Hr16).
  rewrite Hrem in Hr16. cbn [Z.ltb Z.compare] in Hr16.
  rewrite Hr16. cbn [octets buffer success]. rewrite Nat2Z.id.
  repeat split. exact Hfirst16.
Qed.

Lemma utf16_utf8_round_trip_witness :
  let utf16 := [0xFE; 0xFF; 0x00; 0x48; 0x20; 0xAC; 0xD8; 0x3D; 0xDE; 0x00] in
  let r8 := ConvertUTF16ToUTF8 64 utf16 (repeat 0 15) true in
  let utf8 := firstn (Z.to_nat (octets r8)) (buffer r8) in
  let r16 := ConvertUTF8ToUTF16 64 utf8 (repeat 0 24)
               (detect_byte_order utf16 true) in
  success r16 = true /\ octets r16 = Z.of_nat (length utf16)
  /\ firstn (Z.to_nat (octets r16)) (buffer r16) = utf16.
Proof.
  apply (utf16_utf8_round_trip 64
           [0xFE; 0xFF; 0x00; 0x48; 0x20; 0xAC; 0xD8; 0x3D; 0xDE; 0x00]
           (repeat 0 15) (repeat 0 24) true);
    try reflexivity.
  - repeat constructor; unfold is_octet; lia.
  - vm_compute. split; discriminate.
Defined.

(** ** Concatenation *)

Lemma same_scan_refl (sc : Scan) : same_scan sc sc.
Proof. split; intros; reflexivity. Qed.

Lemma same_flow_refl (r : Flow Scan) : same_flow r r.
Proof. destruct r; cbn; [apply same_scan_refl | exact I]. Qed.

Lemma same_scan_between (sc sc' : Scan) :
  expected_utf8_remaining sc = 0 -> expected_utf8_remaining sc' = 0 ->
  same_scan sc sc'.
Proof. intros H H'. split; [congruence | lia]. Qed.

Ltac same_branches :=
  repeat match goal with
         | |- same_flow (if ?c then _ else _) (if ?c then _ else _) =>
             destruct c
         end.

(** Between sequences the scan does not read [wide_character]. *)
Lemma IsUTF8Valid_body_same (octet : Z) (sc sc' : Scan) :
  same_scan sc sc' ->
  same_flow (IsUTF8Valid_body octet sc) (IsUTF8Valid_body octet sc').
Proof.
  intros [H1 H2]. unfold IsUTF8Valid_body. rewrite <- H1.
  destruct ((octet =? 0xc0) || (octet =? 0xc1)); [exact I|].
  destruct (0xF5 <=? octet); [exact I|].
  destruct (0 <? expected_utf8_remaining sc) eqn:Hopen.
  - rewrite <- H2 by (apply Z.ltb_lt; exact Hopen). cbv zeta.
    same_branches; try exact I; apply same_scan_refl.
  - same_branches; try exact I; try apply same_scan_refl.
    split; [exact H1 | exact H2].
Qed.

Lemma IsUTF8Valid_loop_same (octets : list Z) :
  forall sc sc' : Scan,
    same_scan sc sc' ->
    same_flow (IsUTF8Valid_loop octets sc) (IsUTF8Valid_loop octets sc').
Proof.
  induction octets as [|octet rest IH]; intros sc sc' H;
    cbn [IsUTF8Valid_loop]; [exact H|].
  pose proof (IsUTF8Valid_body_same octet sc sc' H) as Hb.
  destruct (IsUTF8Valid_body octet sc) as [s|s],
           (IsUTF8Valid_body octet sc') as [s'|s'];
    cbn in Hb; try contradiction; [apply IH; exact Hb | exact I].
Qed.

Lemma IsUTF8Valid_loop_app (a b : list Z) :
  forall sc : Scan,
    IsUTF8Valid_loop (a ++ b) sc
    = match IsUTF8Valid_loop a sc with
      | Continue sc' => IsUTF8Valid_loop b sc'
      | ReturnFalse sc' => ReturnFalse sc'
      end.
Proof.
  induction a as [|octet rest IH]; intros sc; [reflexivity|].
  rewrite <- app_comm_cons. cbn [IsUTF8Valid_loop].
  destruct (IsUTF8Valid_body octet sc); [apply IH | reflexivity].
Qed.

Lemma IsUTF8Valid_ends (octets : list Z) :
  IsUTF8Valid octets = true ->
  exists sc : Scan,
    IsUTF8Valid_loop octets (mkScan 0 0) = Continue sc
    /\ expected_utf8_remaining sc = 0.
Proof.
  unfold IsUTF8Valid.
  destruct octets as [|b octets]; [exists (mkScan 0 0); split; reflexivity|].
  cbn [length Nat.eqb].
  destruct (IsUTF8Valid_loop (b :: octets) (mkScan 0 0)) as [sc|sc];
    [|discriminate].
  intros H. exists sc. split; [reflexivity | apply Z.eqb_eq; exact H].
Qed.

Lemma IsUTF8Valid_unfolded (octets : list Z) :
  IsUTF8Valid octets
  = match IsUTF8Valid_loop octets (mkScan 0 0) with
    | ReturnFalse _ => false
    | Continue sc => expected_utf8_remaining sc =? 0
    end.
Proof. destruct octets; reflexivity. Qed.

(** X10: valid UTF-8 in front changes nothing: when [IsUTF8Valid] accepts
    [a], it accepts [a] followed by [b] exactly when it accepts [b]. *)
Theorem IsUTF8Valid_app (a b : list Z) :
  IsUTF8Valid a = true -> IsUTF8Valid (a ++ b) = IsUTF8Valid b.
Proof.
  intros Ha. destruct (IsUTF8Valid_ends a Ha) as (sc & Hloop & Hrem).
  rewrite !IsUTF8Valid_unfolded, IsUTF8Valid_loop_app, Hloop.
  pose proof (IsUTF8Valid_loop_same b sc (mkScan 0 0)
                (same_scan_between sc (mkScan 0 0) Hrem eq_refl)) as H.
  destruct (IsUTF8Valid_loop b sc) as [s|s],
           (IsUTF8Valid_loop b (mkScan 0 0)) as [s'|s'];
    cbn in H; try contradiction; [|reflexivity].
  destruct H as [H _]. rewrite H. reflexivity.
Qed.

Lemma IsUTF8Valid_app_witness :
  IsUTF8Valid ([0x48; 0xE2; 0x82; 0xAC] ++ [0xF0; 0x9F; 0x98])
  = IsUTF8Valid [0xF0; 0x9F; 0x98].
Proof. apply (IsUTF8Valid_app [0x48; 0xE2; 0x82; 0xAC]). reflexivity. Defined.

Lemma ConvertUTF8ToUTF16_written_same (little_endian : bool) (octet : Z)
    (sc sc' : Scan) :
  same_scan sc sc' ->
  same_flow (fst (ConvertUTF8ToUTF16_written little_endian octet sc))
            (fst (ConvertUTF8ToUTF16_written little_endian octet sc'))
  /\ snd (ConvertUTF8ToUTF16_written little_endian octet sc)
     = snd (ConvertUTF8ToUTF16_written little_endian octet sc').
Proof.
  intros [H1 H2]. unfold ConvertUTF8ToUTF16_written. rewrite <- H1.
  destruct (0 <? expected_utf8_remaining sc) eqn:Hopen.
  - rewrite <- H2 by (apply Z.ltb_lt; exact Hopen). cbv zeta.
    repeat match goal with
           | |- context [if ?c then _ else _] => destruct c
           end; cbn [fst snd same_flow];
      (split; [exact I || apply same_scan_refl | reflexivity]).
  - repeat match goal with
           | |- context [if ?c then _ else _] => destruct c
           end; cbn [fst snd same_flow];
      (split; [| reflexivity]);
      try exact I; try apply same_scan_refl.
    split; [exact H1 | exact H2].
Qed.

Lemma ConvertUTF8ToUTF16_stream_same (little_endian : bool)
    (input : list Z) :
  forall sc sc' : Scan,
    same_scan sc sc' ->
    same_flow (fst (ConvertUTF8ToUTF16_stream little_endian input sc))
              (fst (ConvertUTF8ToUTF16_stream little_endian input sc'))
    /\ snd (ConvertUTF8ToUTF16_stream little_endian input sc)
       = snd (ConvertUTF8ToUTF16_stream little_endian input sc').
Proof.
  induction input as [|octet rest IH]; intros sc sc' H;
    cbn [ConvertUTF8ToUTF16_stream]; [split; [exact H | reflexivity]|].
  destruct (ConvertUTF8ToUTF16_written_same little_endian octet sc sc' H)
    as [Hf He].
  destruct (ConvertUTF8ToUTF16_written little_endian octet sc) as [[s|s] e],
           (ConvertUTF8ToUTF16_written little_endian octet sc')
             as [[s'|s'] e'];
    cbn [fst snd same_flow] in Hf, He; try contradiction; subst e'.
  - destruct (IH s s' Hf) as [Hf' He'].
    destruct (ConvertUTF8ToUTF16_stream little_endian rest s) as [r1 e1],
             (ConvertUTF8ToUTF16_stream little_endian rest s') as [r2 e2].
    cbn [fst snd] in *. split; [exact Hf' | rewrite He'; reflexivity].
  - split; [exact I | reflexivity].
Qed.

Lemma ConvertUTF8ToUTF16_stream_app (little_endian : bool) (a b : list Z) :
  forall sc : Scan,
    ConvertUTF8ToUTF16_stream little_endian (a ++ b) sc
    = match ConvertUTF8ToUTF16_stream little_endian a sc with
      | (Continue sc', e) =>
          (fst (ConvertUTF8ToUTF16_stream little_endian b sc'),
           e ++ snd (ConvertUTF8ToUTF16_stream little_endian b sc'))
      | (ReturnFalse sc', e) => (ReturnFalse sc', e)
      end.
Proof.
  induction a as [|octet rest IH]; intros sc.
  - cbn [app ConvertUTF8ToUTF16_stream].
    destruct (ConvertUTF8ToUTF16_stream little_endian b sc). reflexivity.
  - rewrite <- app_comm_cons. cbn [ConvertUTF8ToUTF16_stream].
    destruct (ConvertUTF8ToUTF16_written little_endian octet sc)
      as [[s|s] e]; [|reflexivity].
    rewrite IH.
    destruct (ConvertUTF8ToUTF16_stream little_endian rest s) as [[s1|s1] e1];
      [|reflexivity].
    cbn [fst snd]. rewrite app_assoc. reflexivity.
Qed.

(** What the result of [ConvertUTF8ToUTF16] is, from the scan and the octets
    written. *)
Lemma ConvertUTF8ToUTF16_of_stream (size_bits : Z) (input output : list Z)
    (little_endian : bool) (r : Flow Scan) (e : list Z) :
  2 * Z.of_nat (length input) <= Z.of_nat (length output)
    <= SIZE_MAX size_bits ->
  ConvertUTF8ToUTF16_stream little_endian input (mkScan 0 0) = (r, e) ->
  (length e <= length output)%nat
  /\ firstn (length e) (blit output 0 e) = e
  /\ ConvertUTF8ToUTF16 size_bits input output little_endian
     = match r with
       | Continue sc =>
           if 0 <? expected_utf8_remaining sc
           then mkConversion false 0 (blit output 0 e)
           else mkConversion true (Z.of_nat (length e)) (blit output 0 e)
       | ReturnFalse _ => mkConversion false 0 (blit output 0 e)
       end.
Proof.
  intros Hcap Hst.
  pose proof (ConvertUTF8ToUTF16_written_spec size_bits input output
                little_endian Hcap) as H.
  rewrite Hst in H. exact H.
Qed.

(** X11: [ConvertUTF8ToUTF16] on a concatenation.  When it converts [a], it
    converts [a] followed by [b] exactly when it converts [b]; what it wrote
    for [a] is at the beginning of the output span in either case, and when
    [b] converts, what it wrote for [b] follows. *)
Theorem ConvertUTF8ToUTF16_app (size_bits : Z) (a b output : list Z)
    (little_endian : bool) :
  2 * Z.of_nat (length (a ++ b)) <= Z.of_nat (length output)
    <= SIZE_MAX size_bits ->
  let ra := ConvertUTF8ToUTF16 size_bits a output little_endian in
  let rb := ConvertUTF8ToUTF16 size_bits b output little_endian in
  let rab := ConvertUTF8ToUTF16 size_bits (a ++ b) output little_endian in
  success ra = true ->
  success rab = success rb
  /\ firstn (Z.to_nat (octets ra)) (buffer rab)
     = firstn (Z.to_nat (octets ra)) (buffer ra)
  /\ (success rb = true ->
      octets rab = octets ra + octets rb
      /\ firstn (Z.to_nat (octets rab)) (buffer rab)
         = firstn (Z.to_nat (octets ra)) (buffer ra)
           ++ firstn (Z.to_nat (octets rb)) (buffer rb)).
Proof.
  intros Hcap ra rb rab. subst ra rb rab.
  rewrite length_app in Hcap.
  destruct (ConvertUTF8ToUTF16_stream little_endian a (mkScan 0 0))
    as [fa ea] eqn:Ha.
  destruct (ConvertUTF8ToUTF16_stream little_endian b (mkScan 0 0))
    as [fb eb] eqn:Hb.
  destruct (ConvertUTF8ToUTF16_of_stream size_bits a output little_endian
              fa ea ltac:(lia) Ha) as (_ & Hfa & ->).
  destruct (ConvertUTF8ToUTF16_of_stream size_bits b output little_endian
              fb eb ltac:(lia) Hb) as (_ & Hfb & ->).
  destruct fa as [sca|sca]; [|discriminate].
  destruct (0 <? expected_utf8_remaining sca) eqn:Hopen; [discriminate|].
  intros _. apply Z.ltb_ge in Hopen.
  assert (Hrem : expected_utf8_remaining sca = 0).
  { pose proof (ConvertUTF8ToUTF16_stream_remaining little_endian a
                  (mkScan 0 0) ltac:(cbn; lia)) as Hnn.
    rewrite Ha in Hnn. cbn [fst] in Hnn. lia. }
  pose proof (ConvertUTF8ToUTF16_stream_app little_endian a b (mkScan 0 0))
    as Hab.
  rewrite Ha in Hab.
  destruct (ConvertUTF8ToUTF16_stream_same little_endian b sca (mkScan 0 0)
              (same_scan_between sca (mkScan 0 0) Hrem eq_refl))
    as [Hsame Hsnd].
  rewrite Hb in Hsame, Hsnd. cbn [fst snd] in Hsame, Hsnd.
  rewrite Hsnd in Hab.
  destruct (ConvertUTF8ToUTF16_of_stream size_bits (a ++ b) output
              little_endian _ _ ltac:(rewrite length_app; lia) Hab)
    as (_ & Hfab & ->).
  assert (Hprefix : firstn (length ea) (blit output 0 (ea ++ eb)) = ea).
  { assert (E : firstn (length ea)
                  (firstn (length (ea ++ eb)) (blit output 0 (ea ++ eb)))
                = ea).
    { rewrite Hfab, firstn_app, firstn_all, Nat.sub_diag.
      cbn [firstn]. apply app_nil_r. }
    rewrite firstn_firstn, length_app in E.
    replace (Nat.min (length ea) (length ea + length eb))
      with (length ea) in E by lia.
    exact E. }
  destruct (fst (ConvertUTF8ToUTF16_stream little_endian b sca))
    as [s|s], fb as [s'|s']; cbn [same_flow] in Hsame; try contradiction.
  - destruct Hsame as [Hs _]. rewrite Hs.
    destruct (0 <? expected_utf8_remaining s');
      cbn [success octets buffer]; rewrite !Nat2Z.id, Hfa, Hprefix;
      (split; [reflexivity|]); (split; [reflexivity|]);
      [discriminate|].
    intros _. rewrite Hfab, Hfb, length_app.
    split; [lia | reflexivity].
  - cbn [success octets buffer]. rewrite !Nat2Z.id, Hfa, Hprefix.
    split; [reflexivity|]. split; [reflexivity | discriminate].
Qed.

Lemma ConvertUTF8ToUTF16_app_witness :
  let a := [0x48; 0xE2; 0x82; 0xAC] in
  let b := [0xF0; 0x9F; 0x98; 0x80] in
  let ra := ConvertUTF8ToUTF16 64 a (repeat 0 16) true in
  let rb := ConvertUTF8ToUTF16 64 b (repeat 0 16) true in
  let rab := ConvertUTF8ToUTF16 64 (a ++ b) (repeat 0 16) true in
  success rab = success rb
  /\ firstn (Z.to_nat (octets ra)) (buffer rab)
     = firstn (Z.to_nat (octets ra)) (buffer ra)
  /\ (success rb = true ->
      octets rab = octets ra + octets rb
      /\ firstn (Z.to_nat (octets rab)) (buffer rab)
         = firstn (Z.to_nat (octets ra)) (buffer ra)
           ++ firstn (Z.to_nat (octets rb)) (buffer rb)).
Proof.
  apply (ConvertUTF8ToUTF16_app 64 [0x48; 0xE2; 0x82; 0xAC]
           [0xF0; 0x9F; 0x98; 0x80] (repeat 0 16) true).
  - vm_compute. split; discriminate.
  - reflexivity.
Defined.

(** ** ASCII *)

Lemma ConvertUTF8ToUTF16_stream_ascii (little_endian : bool)
    (input : list Z) (sc : Scan) :
  Forall is_ascii input -> expected_utf8_remaining sc = 0 ->
  ConvertUTF8ToUTF16_stream little_endian input sc
  = (Continue sc,
     flat_map (fun b => if little_endian then [b; 0] else [0; b]) input).
Proof.
  intros Hascii Hrem.
  induction Hascii as [|b rest Hb Hrest IH]; [reflexivity|].
  unfold is_ascii in Hb.
  rewrite (ConvertUTF8ToUTF16_stream_cons little_endian b rest sc sc _
             (lead_written little_endian b sc sc Hrem
                (ascii_scanned b sc Hb Hrem))).
  rewrite IH. cbn [fst snd flat_map]. f_equal.
  destruct (Z.leb_spec b 0x7f); [|lia].
  rewrite code_unit_octets_eq by lia.
  f_equal. destruct little_endian; octets_eq.
Qed.

(** X12: ASCII input is always converted, and takes all of the capacity
    [ConvertUTF8ToUTF16] asks for: every octet becomes one code unit, the
    octet itself beside a zero octet, so that twice the input's length is
    written. *)
Theorem ConvertUTF8ToUTF16_ascii (size_bits : Z) (input output : list Z)
    (little_endian : bool) :
  Forall is_ascii input ->
  2 * Z.of_nat (length input) <= Z.of_nat (length output)
    <= SIZE_MAX size_bits ->
  let r := ConvertUTF8ToUTF16 size_bits input output little_endian in
  success r = true
  /\ octets r = 2 * Z.of_nat (length input)
  /\ firstn (Z.to_nat (octets r)) (buffer r)
     = flat_map (fun b => if little_endian then [b; 0] else [0; b]) input.
Proof.
  intros Hascii Hcap r. subst r.
  destruct (ConvertUTF8ToUTF16_of_stream size_bits input output little_endian
              _ _ Hcap
              (ConvertUTF8ToUTF16_stream_ascii little_endian input
                 (mkScan 0 0) Hascii eq_refl))
    as (_ & Hfirst & ->).
  cbn [expected_utf8_remaining Z.ltb Z.compare success octets buffer].
  rewrite Nat2Z.id, Hfirst.
  split; [reflexivity|]. split; [|reflexivity].
  clear. induction input as [|b rest IH]; [reflexivity|].
  cbn [flat_map]. rewrite length_app.
  replace (length (if little_endian then [b; 0] else [0; b])) with 2%nat
    by (destruct little_endian; reflexivity).
  cbn [length]. lia.
Qed.

Lemma ConvertUTF8ToUTF16_ascii_witness :
  let r := ConvertUTF8ToUTF16 64 [0x48; 0x65; 0x6c; 0x6c; 0x6f]
             (repeat 0 10) false in
  success r = true
  /\ octets r = 2 * Z.of_nat (length [0x48; 0x65; 0x6c; 0x6c; 0x6f])
  /\ firstn (Z.to_nat (octets r)) (buffer r)
     = flat_map (fun b => [0; b]) [0x48; 0x65; 0x6c; 0x6c; 0x6f].
Proof.
  apply (ConvertUTF8ToUTF16_ascii 64 [0x48; 0x65; 0x6c; 0x6c; 0x6f]
           (repeat 0 10) false).
  - repeat constructor; unfold is_ascii; lia.
  - vm_compute. split; discriminate.
Defined.

(** ** Code units in the span *)

Lemma store_nth_same (b : list Z) (i : nat) (v d : Z) :
  (i < length b)%nat -> nth i (store b i v) d = v.
Proof.
  revert i. induction b as [|h t IH]; intros [|j] Hi; simpl in *;
    try lia; try reflexivity.
  apply IH. lia.
Qed.

Lemma store_nth_other (b : list Z) (i j : nat) (v d : Z) :
  i <> j -> nth i (store b j v) d = nth i b d.
Proof.
  revert i j. induction b as [|h t IH]; intros [|i] [|j] Hij; simpl;
    try reflexivity; try lia.
  apply IH. lia.
Qed.

Lemma low_octet (character : Z) :
  0 <= character <= 0xffff ->
  wrap8 (Z.land character 0xff) = character mod 256.
Proof. intros H. rewrite land_ff. unwrap. euclid. Qed.

Lemma high_octet (character : Z) :
  0 <= character <= 0xffff ->
  wrap8 (Z.land (Z.shiftr character 8) 0xff) = character / 256.
Proof. intros H. rewrite shiftr_8, land_ff. unwrap. euclid. Qed.

(** X13: [InsertUTF16LE] and [InsertUTF16BE] store a code unit in the two
    octets at [p] and leave the rest of the span alone; [ExtractUTF16LE],
    respectively [ExtractUTF16BE], reads the code unit back from the two
    octets, and the extraction of the other byte order reads it with its
    octets exchanged. *)
Theorem Insert_Extract (little_endian : bool) (character : Z)
    (span : list Z) (p : nat) :
  0 <= character <= 0xffff -> (p + 1 < length span)%nat ->
  let span' := if little_endian then InsertUTF16LE character span p
               else InsertUTF16BE character span p in
  Extract little_endian (nth p span' 0) (nth (p + 1) span' 0) = character
  /\ Extract (negb little_endian) (nth p span' 0) (nth (p + 1) span' 0)
     = character mod 256 * 256 + character / 256
  /\ length span' = length span
  /\ forall i : nat, i <> p -> i <> (p + 1)%nat ->
       nth i span' 0 = nth i span 0.
Proof.
  intros Hc Hp span'.
  assert (H0 : nth p span' 0
               = if little_endian then character mod 256
                 else character / 256).
  { subst span'. destruct little_endian;
      unfold InsertUTF16LE, InsertUTF16BE; cbv zeta;
      rewrite store_nth_other by lia;
      rewrite store_nth_same by lia;
      first [apply low_octet | apply high_octet]; exact Hc. }
  assert (H1 : nth (p + 1) span' 0
               = if little_endian then character / 256
                 else character mod 256).
  { subst span'. destruct little_endian;
      unfold InsertUTF16LE, InsertUTF16BE; cbv zeta;
      rewrite store_nth_same by (rewrite store_length; lia);
      first [apply low_octet | apply high_octet]; exact Hc. }
  rewrite H0, H1.
  split; [|split; [|split]].
  - destruct little_endian; cbn [negb];
      rewrite Extract_eq by (unfold is_octet; euclid); euclid.
  - destruct little_endian; cbn [negb];
      rewrite Extract_eq by (unfold is_octet; euclid); euclid.
  - subst span'. destruct little_endian;
      unfold InsertUTF16LE, InsertUTF16BE; cbv zeta;
      rewrite !store_length; reflexivity.
  - intros i Hi Hi'. subst span'. destruct little_endian;
      unfold InsertUTF16LE, InsertUTF16BE; cbv zeta;
      rewrite !store_nth_other by lia; reflexivity.
Qed.

Lemma Insert_Extract_witness :
  let span' := InsertUTF16BE 0x20AC [1; 2; 3; 4; 5] 2 in
  Extract false (nth 2 span' 0) (nth (2 + 1) span' 0) = 0x20AC
  /\ Extract (negb false) (nth 2 span' 0) (nth (2 + 1) span' 0)
     = 0x20AC mod 256 * 256 + 0x20AC / 256
  /\ length span' = length [1; 2; 3; 4; 5]
  /\ forall i : nat, i <> 2%nat -> i <> (2 + 1)%nat ->
       nth i span' 0 = nth i [1; 2; 3; 4; 5] 0.
Proof.
  apply (Insert_Extract false 0x20AC [1; 2; 3; 4; 5] 2);
    [lia | simpl; lia].
Defined.

(** ** The round trip of character_utilities.cpp *)

(** [Legacy.ConvertUTF16ToUTF8] in terms of the octets written, for an input
    of even length and an output span of sufficient capacity. *)
Lemma Legacy_ConvertUTF16ToUTF8_written_spec (size_bits : Z)
    (input output : list Z) (little_endian : bool) :
  0 < size_bits -> size_bits mod 4 = 0 ->
  Nat.even (length input) = true ->
  Z.of_nat (length input) + Z.of_nat (length input) / 2
    <= Z.of_nat (length output) <= SIZE_MAX size_bits ->
  let '(why, e) := ConvertUTF16ToUTF8_stream little_endian input in
  (length e <= length output)%nat
  /\ firstn (length e) (blit output 0 e) = e
  /\ Legacy.ConvertUTF16ToUTF8 size_bits input output little_endian
     = match why with
       | None => mkConversion true (Z.of_nat (length e)) (blit output 0 e)
       | Some _ => mkConversion false 0 (blit output 0 e)
       end.
Proof.
  intros Hpos H4 Heven Hcap.
  pose proof (ConvertUTF16ToUTF8_stream_length little_endian
                (length input) input (le_n _)) as Hlen.
  assert (Hmod : Z.of_nat (length input) mod 2 = 0).
  { apply even_land in Heven. rewrite (land_low 1) in Heven by lia.
    exact Heven. }
  unfold Legacy.ConvertUTF16ToUTF8, Legacy.ConvertUTF16ToUTF8_outcome.
  cbv zeta.
  rewrite (ConvertUTF16ToUTF8_loop_written _ (length input)) by lia.
  destruct (ConvertUTF16ToUTF8_stream _ input) as [why e] eqn:Hst.
  cbn [snd] in Hlen.
  assert (Hfit : (length e <= length output)%nat) by euclid.
  split; [exact Hfit|]. split; [apply blit_all; exact Hfit|].
  destruct (Z.of_nat (length input) =? 0) eqn:H0.
  - apply Z.eqb_eq, length_zero_nil in H0. subst input.
    simpl in Hst. injection Hst as <- <-. reflexivity.
  - apply even_land in Heven. rewrite Heven. cbn [Z.eqb negb].
    assert (Hbelow : Z.of_nat (length input) <= Max_UTF16_String size_bits)
      by (apply capacity_implies_below_ceiling; (assumption || lia)).
    apply Z.ltb_ge in Hbelow. rewrite Hbelow. apply Z.ltb_ge in Hbelow.
    rewrite below_ceiling_no_overflow by (assumption || lia).
    destruct (Z.of_nat (length output) <? _) eqn:Hc;
      [apply Z.ltb_lt in Hc; lia|].
    destruct why; reflexivity.
Qed.

(** X14: the round trip of character_utilities.cpp, whose
    [ConvertUTF16ToUTF8] looks for no byte order mark: every sequence of
    octets that its [IsUTF8Valid] accepts, that holds neither 0xC0 nor 0xC1
    and no three- or four-octet sequence longer than the shortest form,
    comes back from [ConvertUTF8ToUTF16] and [ConvertUTF16ToUTF8] in the
    same byte order as it was, a leading U+FFFE included. *)
Theorem Legacy_utf8_utf16_round_trip (size_bits : Z)
    (utf8 out16 out8 : list Z) (little_endian : bool) :
  0 < size_bits -> size_bits mod 4 = 0 ->
  Forall is_octet utf8 ->
  Legacy.IsUTF8Valid utf8 = true ->
  forallb not_C0_C1 utf8 = true ->
  shortest_form utf8 = true ->
  2 * Z.of_nat (length utf8) <= Z.of_nat (length out16)
    <= SIZE_MAX size_bits ->
  let r16 := ConvertUTF8ToUTF16 size_bits utf8 out16 little_endian in
  let utf16 := firstn (Z.to_nat (octets r16)) (buffer r16) in
  Z.of_nat (length utf16) + Z.of_nat (length utf16) / 2
    <= Z.of_nat (length out8) <= SIZE_MAX size_bits ->
  let r8 := Legacy.ConvertUTF16ToUTF8 size_bits utf16 out8 little_endian in
  success r16 = true /\ success r8 = true
  /\ firstn (Z.to_nat (octets r8)) (buffer r8) = utf8.
Proof.
  intros Hpos H4 Hoct Hlegacy Hno Hshort Hcap16.
  assert (Hvalid : IsUTF8Valid utf8 = true).
  { rewrite IsUTF8Valid_Legacy_split by exact Hoct.
    rewrite Hlegacy, Hno. reflexivity. }
  destruct (IsUTF8Valid_ends utf8 Hvalid) as (sc1 & Hloop & Hend).
  destruct (round_trip_stream little_endian (length utf8) utf8 (mkScan 0 0)
              sc1 (le_n _) Hoct Hshort eq_refl Hloop Hend)
    as (e & He8 & He16 & Heven).
  destruct (ConvertUTF8ToUTF16_of_stream size_bits utf8 out16 little_endian
              _ _ Hcap16 He8) as (Hfit16 & Hfirst16 & Hr16).
  rewrite Hend in Hr16. cbn [Z.ltb Z.compare] in Hr16.
  intros r16 utf16. subst r16. subst utf16. rewrite Hr16.
  cbn [octets buffer success]. rewrite Nat2Z.id, Hfirst16.
  intros Hcap8.
  pose proof (Legacy_ConvertUTF16ToUTF8_written_spec size_bits e out8
                little_endian Hpos H4 Heven Hcap8) as H8.
  rewrite He16 in H8. destruct H8 as (Hfit8 & Hfirst8 & Hr8).
  rewrite Hr8. cbn [octets buffer success]. rewrite Nat2Z.id.
  repeat split. exact Hfirst8.
Qed.

Lemma Legacy_utf8_utf16_round_trip_witness :
  let utf8 := [0xEF; 0xBF; 0xBE; 0x41] in
  let r16 := ConvertUTF8ToUTF16 64 utf8 (repeat 0 8) true in
  let utf16 := firstn (Z.to_nat (octets r16)) (buffer r16) in
  let r8 := Legacy.ConvertUTF16ToUTF8 64 utf16 (repeat 0 6) true in
  success r16 = true /\ success r8 = true
  /\ firstn (Z.to_nat (octets r8)) (buffer r8) = utf8.
Proof.
  apply (Legacy_utf8_utf16_round_trip 64 [0xEF; 0xBF; 0xBE; 0x41]
           (repeat 0 8) (repeat 0 6) true);
    try reflexivity.
  - repeat constructor; unfold is_octet; lia.
  - vm_compute. split; discriminate.
  - vm_compute. split; discriminate.
Defined.

(** ** What [ConvertUTF16ToUTF8] accepts *)

(** X15: with an output span of sufficient capacity, [ConvertUTF16ToUTF8]
    succeeds on exactly the inputs of even length whose code units, in the
    byte order it reads them in, pair every surrogate: a high one followed
    by a low one, and no low one elsewhere. *)
Theorem ConvertUTF16ToUTF8_accepts_well_paired (size_bits : Z)
    (input output : list Z) (little_endian : bool) :
  0 < size_bits -> size_bits mod 4 = 0 ->
  Z.of_nat (length input) + Z.of_nat (length input) / 2
    <= Z.of_nat (length output) <= SIZE_MAX size_bits ->
  success (ConvertUTF16ToUTF8 size_bits input output little_endian)
  = Nat.even (length input)
    && well_paired (code_units (detect_byte_order input little_endian) input).
Proof.
  intros Hpos H4 Hcap.
  destruct (Nat.even (length input)) eqn:Heven; cbn [andb].
  - pose proof (ConvertUTF16ToUTF8_written_spec size_bits input output
                  little_endian Hpos H4 Heven Hcap) as H.
    pose proof (ConvertUTF16ToUTF8_stream_well_paired
                  (detect_byte_order input little_endian)
                  (length input) input (le_n _)) as Hsound.
    pose proof (ConvertUTF16ToUTF8_stream_complete
                  (detect_byte_order input little_endian)
                  (length input) input (le_n _) Heven) as Hcomplete.
    destruct (ConvertUTF16ToUTF8_stream _ input) as [[why|] e];
      destruct H as (_ & _ & ->); cbn [success fst] in *.
    + destruct (well_paired _); [|reflexivity].
      specialize (Hcomplete eq_refl). discriminate.
    + symmetry. apply Hsound. reflexivity.
  - destruct (success _) eqn:Hs; [|reflexivity].
    apply ConvertUTF16ToUTF8_success_even in Hs. congruence.
Qed.

Lemma ConvertUTF16ToUTF8_accepts_well_paired_witness :
  success (ConvertUTF16ToUTF8 64 [0xD8; 0x3D; 0x00; 0x41] (repeat 0 6) false)
  = Nat.even (length [0xD8; 0x3D; 0x00; 0x41])
    && well_paired
         (code_units (detect_byte_order [0xD8; 0x3D; 0x00; 0x41] false)
            [0xD8; 0x3D; 0x00; 0x41]).
Proof.
  apply (ConvertUTF16ToUTF8_accepts_well_paired 64 [0xD8; 0x3D; 0x00; 0x41]
           (repeat 0 6) false); try reflexivity.
  vm_compute. split; discriminate.
Defined.

(** ** The encodings of RFC 3629 and RFC 2781 *)

(** Lines 718-756 of utf16_to_utf8.cpp write the octets of RFC 3629. *)
Lemma utf8_octets_RFC3629 (c : Z) :
  0 <= c <= 0x10ffff -> utf8_octets c = Some (RFC3629_octets c).
Proof.
  intros Hc. unfold RFC3629_octets.
  destruct (Z.leb_spec c 0x7f); [apply utf8_octets_1; lia|].
  destruct (Z.leb_spec c 0x7ff); [apply utf8_octets_2; lia|].
  destruct (Z.leb_spec c 0xffff); [apply utf8_octets_3; lia|].
  apply utf8_octets_4; lia.
Qed.

(** Lines 168-216 of utf8_to_utf16.cpp write the code units of RFC 2781. *)
Lemma utf16_octets_RFC2781 (little_endian : bool) (c : Z) (tail : list Z) :
  0 <= c <= 0x10ffff ->
  code_units little_endian (utf16_octets little_endian c ++ tail)
  = RFC2781_code_units c ++ code_units little_endian tail.
Proof.
  intros Hc. unfold RFC2781_code_units.
  destruct (Z.leb_spec c 0xffff).
  - rewrite utf16_octets_bmp by lia.
    rewrite code_units_code_unit by lia. reflexivity.
  - rewrite utf16_octets_pair by lia. rewrite <- app_assoc.
    rewrite !code_units_code_unit by euclid.
    cbn [app]. f_equal; [euclid|]. f_equal. euclid.
Qed.

Lemma RFC3629_scanned (cs : list Z) :
  Forall is_scalar cs ->
  forall sc : Scan,
    expected_utf8_remaining sc = 0 ->
    exists sc' : Scan,
      expected_utf8_remaining sc' = 0
      /\ IsUTF8Valid_loop (flat_map RFC3629_octets cs) sc = Continue sc'
      /\ shortest_form (flat_map RFC3629_octets cs) = true
      /\ forall little_endian : bool,
           ConvertUTF8ToUTF16_stream little_endian
             (flat_map RFC3629_octets cs) sc
           = (Continue sc', flat_map (utf16_octets little_endian) cs).
Proof.
  induction 1 as [|c cs [Hc Hs] Hcs IH]; intros sc Hrem.
  - exists sc. repeat split; assumption || reflexivity.
  - cbn [flat_map].
    destruct (encoded_scanned c (RFC3629_octets c)
                (flat_map RFC3629_octets cs) sc Hc Hs
                (utf8_octets_RFC3629 c Hc) Hrem)
      as (sc1 & Hrem1 & Hloop1 & Hsf1 & Hst1).
    destruct (IH sc1 Hrem1) as (sc2 & Hrem2 & Hloop2 & Hsf2 & Hst2).
    exists sc2. split; [exact Hrem2|].
    split; [rewrite Hloop1; exact Hloop2|].
    split; [rewrite Hsf1; exact Hsf2|].
    intros le. rewrite Hst1, Hst2. reflexivity.
Qed.

Lemma scanned_RFC3629 :
  forall (n : nat) (s : list Z) (sc sc1 : Scan),
    (length s <= n)%nat ->
    Forall is_octet s -> shortest_form s = true ->
    expected_utf8_remaining sc = 0 ->
    IsUTF8Valid_loop s sc = Continue sc1 ->
    expected_utf8_remaining sc1 = 0 ->
    exists cs : list Z,
      Forall is_scalar cs /\ s = flat_map RFC3629_octets cs.
Proof.
  induction n as [|n IH]; intros s sc sc1 Hlen Hoct Hshort Hrem Hloop Hend;
    (destruct s as [|b s']; [exists []; split; [constructor | reflexivity]|]);
    [simpl in Hlen; lia|].
  destruct (first_character (b :: s') sc sc1 ltac:(discriminate) Hoct Hshort
              Hrem Hloop Hend)
    as (c & ch & rest & sc' & Hs & Hch & Henc & Hc & Hsur & Hoct' & Hshort'
        & Hrem' & Hloop' & _).
  assert (Hlen' : (length rest <= n)%nat).
  { apply (f_equal (@length Z)) in Hs. rewrite length_app in Hs.
    destruct ch; [congruence|]. simpl in Hs, Hlen. lia. }
  destruct (IH rest sc' sc1 Hlen' Hoct' Hshort' Hrem' Hloop' Hend)
    as (cs & Hcs & Hrest).
  exists (c :: cs). split; [constructor; [split; assumption | exact Hcs]|].
  cbn [flat_map]. rewrite Hs, Hrest. f_equal.
  rewrite utf8_octets_RFC3629 in Henc by exact Hc. congruence.
Qed.

(** X16: on sequences of octets, [IsUTF8Valid] accepts UTF-8 as RFC 3629
    defines it, and overlong three- and four-octet sequences beside: what
    it accepts and what is in shortest form is exactly the encodings of
    sequences of Unicode scalar values. *)
Theorem IsUTF8Valid_accepts_RFC3629 (s : list Z) :
  Forall is_octet s ->
  (IsUTF8Valid s = true /\ shortest_form s = true)
  <-> exists cs : list Z,
        Forall is_scalar cs /\ s = flat_map RFC3629_octets cs.
Proof.
  intros Hoct. split.
  - intros [Hvalid Hshort].
    destruct (IsUTF8Valid_ends s Hvalid) as (sc1 & Hloop & Hend).
    exact (scanned_RFC3629 (length s) s (mkScan 0 0) sc1 (le_n _) Hoct
             Hshort eq_refl Hloop Hend).
  - intros (cs & Hcs & ->).
    destruct (RFC3629_scanned cs Hcs (mkScan 0 0) eq_refl)
      as (sc' & Hrem & Hloop & Hsf & _).
    split; [|exact Hsf].
    rewrite IsUTF8Valid_unfolded, Hloop. apply Z.eqb_eq. exact Hrem.
Qed.

Lemma IsUTF8Valid_accepts_RFC3629_witness :
  (IsUTF8Valid [0x48; 0xC3; 0xA9; 0xE2; 0x82; 0xAC; 0xF0; 0x9F; 0x98; 0x80]
   = true
   /\ shortest_form
        [0x48; 0xC3; 0xA9; 0xE2; 0x82; 0xAC; 0xF0; 0x9F; 0x98; 0x80] = true)
  <-> exists cs : list Z,
        Forall is_scalar cs
        /\ [0x48; 0xC3; 0xA9; 0xE2; 0x82; 0xAC; 0xF0; 0x9F; 0x98; 0x80]
           = flat_map RFC3629_octets cs.
Proof.
  apply (IsUTF8Valid_accepts_RFC3629
           [0x48; 0xC3; 0xA9; 0xE2; 0x82; 0xAC; 0xF0; 0x9F; 0x98; 0x80]).
  repeat constructor; unfold is_octet; lia.
Defined.

Lemma code_units_RFC2781 (little_endian : bool) (cs : list Z) :
  Forall is_scalar cs ->
  code_units little_endian (flat_map (utf16_octets little_endian) cs)
  = flat_map RFC2781_code_units cs.
Proof.
  induction 1 as [|c cs [Hc Hs] Hcs IH]; [reflexivity|].
  cbn [flat_map]. rewrite utf16_octets_RFC2781 by exact Hc.
  rewrite IH. reflexivity.
Qed.

(** X17: [ConvertUTF8ToUTF16] converts the UTF-8 encoding of any sequence of
    Unicode scalar values, and what it writes is, code unit by code unit in
    the byte order requested, the UTF-16 encoding of RFC 2781 of the same
    sequence. *)
Theorem ConvertUTF8ToUTF16_encodes_RFC2781 (size_bits : Z)
    (cs output : list Z) (little_endian : bool) :
  Forall is_scalar cs ->
  2 * Z.of_nat (length (flat_map RFC3629_octets cs))
    <= Z.of_nat (length output) <= SIZE_MAX size_bits ->
  let r := ConvertUTF8ToUTF16 size_bits (flat_map RFC3629_octets cs) output
             little_endian in
  success r = true
  /\ code_units little_endian (firstn (Z.to_nat (octets r)) (buffer r))
     = flat_map RFC2781_code_units cs.
Proof.
  intros Hcs Hcap r. subst r.
  destruct (RFC3629_scanned cs Hcs (mkScan 0 0) eq_refl)
    as (sc' & Hrem & _ & _ & Hst).
  destruct (ConvertUTF8ToUTF16_of_stream size_bits _ output little_endian
              _ _ Hcap (Hst little_endian)) as (_ & Hfirst & ->).
  rewrite Hrem. cbn [Z.ltb Z.compare success octets buffer].
  rewrite Nat2Z.id, Hfirst.
  split; [reflexivity | apply code_units_RFC2781; exact Hcs].
Qed.

Lemma ConvertUTF8ToUTF16_encodes_RFC2781_witness :
  let r := ConvertUTF8ToUTF16 64
             (flat_map RFC3629_octets [0x48; 0x20AC; 0x1F600])
             (repeat 0 16) true in
  success r = true
  /\ code_units true (firstn (Z.to_nat (octets r)) (buffer r))
     = flat_map RFC2781_code_units [0x48; 0x20AC; 0x1F600].
Proof.
  apply (ConvertUTF8ToUTF16_encodes_RFC2781 64 [0x48; 0x20AC; 0x1F600]
           (repeat 0 16) true).
  - repeat constructor; lia.
  - vm_compute. split; discriminate.
Defined.

Lemma ConvertUTF16ToUTF8_stream_RFC (little_endian : bool) :
  forall (n : nat) (u e : list Z),
    (length u <= n)%nat ->
    ConvertUTF16ToUTF8_stream little_endian u = (None, e) ->
    exists cs : list Z,
      Forall is_scalar cs
      /\ code_units little_endian u = flat_map RFC2781_code_units cs
      /\ e = flat_map RFC3629_octets cs.
Proof.
  induction n as [|n IH]; intros u e Hlen;
    destruct u as [|p0 [|p1 rest]]; simpl in Hlen; try lia;
    cbn [ConvertUTF16ToUTF8_stream code_units]; try discriminate;
    try (intros H; apply pair_equal_spec in H; destruct H as [_ <-];
         exists []; repeat split; constructor).
  pose proof (Extract_range little_endian p0 p1) as Hr.
  remember (Extract little_endian p0 p1) as ch eqn:Ech.
  destruct (in_surrogate_range ch) eqn:Hs.
  - destruct (in_low_surrogate_range ch) eqn:Hl; [discriminate|].
    destruct rest as [|p2 [|p3 rest']]; try discriminate.
    cbn [code_units].
    remember (Extract little_endian p2 p3) as low eqn:Elow.
    destruct (low <? Unicode.Surrogate_Low_Min) eqn:L1; [discriminate|].
    destruct (Unicode.Surrogate_Low_Max <? low) eqn:L2; [discriminate|].
    cbn [orb].
    pose proof (high_surrogate_bounds _ Hs Hl) as Bh.
    pose proof (low_surrogate_bounds _ L1 L2) as Bl.
    rewrite surrogate_pair_value_eq by assumption.
    remember (0x10000 + (ch - 0xD800) * 1024 + (low - 0xDC00)) as c eqn:Ec.
    rewrite utf8_octets_RFC3629 by lia.
    destruct (ConvertUTF16ToUTF8_stream little_endian rest') as [r e'] eqn:Hst.
    intros H. apply pair_equal_spec in H. destruct H as [-> <-].
    destruct (IH rest' e' ltac:(simpl in Hlen; lia) Hst)
      as (cs & Hcs & Hunits & ->).
    exists (c :: cs).
    split; [constructor;
            [split; [lia | apply not_surrogate_above; lia] | exact Hcs]|].
    split; [|reflexivity].
    cbn [flat_map]. rewrite Hunits. unfold RFC2781_code_units.
    destruct (Z.leb_spec c 0xffff); [lia|].
    cbn [app]. f_equal; [euclid|]. f_equal. euclid.
  - rewrite utf8_octets_RFC3629 by lia.
    destruct (ConvertUTF16ToUTF8_stream little_endian rest) as [r e'] eqn:Hst.
    intros H. apply pair_equal_spec in H. destruct H as [-> <-].
    destruct (IH rest e' ltac:(lia) Hst) as (cs & Hcs & Hunits & ->).
    exists (ch :: cs).
    split; [constructor; [split; [lia | exact Hs] | exact Hcs]|].
    split; [|reflexivity].
    cbn [flat_map]. rewrite Hunits. unfold RFC2781_code_units.
    destruct (Z.leb_spec ch 0xffff); [reflexivity | lia].
Qed.

(** X18: when [ConvertUTF16ToUTF8] succeeds, the code units of its input, in
    the byte order it reads them in, are the UTF-16 encoding of RFC 2781 of
    a sequence of Unicode scalar values, and what it has written is the
    UTF-8 encoding of RFC 3629 of that sequence. *)
Theorem ConvertUTF16ToUTF8_encodes_RFC3629 (size_bits : Z)
    (input output : list Z) (little_endian : bool) :
  0 < size_bits -> size_bits mod 4 = 0 ->
  let r := ConvertUTF16ToUTF8 size_bits input output little_endian in
  success r = true ->
  exists cs : list Z,
    Forall is_scalar cs
    /\ code_units (detect_byte_order input little_endian) input
       = flat_map RFC2781_code_units cs
    /\ firstn (Z.to_nat (octets r)) (buffer r) = flat_map RFC3629_octets cs.
Proof.
  intros Hpos H4 r Hok. subst r.
  destruct (ConvertUTF16ToUTF8_success_written size_bits input output
              little_endian Hpos H4 Hok) as (e & Hst & Hr & Hfit & Hfirst).
  rewrite Hr. cbn [octets buffer]. rewrite Nat2Z.id, Hfirst.
  exact (ConvertUTF16ToUTF8_stream_RFC
           (detect_byte_order input little_endian) (length input) input e
           (le_n _) Hst).
Qed.

Lemma ConvertUTF16ToUTF8_encodes_RFC3629_witness :
  let input := [0xFF; 0xFE; 0x48; 0x00; 0x3D; 0xD8; 0x00; 0xDE] in
  let r := ConvertUTF16ToUTF8 64 input (repeat 0 12) false in
  exists cs : list Z,
    Forall is_scalar cs
    /\ code_units (detect_byte_order input false) input
       = flat_map RFC2781_code_units cs
    /\ firstn (Z.to_nat (octets r)) (buffer r) = flat_map RFC3629_octets cs.
Proof.
  apply (ConvertUTF16ToUTF8_encodes_RFC3629 64
           [0xFF; 0xFE; 0x48; 0x00; 0x3D; 0xD8; 0x00; 0xDE]
           (repeat 0 12) false); reflexivity.
Defined.
